(** * DigiviceColorModifier: binary-format engine, embedded and verified

    A shallow embedding of the ROM tooling of the repository: the
    little-endian readers, the container-archive scanner, the text-archive
    validator and string decoder, the sprite-package locators, the
    MSB-first pixel packer and unpacker, the GeneralPlus ADPCM codec and
    the in-place patch loops of the importers.

    Conventions.
    - A Python [bytes]/[bytearray] is a [list byte]; Python integers are [Z].
    - A Python exception is [None] in the [option] monad ([struct.error],
      [IndexError], [ValueError], [StopIteration], [AssertionError]).
    - Python [str] is [string]; the tools only compare, concatenate and
      substitute characters, so the 8-bit alphabet is enough.
    - [while] loops that are not structurally recursive take a fuel. *)

From Stdlib Require Import ZArith List String Ascii Lia Bool Sorted.
From Stdlib Require Import Init.Byte.
Import ListNotations.
Open Scope Z_scope.

(** ** The exception monad *)

Notation "'do' x <- a ; b" :=
  (match a with Some x => b | None => None end)
  (at level 10, x pattern, a at level 100, b at level 200).

(** ** Python sequences *)

Module Py.

Definition len {A} (l : list A) : Z := Z.of_nat (List.length l).

(** Slice bounds as Python normalises them: a negative bound counts from
    the end, and every bound is clamped to [0, len]. *)
Definition clamp_index (n i : Z) : Z :=
  if i <? 0 then Z.max 0 (i + n) else Z.min i n.

(** [l[a:b]] *)
Definition slice {A} (l : list A) (a b : Z) : list A :=
  let a' := clamp_index (len l) a in
  let b' := clamp_index (len l) b in
  firstn (Z.to_nat (b' - a')) (skipn (Z.to_nat a') l).

(** [l[a:b] = v] on a bytearray: the slice is replaced by [v], whatever
    the length of [v]; an empty or inverted slice inserts at [a]. *)
Definition slice_assign {A} (l : list A) (a b : Z) (v : list A) : list A :=
  let a' := clamp_index (len l) a in
  let b' := Z.max a' (clamp_index (len l) b) in
  firstn (Z.to_nat a') l ++ v ++ skipn (Z.to_nat b') l.

(** [l[i]], with negative indices counted from the end; [IndexError]
    outside. *)
Definition index {A} (l : list A) (i : Z) : option A :=
  let j := if i <? 0 then i + len l else i in
  if (0 <=? j) && (j <? len l) then nth_error l (Z.to_nat j) else None.

(** [range(a, b, step)] for a positive step. *)
Fixpoint range_from (n : nat) (a step : Z) : list Z :=
  match n with
  | O => []
  | S k => a :: range_from k (a + step) step
  end.

Definition range (a b step : Z) : list Z :=
  range_from (Z.to_nat ((b - a + step - 1) / step)) a step.

(** [enumerate(l)] *)
Fixpoint enumerate_from {A} (i : Z) (l : list A) : list (Z * A) :=
  match l with
  | [] => []
  | x :: t => (i, x) :: enumerate_from (i + 1) t
  end.

Definition enumerate {A} (l : list A) : list (Z * A) := enumerate_from 0 l.

End Py.

(** ** Bytes and [struct] *)

Module Struct.

Definition bytes := list byte.

Definition byte_val (b : byte) : Z := Z.of_N (Byte.to_N b).

(** The byte of value [z mod 256]. *)
Definition byte_of (z : Z) : byte :=
  match Byte.of_N (Z.to_N (z mod 256)) with
  | Some b => b
  | None => x00
  end.

Definition bytes_of (l : list Z) : bytes := map byte_of l.

(** Where [struct.unpack_from]/[pack_into] read or write [size] bytes for an
    offset [o]: a negative offset counts from the end, and the access must
    fit ([struct.error] otherwise). *)
Definition struct_offset (n o size : Z) : option Z :=
  let o' := if o <? 0 then o + n else o in
  if (0 <=? o') && (o' + size <=? n) then Some o' else None.

Definition byte_at (b : bytes) (i : Z) : Z :=
  byte_val (nth (Z.to_nat i) b x00).

(** [struct.unpack_from("<H", b, o)[0]] *)
Definition le16 (b : bytes) (o : Z) : option Z :=
  do p <- struct_offset (Py.len b) o 2;
  Some (byte_at b p + 256 * byte_at b (p + 1)).

(** [struct.unpack_from("<I", b, o)[0]] *)
Definition le32 (b : bytes) (o : Z) : option Z :=
  do p <- struct_offset (Py.len b) o 4;
  Some (byte_at b p + 256 * byte_at b (p + 1)
        + 65536 * byte_at b (p + 2) + 16777216 * byte_at b (p + 3)).

(** [struct.unpack_from("<h", b, o)[0]] *)
Definition se16 (b : bytes) (o : Z) : option Z :=
  do w <- le16 b o;
  Some (if w <? 32768 then w else w - 65536).

(** [struct.pack("<H", v)]: [struct.error] unless [0 <= v <= 65535]. *)
Definition pack16 (v : Z) : option bytes :=
  if (0 <=? v) && (v <=? 65535)
  then Some [byte_of (v mod 256); byte_of (v / 256)]
  else None.

(** [struct.pack_into("<H", data, o, v)] *)
Definition pack_into16 (data : bytes) (o v : Z) : option bytes :=
  do w <- pack16 v;
  do p <- struct_offset (Py.len data) o 2;
  Some (firstn (Z.to_nat p) data ++ w ++ skipn (Z.to_nat (p + 2)) data).

End Struct.
Import Struct.

(** ** String formatting *)

Module Fmt.

Definition digit_char (d : Z) : ascii :=
  nth (Z.to_nat d)
      ["0"; "1"; "2"; "3"; "4"; "5"; "6"; "7"; "8"; "9";
       "A"; "B"; "C"; "D"; "E"; "F"]%char "0"%char.

Fixpoint digits (fuel : nat) (base n : Z) (acc : string) : string :=
  match fuel with
  | O => acc
  | S f =>
      let acc' := String (digit_char (n mod base)) acc in
      if n / base =? 0 then acc' else digits f base (n / base) acc'
  end.

(** The digits of a non-negative [n] in the given base, at least one. *)
Definition to_base (base n : Z) : string :=
  digits (S (Z.to_nat (Z.log2 n))) base n "".

Fixpoint zeros (k : nat) : string :=
  match k with
  | O => ""
  | S j => String "0" (zeros j)
  end.

(** [f"{n:X}"] *)
Definition hexX (n : Z) : string := to_base 16 n.

(** [f"{n:04X}"] *)
Definition hex04X (n : Z) : string :=
  let s := to_base 16 n in
  (zeros (4 - String.length s) ++ s)%string.

(** [f"{n}"] *)
Definition dec (n : Z) : string := to_base 10 n.

End Fmt.

(** ** Container archives ([is_probable_tama_archive], [iter_all_archives])

    The same two functions are copied into [export_d3_npc_names.py],
    [import_d3_npc_names.py], [export_d3_data.py], [import_d3_data.py],
    [export_digivice_data.py] and, with tuples for the dataclasses, into the
    three remaining Digivice tools.  The [data] field of [Archive] always
    aliases the scanned buffer and is passed alongside instead.

    A function that can both [return None] and raise has type
    [option (option _)]: the outer [None] is the exception. *)

Module Arc.

Record ArchEntry := mkEntry
  { flags : Z; offset : Z; comp_len : Z; decomp_len : Z }.

Record Archive := mkArchive
  { base_off : Z; count : Z; entries : list ArchEntry }.

(** The body of [for i in range(count)]. *)
Fixpoint read_entries (buf : bytes) (abs_off : Z) (idxs : list Z)
  : option (option (list ArchEntry)) :=
  match idxs with
  | [] => Some (Some [])
  | i :: rest =>
      let e := abs_off + 4 + i * 16 in
      do fl <- le32 buf e;
      do off <- le32 buf (e + 4);
      do cl <- le32 buf (e + 8);
      do dl <- le32 buf (e + 12);
      if abs_off + off >? Py.len buf then Some None
      else
        do r <- read_entries buf abs_off rest;
        Some (match r with
              | Some es => Some (mkEntry fl off cl dl :: es)
              | None => None
              end)
  end.

Definition is_probable_tama_archive (buf : bytes) (abs_off : Z)
  : option (option Archive) :=
  if abs_off + 4 >? Py.len buf then Some None
  else
    do magic <- le16 buf abs_off;
    if negb (magic =? 0x3232) then Some None
    else
      do c <- le16 buf (abs_off + 2);
      if negb ((1 <=? c) && (c <=? 65535)) then Some None
      else
        let table_end := abs_off + 4 + c * 16 in
        if table_end >? Py.len buf then Some None
        else
          do r <- read_entries buf abs_off (Py.range 0 c 1);
          Some (match r with
                | Some es => Some (mkArchive abs_off c es)
                | None => None
                end).

(** A queue item [(path, arc, depth)]. *)
Definition item := (string * Archive * Z)%type.

(** [for off in range(0, len(buf)-4, 2)]: the top-level hits. *)
Fixpoint scan_tops (buf : bytes) (offs : list Z)
  : option (list (string * Archive)) :=
  match offs with
  | [] => Some []
  | off :: rest =>
      do a <- is_probable_tama_archive buf off;
      do t <- scan_tops buf rest;
      Some (match a with
            | Some arc => (("off=0x" ++ Fmt.hexX off)%string, arc) :: t
            | None => t
            end)
  end.

(** [for idx, e in enumerate(arc.entries)]: the items appended to the queue
    for one popped archive.  No field of [e] other than [offset] is read. *)
Fixpoint sub_archives (buf : bytes) (path : string) (base depth : Z)
         (ies : list (Z * ArchEntry)) : option (list item) :=
  match ies with
  | [] => Some []
  | (idx, e) :: rest =>
      do sub <- is_probable_tama_archive buf (base + offset e);
      do t <- sub_archives buf path base depth rest;
      Some (match sub with
            | Some s =>
                ((path ++ "/idx=" ++ Fmt.dec idx)%string, s, depth + 1) :: t
            | None => t
            end)
  end.

(** [while q:], one iteration per unit of fuel; the yielded pairs in
    order.  The outer [None] is an exception, [Some None] is fuel
    exhausted. *)
Fixpoint bfs (fuel : nat) (buf : bytes) (max_depth : Z) (q : list item)
  : option (option (list (string * Archive))) :=
  match q with
  | [] => Some (Some [])
  | (path, arc, depth) :: q' =>
      match fuel with
      | O => Some None
      | S f =>
          do q'' <- (if depth >=? max_depth then Some q'
                     else
                       do subs <- sub_archives buf path (base_off arc) depth
                                    (Py.enumerate (entries arc));
                       Some (q' ++ subs));
          do r <- bfs f buf max_depth q'';
          Some (match r with
                | Some out => Some ((path, arc) :: out)
                | None => None
                end)
      end
  end.

Definition iter_all_archives (fuel : nat) (buf : bytes) (max_depth : Z)
  : option (option (list (string * Archive))) :=
  do tops <- scan_tops buf (Py.range 0 (Py.len buf - 4) 2);
  bfs fuel buf max_depth (map (fun pa => (fst pa, snd pa, 0)) tops).

End Arc.

(** ** Text archives *)

Fixpoint mapM {A B} (f : A -> option B) (l : list A) : option (list B) :=
  match l with
  | [] => Some []
  | x :: t => do y <- f x; do ys <- mapM f t; Some (y :: ys)
  end.

Module Txt.

Record TextArchive := mkTA
  { base_off : Z; path : string; n_strings : Z;
    offsets_word : list Z; data : bytes }.

(** [for w in offs: if w<prev or w*2>=len(view): return None; prev=w] *)
Fixpoint offsets_ok (viewlen prev : Z) (offs : list Z) : bool :=
  match offs with
  | [] => true
  | w :: rest =>
      if (w <? prev) || (w * 2 >=? viewlen) then false
      else offsets_ok viewlen w rest
  end.

(** [is_probable_text_archive] of [export_d3_npc_names.py]; the copies in
    [import_d3_npc_names.py], [import_d3_data.py] and, as [is_text_archive],
    in the Digivice tools run the same checks. *)
Definition is_probable_text_archive (view : bytes)
  : option (option TextArchive) :=
  if Py.len view <? 4 then Some None
  else
    do n <- le16 view 0;
    if negb ((1 <=? n) && (n <=? 20000)) then Some None
    else if 2 + 2 * n >? Py.len view then Some None
    else
      do offs <- mapM (fun i => le16 view (2 + 2 * i)) (Py.range 0 n 1);
      if offsets_ok (Py.len view) 0 offs
      then Some (Some (mkTA 0 "" n offs view))
      else Some None.

Definition parse_text_archive (view : bytes) (abs_off : Z) (p : string)
  : option (option TextArchive) :=
  do r <- is_probable_text_archive view;
  Some (match r with
        | Some ta =>
            Some (mkTA abs_off p (n_strings ta) (offsets_word ta) (data ta))
        | None => None
        end).

(** The loop of [decode_string] over the bytes from [start] on: it reads
    one 16-bit word while two bytes remain. *)
Fixpoint decode_words (l : bytes) : string :=
  match l with
  | b0 :: b1 :: rest =>
      let w := byte_val b0 + 256 * byte_val b1 in
      if w =? 0 then ""
      else if w >=? 0xF000 then decode_words rest
      else ("<" ++ Fmt.hex04X w ++ ">" ++ decode_words rest)%string
  | _ => ""
  end.

Definition decode_string (view : bytes) (start : Z) : string :=
  decode_words (skipn (Z.to_nat start) view).

(** The view an entry designates and its classification, as every
    consumer of the traversal computes them ([extract_names]). *)
Definition entry_view (buf : bytes) (arc : Arc.Archive) (e : Arc.ArchEntry)
  : option bytes :=
  if negb (Z.land (Arc.flags e) 0xF =? 0) then None
  else
    let abs_off := Arc.base_off arc + Arc.offset e in
    let length := if Arc.decomp_len e >? 0 then Arc.decomp_len e
                  else Arc.comp_len e in
    if length <=? 0 then None
    else Some (Py.slice buf abs_off (abs_off + length)).

End Txt.

(** [is_probable_text_archive] of [export_d3_data.py] and
    [export_digivice_data.py]: the same header checks, then a scan of every
    string for its terminator. *)

Module ExportD3Data.

(** [while p + 2 <= len(view) and p - (w*2) <= 4096], one iteration per
    unit of fuel; [ok] at exit. *)
Fixpoint find_terminator (fuel : nat) (view : bytes) (w p : Z)
  : option bool :=
  match fuel with
  | O => Some false
  | S f =>
      if (p + 2 <=? Py.len view) && (p - w * 2 <=? 4096) then
        do c <- le16 view p;
        if c =? 0 then Some true else find_terminator f view w (p + 2)
      else Some false
  end.

(** [for w in offs: ... if not ok: return None].  The scan reads at most
    2050 words of a string. *)
Fixpoint all_terminated (view : bytes) (offs : list Z) : option bool :=
  match offs with
  | [] => Some true
  | w :: rest =>
      do ok <- find_terminator 2050 view w (w * 2);
      if ok then all_terminated view rest else Some false
  end.

Definition is_probable_text_archive (view : bytes)
  : option (option Txt.TextArchive) :=
  if Py.len view <? 4 then Some None
  else
    do n <- le16 view 0;
    if negb ((1 <=? n) && (n <=? 20000)) then Some None
    else if 2 + 2 * n >? Py.len view then Some None
    else
      do offs <- mapM (fun i => le16 view (2 + 2 * i)) (Py.range 0 n 1);
      if negb (Txt.offsets_ok (Py.len view) 0 offs) then Some None
      else
        do ok <- all_terminated view offs;
        if ok then Some (Some (Txt.mkTA 0 "" n offs view)) else Some None.

End ExportD3Data.

(** ** Sprite packages *)

Module Sprites.

Record ImageDef := mkImage
  { sprite_start_index : Z; width : Z; height : Z; palette_start_index : Z }.

Record SpriteDef := mkSprite
  { charnum : Z; ox : Z; oy : Z; attr : Z }.

(** The four header words [(img_defs, spr_defs, palettes, chars)]. *)
Definition offsets := (Z * Z * Z * Z)%type.

Definition chars_of (o : offsets) : Z := snd o.

(** The fields of [unpack_attr] the tools use. *)
Definition sp_color (a : Z) : Z := Z.land a 0x3.
Definition sp_flip (a : Z) : Z := Z.land (Z.shiftr a 2) 0x3.
Definition sp_hsize (a : Z) : Z := Z.land (Z.shiftr a 4) 0x3.
Definition sp_vsize (a : Z) : Z := Z.land (Z.shiftr a 6) 0x3.
Definition sp_palette (a : Z) : Z := Z.land (Z.shiftr a 8) 0xF.

Definition bits_pp (sp_color : Z) : Z := sp_color * 2 + 2.

Definition sprite_dims (a : Z) : Z * Z * Z :=
  (Z.shiftl 8 (sp_hsize a), Z.shiftl 8 (sp_vsize a), bits_pp (sp_color a)).

Definition read_image (block : bytes) (o : Z) : option ImageDef :=
  do s <- le16 block o;
  do w <- Py.index block (o + 2);
  do h <- Py.index block (o + 3);
  do p <- le16 block (o + 4);
  Some (mkImage s (byte_val w) (byte_val h) p).

Definition read_sprite (block : bytes) (o : Z) : option SpriteDef :=
  do c <- le16 block o;
  do x <- se16 block (o + 2);
  do y <- se16 block (o + 4);
  do a <- le16 block (o + 6);
  Some (mkSprite c x y a).

Definition read_images (block : bytes) (img_defs num_images : Z)
  : option (list ImageDef) :=
  mapM (fun i => read_image block (img_defs + i * 6))
       (Py.range 0 num_images 1).

Definition read_sprites (block : bytes) (spr_defs num_sprites : Z)
  : option (list SpriteDef) :=
  mapM (fun i => read_sprite block (spr_defs + i * 8))
       (Py.range 0 num_sprites 1).

Definition read_palette (block : bytes) (palettes num_colors : Z)
  : option (list Z) :=
  mapM (fun i => le16 block (palettes + 2 * i)) (Py.range 0 num_colors 1).

(** [0 < img_defs < spr_defs < palettes < chars <= bound] *)
Definition increasing_within (o : offsets) (bound : Z) : bool :=
  let '(img_defs, spr_defs, palettes, chars) := o in
  (0 <? img_defs) && (img_defs <? spr_defs) && (spr_defs <? palettes)
  && (palettes <? chars) && (chars <=? bound).

(** [img_len % 6 == 0 and spr_len % 8 == 0 and pal_len % 2 == 0] *)
Definition aligned (o : offsets) : bool :=
  let '(img_defs, spr_defs, palettes, chars) := o in
  ((spr_defs - img_defs) mod 6 =? 0) && ((palettes - spr_defs) mod 8 =? 0)
  && ((chars - palettes) mod 2 =? 0).

Definition header (data : bytes) (off : Z) : option offsets :=
  do img_defs <- le32 data (off + 0);
  do spr_defs <- le32 data (off + 4);
  do palettes <- le32 data (off + 8);
  do chars <- le32 data (off + 12);
  Some (img_defs, spr_defs, palettes, chars).

(** [images[-1]] *)
Definition last_image (images : list ImageDef) : option ImageDef :=
  Py.index images (-1).

End Sprites.

(** *** [export_sprites.py] *)

Module ExportSprites.
Import Sprites.

Definition parsed :=
  (offsets * list ImageDef * list SpriteDef * list Z)%type.

Definition parse_package (block : bytes) : option parsed :=
  do o <- header block 0;
  let '(img_defs, spr_defs, palettes, chars) := o in
  if negb (increasing_within o (Py.len block)) then None
  else if negb (aligned o) then None
  else
    let num_images := (spr_defs - img_defs) / 6 in
    let num_sprites := (palettes - spr_defs) / 8 in
    let num_colors := (chars - palettes) / 2 in
    do images <- read_images block img_defs num_images;
    do sprites <- read_sprites block spr_defs num_sprites;
    do palette_words <- read_palette block palettes num_colors;
    Some (o, images, sprites, palette_words).

(** The [try] body of [scan_for_package] at one offset: [Some] is the
    [return], [None] is [continue], whether by a failed check or by a
    caught exception. *)
Definition candidate (bin_data : bytes) (off : Z) : option (Z * parsed) :=
  let size := Py.len bin_data in
  do o <- header bin_data off;
  let '(img_defs, spr_defs, palettes, chars) := o in
  if negb (increasing_within o (size - off)) then None
  else if negb (aligned o) then None
  else
    let num_images := (spr_defs - img_defs) / 6 in
    let num_sprites := (palettes - spr_defs) / 8 in
    let num_colors := (chars - palettes) / 2 in
    if (num_images <? 500) || (num_images >? 10000) then None
    else if num_colors <? 64 then None
    else
      let block := Py.slice bin_data off (off + chars + 1000000) in
      do p <- parse_package block;
      let '(_, images, _, _) := p in
      do last <- last_image images;
      if sprite_start_index last <? num_sprites then Some (off, p) else None.

Fixpoint first_candidate (bin_data : bytes) (offs : list Z)
  : option (Z * parsed) :=
  match offs with
  | [] => None
  | off :: rest =>
      match candidate bin_data off with
      | Some r => Some r
      | None => first_candidate bin_data rest
      end
  end.

(** [None] is the final [RuntimeError]. *)
Definition scan_for_package (bin_data : bytes) : option (Z * parsed) :=
  first_candidate bin_data (Py.range 0 (Py.len bin_data - 16) 4).

End ExportSprites.

(** *** The scan of [replace_sprites.py] and [update_palette.py] *)

Module ReplaceSprites.
Import Sprites.

Definition parse_package (block : bytes) (o : offsets)
  : option (list ImageDef * list SpriteDef * list Z * Z) :=
  let '(img_defs, spr_defs, palettes, chars) := o in
  if negb (aligned o) then None
  else
    let num_images := (spr_defs - img_defs) / 6 in
    let num_sprites := (palettes - spr_defs) / 8 in
    let num_colors := (chars - palettes) / 2 in
    do images <- read_images block img_defs num_images;
    do sprites <- read_sprites block spr_defs num_sprites;
    do palette_words <- read_palette block palettes num_colors;
    Some (images, sprites, palette_words, chars).

(** [best]: [(score, off, block, offs)]. *)
Definition best_t := (Z * Z * bytes * offsets)%type.

(** One iteration of the scan at [off]: the outer [None] is an uncaught
    exception, [Some None] is [continue], [Some (Some c)] a candidate that
    reached [score = chars]. *)
Definition candidate (data : bytes) (off : Z) : option (option best_t) :=
  let size := Py.len data in
  do o <- header data off;
  let '(img_defs, spr_defs, palettes, chars) := o in
  if negb (increasing_within o (size - off)) then Some None
  else if negb (aligned o) then Some None
  else
    let num_images := (spr_defs - img_defs) / 6 in
    let num_sprites := (palettes - spr_defs) / 8 in
    if negb ((1000 <=? num_images) && (num_images <=? 5000)) then Some None
    else
      let block := Py.slice data off (off + chars + 1000000) in
      match parse_package block o with
      | None => Some None
      | Some (images, _, _, _) =>
          do last <- last_image images;
          if sprite_start_index last >=? num_sprites then Some None
          else Some (Some (chars, off, block, o))
      end.

(** [if best is None or score > best[0]: best = ...] *)
Definition better (best : option best_t) (c : best_t) : option best_t :=
  match best with
  | None => Some c
  | Some b => if fst (fst (fst c)) >? fst (fst (fst b)) then Some c else Some b
  end.

Fixpoint scan (data : bytes) (offs : list Z) (best : option best_t)
  : option (option best_t) :=
  match offs with
  | [] => Some best
  | off :: rest =>
      do c <- candidate data off;
      scan data rest (match c with
                      | Some c' => better best c'
                      | None => best
                      end)
  end.

(** [None] is an exception, the final [RuntimeError] included. *)
Definition robust_scan (data : bytes) : option (Z * bytes * offsets) :=
  do best <- scan data (Py.range 0 (Py.len data - 16) 4) None;
  match best with
  | Some (_, off, block, offs) => Some (off, block, offs)
  | None => None
  end.

End ReplaceSprites.

Module UpdatePalette.
Import Sprites.

Definition candidate (data : bytes) (off : Z)
  : option (option ReplaceSprites.best_t) :=
  let size := Py.len data in
  do o <- header data off;
  let '(img_defs, spr_defs, palettes, chars) := o in
  if negb (increasing_within o (size - off)) then Some None
  else if negb (aligned o) then Some None
  else
    let num_images := (spr_defs - img_defs) / 6 in
    let num_sprites := (palettes - spr_defs) / 8 in
    if negb ((1000 <=? num_images) && (num_images <=? 5000)) then Some None
    else
      let block := Py.slice data off (off + chars + 1000000) in
      do last_img_spr <- le16 block (img_defs + (num_images - 1) * 6);
      if last_img_spr >=? num_sprites then Some None
      else Some (Some (chars, off, block, o)).

Fixpoint scan (data : bytes) (offs : list Z)
         (best : option ReplaceSprites.best_t)
  : option (option ReplaceSprites.best_t) :=
  match offs with
  | [] => Some best
  | off :: rest =>
      do c <- candidate data off;
      scan data rest (match c with
                      | Some c' => ReplaceSprites.better best c'
                      | None => best
                      end)
  end.

Definition robust_scan (data : bytes) : option (Z * bytes * offsets) :=
  do best <- scan data (Py.range 0 (Py.len data - 16) 4) None;
  match best with
  | Some (_, off, block, offs) => Some (off, block, offs)
  | None => None
  end.

End UpdatePalette.

(** ** Pixel packing and unpacking, most significant bit first *)

Module Pixels.

(** [while accbits >= 8] of [pack_bits_msb]: every iteration removes eight
    bits, so [accbits / 8] iterations empty the accumulator below eight. *)
Fixpoint flush (fuel : nat) (out : bytes) (acc accbits : Z)
  : bytes * Z * Z :=
  match fuel with
  | O => (out, acc, accbits)
  | S f =>
      if accbits >=? 8 then
        let shift := accbits - 8 in
        flush f (out ++ [byte_of (Z.land (Z.shiftr acc shift) 0xFF)])
              (Z.land acc (Z.shiftl 1 shift - 1)) (accbits - 8)
      else (out, acc, accbits)
  end.

(** [for _ in range(w*h)]; [next(it)] on an exhausted iterator raises. *)
Fixpoint pack_loop (n : nat) (it : list Z) (bpp mask : Z)
         (out : bytes) (acc accbits : Z) : option (bytes * Z * Z) :=
  match n with
  | O => Some (out, acc, accbits)
  | S k =>
      match it with
      | [] => None
      | x :: it' =>
          let v := Z.land x mask in
          let acc := Z.lor (Z.shiftl acc bpp) v in
          let accbits := accbits + bpp in
          let '(out, acc, accbits) :=
            flush (Z.to_nat (accbits / 8)) out acc accbits in
          pack_loop k it' bpp mask out acc accbits
      end
  end.

(** [pack_bits_msb] of [replace_sprites.py].  [1 << bpp] raises for a
    negative [bpp]. *)
Definition pack_bits_msb (indexes : list Z) (w h bpp : Z) : option bytes :=
  if bpp <? 0 then None
  else
    let total := w * h * bpp in
    let nbytes := (total + 7) / 8 in
    let mask := Z.shiftl 1 bpp - 1 in
    do st <- pack_loop (Z.to_nat (w * h)) indexes bpp mask [] 0 0;
    let '(out, acc, accbits) := st in
    let out :=
      if accbits >? 0
      then out ++ [byte_of (Z.land (Z.shiftl acc (8 - accbits)) 0xFF)]
      else out in
    Some (if negb (Py.len out =? nbytes)
          then Py.slice out 0 nbytes
               ++ repeat x00 (Z.to_nat (Z.max 0 (nbytes - Py.len out)))
          else out).

(** [while accbits >= bpp and len(vals) < (w*h)] of [decode_character];
    for [bpp >= 1] it runs at most [accbits] times. *)
Fixpoint emit (fuel : nat) (bpp n : Z) (vals : list Z) (acc accbits : Z)
  : list Z * Z * Z :=
  match fuel with
  | O => (vals, acc, accbits)
  | S f =>
      if (accbits >=? bpp) && (Py.len vals <? n) then
        let shift := accbits - bpp in
        emit f bpp n
             (vals ++ [Z.land (Z.shiftr acc shift) (Z.shiftl 1 bpp - 1)])
             (Z.land acc (Z.shiftl 1 shift - 1)) (accbits - bpp)
      else (vals, acc, accbits)
  end.

(** [for byte in buf] *)
Fixpoint unpack_loop (buf : bytes) (bpp n : Z) (vals : list Z)
         (acc accbits : Z) : list Z * Z * Z :=
  match buf with
  | [] => (vals, acc, accbits)
  | byte :: rest =>
      let acc := Z.lor (Z.shiftl acc 8) (byte_val byte) in
      let accbits := accbits + 8 in
      let '(vals, acc, accbits) :=
        emit (Z.to_nat accbits) bpp n vals acc accbits in
      unpack_loop rest bpp n vals acc accbits
  end.

(** The unpacker of [decode_character] ([export_sprites.py]) on the bytes
    [buf] of one character, for a target [(w, h, bpp)]. *)
Definition unpack_bits (buf : bytes) (w h bpp : Z) : list Z :=
  let '(vals, _, _) := unpack_loop buf bpp (w * h) [] 0 0 in
  if Py.len vals <? w * h
  then vals ++ repeat 0 (Z.to_nat (w * h - Py.len vals))
  else vals.

Definition decode_character (block : bytes) (chars_offset charnum attr : Z)
  : Z * Z * list Z :=
  let '(w, h, bpp) := Sprites.sprite_dims attr in
  let total_bits := w * h * bpp in
  let nbytes := (total_bits + 7) / 8 in
  let off := chars_offset + charnum * nbytes in
  let buf := Py.slice block off (off + nbytes) in
  (w, h, unpack_bits buf w h bpp).

End Pixels.

(** ** GeneralPlus ADPCM *)

Module Adpcm.

Definition step_table : list Z :=
  [16; 17; 19; 21; 23; 25; 28; 31; 34; 37; 41; 45; 50; 55; 60; 66].

Definition max_amp : Z := 2047.

(** [max(lo, min(hi, x))] *)
Definition clamp (lo hi x : Z) : Z := Z.max lo (Z.min hi x).

(** The codec state [(predictor, step_index)]. *)
Definition state := (Z * Z)%type.

(** One nibble of [gp_adpcm_decode]: the new state and the sample. *)
Definition decode_nibble (st : state) (nib : Z) : option (state * Z) :=
  let '(predictor, step_index) := st in
  do step <- Py.index step_table step_index;
  let diff := Z.shiftr step 3 in
  let diff := if negb (Z.land nib 1 =? 0) then diff + Z.shiftr step 2
              else diff in
  let diff := if negb (Z.land nib 2 =? 0) then diff + Z.shiftr step 1
              else diff in
  let diff := if negb (Z.land nib 4 =? 0) then diff + step else diff in
  let predictor := if negb (Z.land nib 8 =? 0) then predictor - diff
                   else predictor + diff in
  let predictor := clamp (- max_amp) max_amp predictor in
  let step_index := step_index + (Z.land nib 7 - 4) in
  let step_index := clamp 0 15 step_index in
  Some ((predictor, step_index), predictor * 16).

Fixpoint decode_nibbles (st : state) (nibs : list Z) : option (list Z) :=
  match nibs with
  | [] => Some []
  | nib :: rest =>
      do r <- decode_nibble st nib;
      let '(st', sample) := r in
      do pcm <- decode_nibbles st' rest;
      Some (sample :: pcm)
  end.

(** [for nib in (byte & 0x0F, byte >> 4)] for every byte. *)
Fixpoint nibbles_of (adpcm_bytes : bytes) : list Z :=
  match adpcm_bytes with
  | [] => []
  | byte :: rest =>
      Z.land (byte_val byte) 0x0F :: Z.shiftr (byte_val byte) 4
      :: nibbles_of rest
  end.

Definition gp_adpcm_decode (adpcm_bytes : bytes) : option (list Z) :=
  decode_nibbles (0, 0) (nibbles_of adpcm_bytes).

(** [np.clip(pcm16.astype(np.int32) // 16, -max_amp, max_amp)] on one
    sample. *)
Definition quantize (sample : Z) : Z :=
  clamp (- max_amp) max_amp (sample / 16).

(** One sample of the loop of [gp_adpcm_encode]: the new state and the
    nibble. *)
Definition encode_sample (st : state) (sample : Z) : option (state * Z) :=
  let '(predictor, step_index) := st in
  let diff := sample - predictor in
  let nib := 0 in
  let '(nib, diff) := if diff <? 0 then (Z.lor nib 0x8, - diff)
                      else (nib, diff) in
  do step <- Py.index step_table step_index;
  let contrib := Z.shiftr step 3 in
  let '(nib, contrib, diff) :=
    if diff >=? step then (Z.lor nib 0x4, contrib + step, diff - step)
    else (nib, contrib, diff) in
  let '(nib, contrib, diff) :=
    if diff >=? Z.shiftr step 1
    then (Z.lor nib 0x2, contrib + Z.shiftr step 1, diff - Z.shiftr step 1)
    else (nib, contrib, diff) in
  let '(nib, contrib) :=
    if diff >=? Z.shiftr step 2
    then (Z.lor nib 0x1, contrib + Z.shiftr step 2)
    else (nib, contrib) in
  let predictor := if negb (Z.land nib 0x8 =? 0) then predictor - contrib
                   else predictor + contrib in
  let predictor := if predictor <? - max_amp then - max_amp
                   else if predictor >? max_amp then max_amp
                   else predictor in
  let step_index := step_index + (Z.land nib 0x7 - 4) in
  let step_index := if step_index <? 0 then 0
                    else if step_index >? 15 then 15
                    else step_index in
  Some ((predictor, step_index), Z.land nib 0xF).

Fixpoint encode_samples (st : state) (pcm_q : list Z) : option (list Z) :=
  match pcm_q with
  | [] => Some []
  | sample :: rest =>
      do r <- encode_sample st sample;
      let '(st', nib) := r in
      do nibs <- encode_samples st' rest;
      Some (nib :: nibs)
  end.

(** [for i in range(0, len(nibbles), 2)]: two nibbles per byte, low
    first, a missing high nibble being 0. *)
Fixpoint pack_nibbles (nibbles : list Z) : bytes :=
  match nibbles with
  | [] => []
  | [lo] => [byte_of (Z.lor (Z.land lo 0xF) (Z.shiftl (Z.land 0 0xF) 4))]
  | lo :: hi :: rest =>
      byte_of (Z.lor (Z.land lo 0xF) (Z.shiftl (Z.land hi 0xF) 4))
      :: pack_nibbles rest
  end.

(** [gp_adpcm_encode(pcm16, initial_predictor, initial_step_index)]; the
    importer calls it with the defaults [0, 0]. *)
Definition gp_adpcm_encode (pcm16 : list Z)
           (initial_predictor initial_step_index : Z) : option bytes :=
  let pcm_q := map quantize pcm16 in
  do nibbles <- encode_samples (initial_predictor, initial_step_index) pcm_q;
  Some (pack_nibbles nibbles).

End Adpcm.

(** ** Python strings: substitution and the tag syntax *)

Module Str.
Open Scope string_scope.
Open Scope Z_scope.

(** [new + c1 + new + c2 + ... + new]: [s.replace("", new)]. *)
Fixpoint intersperse (new s : string) : string :=
  match s with
  | EmptyString => new
  | String c t => new ++ String c (intersperse new t)
  end.

(** [s.replace(old, new)] for a non-empty [old], scanning left to right;
    [skip] counts the characters of a matched occurrence still to drop. *)
Fixpoint replace_from (old new : string) (skip : nat) (s : string) : string :=
  match s with
  | EmptyString => EmptyString
  | String c t =>
      match skip with
      | S k => replace_from old new k t
      | O =>
          if String.prefix old s
          then new ++ replace_from old new (String.length old - 1) t
          else String c (replace_from old new 0 t)
      end
  end.

Definition replace (s old new : string) : string :=
  match old with
  | EmptyString => intersperse new s
  | _ => replace_from old new 0 s
  end.

(** [for a,b in rules: s = s.replace(a,b)] *)
Fixpoint apply_rules (s : string) (rules : list (string * string)) : string :=
  match rules with
  | [] => s
  | (a, b) :: rest => apply_rules (replace s a b) rest
  end.

(** [any(c in chars for c in s)] *)
Fixpoint any_in (chars : list ascii) (s : string) : bool :=
  match s with
  | EmptyString => false
  | String c t =>
      if existsb (Ascii.eqb c) chars then true else any_in chars t
  end.

(** The value of one character of [[0-9A-Fa-f]]. *)
Definition hex_val (c : ascii) : option Z :=
  let n := Z.of_nat (nat_of_ascii c) in
  if (48 <=? n) && (n <=? 57) then Some (n - 48)
  else if (65 <=? n) && (n <=? 70) then Some (n - 55)
  else if (97 <=? n) && (n <=? 102) then Some (n - 87)
  else None.

(** [int(m.group(1), 16)] for the four digits of a matched tag. *)
Definition hex4 (a b c d : ascii) : option Z :=
  do x <- hex_val a; do y <- hex_val b;
  do z <- hex_val c; do t <- hex_val d;
  Some (((x * 16 + y) * 16 + z) * 16 + t).

(** The characters no accepted name may hold; the D-3 NPC importer omits
    [=] from the set the three other importers share. *)
Definition FORBIDDEN_CHARS_D3_NPC : list ascii :=
  ["+"; "-"; ":"; "<"; ">"; "?"; "!"; "~"; "`"; "'"; "034"; "["; "]";
   "{"; "}"; "092"; "|"; "@"; "#"; "$"; "%"; "^"; "&"; "*"; ","]%char.

Definition FORBIDDEN_CHARS : list ascii :=
  ["+"; "-"; ":"; "<"; ">"; "?"; "!"; "~"; "`"; "'"; "034"; "["; "]";
   "{"; "}"; "092"; "|"; "@"; "#"; "$"; "%"; "^"; "&"; "*"; "="; ","]%char.

End Str.

(** ** [import_d3_npc_names.py] *)

Module ImportD3NpcNames.
Open Scope string_scope.
Open Scope Z_scope.

Definition ALLOWED_PATHS : list string :=
  ["off=0x1EC000/idx=0"; "off=0x140000/idx=4/idx=0"].

Definition decode_old_string (ta : Txt.TextArchive) (si : Z)
           (fwd_rules : list (string * string)) : option string :=
  do w <- Py.index (Txt.offsets_word ta) si;
  let raw := Txt.decode_string (Txt.data ta) (w * 2) in
  Some (Str.apply_rules raw fwd_rules).

(** [encode_to_codes]: [None] is the [ValueError]. *)
Fixpoint encode_to_codes (s : string) : option (list Z) :=
  match s with
  | EmptyString => Some []
  | String "<" (String a (String b (String c (String d
      (String ">" rest))))) =>
      do v <- Str.hex4 a b c d;
      do out <- encode_to_codes rest;
      Some (if negb (v =? 0) then v :: out else out)
  | String _ _ => None
  end.

Fixpoint encode_bytes (codes : list Z) : option bytes :=
  match codes with
  | [] => Some [x00; x00]
  | c :: rest =>
      do w <- pack16 c;
      do b <- encode_bytes rest;
      Some (w ++ b)%list
  end.

Definition string_capacity (ta : Txt.TextArchive) (si : Z) : option Z :=
  do w <- Py.index (Txt.offsets_word ta) si;
  let start := w * 2 in
  do e <- (if si + 1 <? Txt.n_strings ta
           then do w' <- Py.index (Txt.offsets_word ta) (si + 1);
                Some (w' * 2)
           else Some (Py.len (Txt.data ta)));
  Some (e - start).

(** What one name of [npc_map] does to the buffer. *)
Inductive outcome :=
| Skipped (reason : string)
| Written (write_off : Z) (enc : bytes).

(** The body of [for si,new_name in npc_map.items()] up to the write: the
    checks in source order.  The outer [None] is an uncaught exception. *)
Definition check_name (ta : Txt.TextArchive) (si : Z) (new_name : string)
           (fwd inv : list (string * string)) : option outcome :=
  if si >=? Txt.n_strings ta then Some (Skipped "index")
  else if Str.any_in Str.FORBIDDEN_CHARS_D3_NPC new_name
  then Some (Skipped "forbidden")
  else
    do old_name <- decode_old_string ta si fwd;
    if negb (String.length new_name =? String.length old_name)%nat
    then Some (Skipped "length")
    else
      let encoded := Str.apply_rules new_name inv in
      match encode_to_codes encoded with
      | None => Some (Skipped "encode")
      | Some codes =>
          do enc <- encode_bytes codes;
          do cap <- string_capacity ta si;
          if Py.len enc >? cap then Some (Skipped "capacity")
          else
            do w <- Py.index (Txt.offsets_word ta) si;
            Some (Written (Txt.base_off ta + w * 2) enc)
      end.

(** [data[write_off:write_off+len(enc)] = enc; changes+=1] *)
Definition apply_outcome (st : bytes * Z) (o : outcome) : bytes * Z :=
  match o with
  | Skipped _ => st
  | Written write_off enc =>
      (Py.slice_assign (fst st) write_off (write_off + Py.len enc) enc,
       snd st + 1)
  end.

Definition patch_name (st : bytes * Z) (ta : Txt.TextArchive) (si : Z)
           (new_name : string) (fwd inv : list (string * string))
  : option (bytes * Z) :=
  do o <- check_name ta si new_name fwd inv;
  Some (apply_outcome st o).

Fixpoint patch_names (st : bytes * Z) (ta : Txt.TextArchive)
         (npc_map : list (Z * string)) (fwd inv : list (string * string))
  : option (bytes * Z) :=
  match npc_map with
  | [] => Some st
  | (si, new_name) :: rest =>
      do st' <- patch_name st ta si new_name fwd inv;
      patch_names st' ta rest fwd inv
  end.

(** The body of [for idx,e in enumerate(arc.entries)] for one yielded
    archive; the view is cut from the buffer as patched so far. *)
Fixpoint patch_entries (st : bytes * Z) (p : string) (arc : Arc.Archive)
         (ies : list (Z * Arc.ArchEntry)) (npc_map : list (Z * string))
         (fwd inv : list (string * string)) : option (bytes * Z) :=
  match ies with
  | [] => Some st
  | (idx, e) :: rest =>
      do st' <-
        match Txt.entry_view (fst st) arc e with
        | None => Some st
        | Some view =>
            do r <- Txt.parse_text_archive view
                      (Arc.base_off arc + Arc.offset e)
                      (p ++ "/idx=" ++ Fmt.dec idx);
            match r with
            | None => Some st
            | Some ta =>
                if negb (existsb (String.eqb (Txt.path ta)) ALLOWED_PATHS)
                then Some st
                else patch_names st ta npc_map fwd inv
            end
        end;
      patch_entries st' p arc rest npc_map fwd inv
  end.

(** [for path,arc in iter_all_archives(data,3)]: the generator and the
    patching body interleaved.  The generator holds the bytearray itself,
    so the sub-archives of a popped archive are looked up in the buffer
    as patched by the body that ran at its [yield].  [Some None] is fuel
    exhausted. *)
Fixpoint main_loop (fuel : nat) (st : bytes * Z) (max_depth : Z)
         (q : list Arc.item) (npc_map : list (Z * string))
         (fwd inv : list (string * string)) : option (option (bytes * Z)) :=
  match q with
  | [] => Some (Some st)
  | (p, arc, depth) :: q' =>
      match fuel with
      | O => Some None
      | S f =>
          do st' <- patch_entries st p arc (Py.enumerate (Arc.entries arc))
                      npc_map fwd inv;
          do q'' <- (if depth >=? max_depth then Some q'
                     else
                       do subs <- Arc.sub_archives (fst st') p
                                    (Arc.base_off arc) depth
                                    (Py.enumerate (Arc.entries arc));
                       Some (q' ++ subs)%list);
          main_loop f st' max_depth q'' npc_map fwd inv
      end
  end.

(** [main] from the loaded buffer and tables to the buffer written to
    [out_path] and the count of changes. *)
Definition main (fuel : nat) (data : bytes) (npc_map : list (Z * string))
           (fwd inv : list (string * string)) : option (option (bytes * Z)) :=
  do tops <- Arc.scan_tops data (Py.range 0 (Py.len data - 4) 2);
  main_loop fuel (data, 0) 3
            (map (fun pa => (fst pa, snd pa, 0)) tops) npc_map fwd inv.

End ImportD3NpcNames.

(** ** [import_d3_data.py]: the name loop of [main] *)

Module ImportD3Data.
Open Scope string_scope.
Open Scope Z_scope.

(** [encode_from_tagstring]: [None] is the [ValueError]. *)
Fixpoint encode_from_tagstring (s : string) : option (list Z) :=
  match s with
  | EmptyString => Some []
  | String "010" rest =>
      do out <- encode_from_tagstring rest; Some (0xF000 :: out)
  | String "<" (String a (String b (String c (String d
      (String ">" rest))))) =>
      match (if Ascii.eqb a "F"
             then do y <- Str.hex_val b; do z <- Str.hex_val c;
                  do t <- Str.hex_val d; Some ((y * 16 + z) * 16 + t)
             else None) with
      | Some v3 =>
          do out <- encode_from_tagstring rest;
          Some (Z.lor 0xF000 v3 :: out)
      | None =>
          do v <- Str.hex4 a b c d;
          do out <- encode_from_tagstring rest;
          Some (if negb (v =? 0) then v :: out else out)
      end
  | String _ _ => None
  end.

Fixpoint encode_to_bytes (codes : list Z) : option bytes :=
  match codes with
  | [] => pack16 0
  | c :: rest =>
      do w <- pack16 c;
      do b <- encode_to_bytes rest;
      Some (w ++ b)%list
  end.

Definition string_capacity_bytes (ta : Txt.TextArchive) (si : Z)
  : option Z :=
  do w <- Py.index (Txt.offsets_word ta) si;
  let start := w * 2 in
  do e <- (if si + 1 <? Txt.n_strings ta
           then do w' <- Py.index (Txt.offsets_word ta) (si + 1);
                Some (w' * 2)
           else Some (Py.len (Txt.data ta)));
  Some (Z.max 0 (e - start)).

(** [index_map]: every [(ta, si)] of the allowed text archives in order. *)
Definition index_map (tas : list Txt.TextArchive)
  : list (Txt.TextArchive * Z) :=
  flat_map (fun ta => map (fun si => (ta, si))
                          (Py.range 0 (Txt.n_strings ta) 1)) tas.

Inductive outcome :=
| Skipped
| Written (abs_write : Z) (enc : bytes).

(** The body of [for r in rows] of the name update, up to the write;
    [truncate] is [args.overflow == "truncate"], the default being the
    reject policy.  The encoder's [ValueError] is not caught here. *)
Definition check_row (imap : list (Txt.TextArchive * Z)) (truncate : bool)
           (si : Z) (name : string) (inv : list (string * string))
  : option outcome :=
  if Str.any_in Str.FORBIDDEN_CHARS name then Some Skipped
  else if negb ((0 <=? si) && (si <? Py.len imap)) then Some Skipped
  else
    do ts <- Py.index imap si;
    let '(ta, slot) := ts in
    let tag := Str.apply_rules name inv in
    do codes <- encode_from_tagstring tag;
    do enc <- encode_to_bytes codes;
    do cap <- string_capacity_bytes ta slot;
    do enc' <- (if Py.len enc >? cap then
                  if truncate then
                    let fit := Z.max 0 (cap / 2 - 1) in
                    do t <- encode_to_bytes (Py.slice codes 0 fit);
                    Some (Some t)
                  else Some None
                else Some (Some enc));
    match enc' with
    | None => Some Skipped
    | Some enc =>
        do w <- Py.index (Txt.offsets_word ta) slot;
        Some (Written (Txt.base_off ta + w * 2) enc)
    end.

Definition apply_outcome (data : bytes) (o : outcome) : bytes :=
  match o with
  | Skipped => data
  | Written abs_write enc =>
      Py.slice_assign data abs_write (abs_write + Py.len enc) enc
  end.

Definition patch_row (data : bytes) (imap : list (Txt.TextArchive * Z))
           (truncate : bool) (si : Z) (name : string)
           (inv : list (string * string)) : option bytes :=
  do o <- check_row imap truncate si name inv;
  Some (apply_outcome data o).

End ImportD3Data.

(** ** The Digivice importers

    [import_digivice_data.py] and [import_digivice_npc_names.py] keep the
    name archive as the tuple [(path, base_off, view, n_strings, offsets)];
    it is a [Txt.TextArchive] here, [view] being its [data]. *)

Module ImportDigivice.
Open Scope string_scope.
Open Scope Z_scope.

(** The tag loop of [encode_tagstring_to_bytes]; [None] is the
    [ValueError]. *)
Fixpoint tag_codes (s : string) : option (list Z) :=
  match s with
  | EmptyString => Some []
  | String "<" (String a (String b (String c (String d
      (String ">" rest))))) =>
      do v <- Str.hex4 a b c d;
      do out <- tag_codes rest;
      Some (v :: out)
  | String _ _ => None
  end.

Fixpoint pack_codes (codes : list Z) : option bytes :=
  match codes with
  | [] => pack16 0
  | c :: rest =>
      do w <- pack16 c;
      do b <- pack_codes rest;
      Some (w ++ b)%list
  end.

Definition encode_tagstring_to_bytes (tag_str : string) : option bytes :=
  do codes <- tag_codes tag_str;
  pack_codes codes.

Inductive outcome :=
| Skipped
| Written (abs_pos : Z) (enc : bytes).

(** The name update of one row, from the forbidden-character test to the
    write, the same statements in both importers.  The outer [None] is an
    uncaught exception ([offsets[si]]); every exception of the encoder is
    caught and skips the row. *)
Definition check_name (ta : Txt.TextArchive) (si : Z) (new_name : string)
           (rules : list (string * string)) : option outcome :=
  if Str.any_in Str.FORBIDDEN_CHARS new_name then Some Skipped
  else
    do w <- Py.index (Txt.offsets_word ta) si;
    let old_start := w * 2 in
    do old_end <- (if si + 1 <? Txt.n_strings ta
                   then do w' <- Py.index (Txt.offsets_word ta) (si + 1);
                        Some (w' * 2)
                   else Some (Py.len (Txt.data ta)));
    let old_bytes := Py.slice (Txt.data ta) old_start old_end in
    let new_tag := Str.apply_rules new_name rules in
    match encode_tagstring_to_bytes new_tag with
    | None => Some Skipped
    | Some enc =>
        if negb (Py.len enc =? Py.len old_bytes) then Some Skipped
        else Some (Written (Txt.base_off ta + old_start) enc)
    end.

Definition apply_outcome (data : bytes) (o : outcome) : bytes :=
  match o with
  | Skipped => data
  | Written abs_pos enc =>
      Py.slice_assign data abs_pos (abs_pos + Py.len enc) enc
  end.

Definition update_name (data : bytes) (ta : Txt.TextArchive) (si : Z)
           (new_name : string) (rules : list (string * string))
  : option bytes :=
  do o <- check_name ta si new_name rules;
  Some (apply_outcome data o).

End ImportDigivice.

Module ImportDigiviceData.

Definition BASE_STATS : Z := 0x00097F2A.
Definition RECORD_SIZE : Z := 10.
Definition MAX_POWER : Z := 225.

(** A CSV row with its integer columns parsed. *)
Record row := mkRow
  { string_index : Z; DigimonName : string; Power : Z; SlotIndex : Z }.

Definition write_rec (r : row) : Z :=
  let slot := SlotIndex r - 1 in
  BASE_STATS + (slot + 1) * RECORD_SIZE.

(** [--- Update Power ---] *)
Definition update_power (data : bytes) (r : row) : option bytes :=
  let new_power := Power r in
  if new_power >? MAX_POWER then Some data
  else pack_into16 data (write_rec r) new_power.

(** The body of [for r in rows]. *)
Definition process_row (data : bytes) (ta : Txt.TextArchive)
           (rules : list (string * string)) (r : row) : option bytes :=
  let si := string_index r in
  if si >=? Txt.n_strings ta then Some data
  else
    do data1 <- update_power data r;
    ImportDigivice.update_name data1 ta si (DigimonName r) rules.

Fixpoint process_rows (data : bytes) (ta : Txt.TextArchive)
         (rules : list (string * string)) (rows : list row) : option bytes :=
  match rows with
  | [] => Some data
  | r :: rest =>
      do data' <- process_row data ta rules r;
      process_rows data' ta rules rest
  end.

End ImportDigiviceData.

Module ImportDigiviceNpcNames.

Definition DIGIVICE_NPC_INDEXES : list Z :=
  [95; 102; 106; 109; 112; 115; 118;
   139; 140; 141; 142; 143; 144; 145; 146;
   147; 148; 149; 150; 151; 152; 153; 154;
   155; 156; 157; 158; 159; 160; 161; 162;
   163; 164; 165; 166; 167; 168; 169; 170;
   171; 172; 173; 174; 175; 176; 177; 178;
   179; 180; 181].

(** The body of [for r in rows] for a row [(string_index, name)]. *)
Definition process_row (data : bytes) (ta : Txt.TextArchive)
           (rules : list (string * string)) (si : Z) (new_name : string)
  : option bytes :=
  if negb (existsb (Z.eqb si) DIGIVICE_NPC_INDEXES) then Some data
  else if si >=? Txt.n_strings ta then Some data
  else ImportDigivice.update_name data ta si new_name rules.

End ImportDigiviceNpcNames.

(** ** [import_device_sounds.py] *)

Module ImportDeviceSounds.

(** [b"SPF2ALP\x00"] *)
Definition MAGIC_SPF2ALP : bytes :=
  bytes_of [0x53; 0x50; 0x46; 0x32; 0x41; 0x4C; 0x50; 0x00].
Definition SPF2_HEADER_SIZE : Z := 0x40.
Definition MAX_SAMPLE_RATE : Z := 192000.

Fixpoint starts_with (m d : bytes) : bool :=
  match m, d with
  | [], _ => true
  | _ :: _, [] => false
  | x :: m', y :: d' => Byte.eqb x y && starts_with m' d'
  end.

(** The loop around [buf.find(MAGIC_SPF2ALP, pos)]: every position where
    the magic starts, in increasing order; [d] is the buffer from [pos]. *)
Fixpoint find_all (d : bytes) (pos : Z) : list Z :=
  match d with
  | [] => []
  | _ :: t =>
      if starts_with MAGIC_SPF2ALP d then pos :: find_all t (pos + 1)
      else find_all t (pos + 1)
  end.

Record block := mkBlock
  { index : Z; start : Z; end_ : Z; adpcm_start : Z; adpcm_end : Z;
    slot_bytes : Z; sample_rate : Z }.

(** [for idx, start in enumerate(positions)] *)
Fixpoint blocks_from (buf : bytes) (filesize idx : Z) (positions : list Z)
  : option (list block) :=
  match positions with
  | [] => Some []
  | st :: rest =>
      let e := match rest with
               | nxt :: _ => nxt
               | [] => filesize
               end in
      do tl <- blocks_from buf filesize (idx + 1) rest;
      if e <=? st + SPF2_HEADER_SIZE then Some tl
      else
        let header_start := st in
        let header_end := st + SPF2_HEADER_SIZE in
        let a_start := header_end in
        let a_end := e in
        let slot := a_end - a_start in
        if slot <=? 0 then Some tl
        else
          do rate <- (if header_end - header_start >=? 0x14 then
                        do r <- le32 buf (header_start + 0x10);
                        Some (if (r =? 0) || (r >? MAX_SAMPLE_RATE)
                              then 44100 else r)
                      else Some 44100);
          Some (mkBlock idx st e a_start a_end slot rate :: tl)
  end.

Definition scan_spf2alp_blocks (data : bytes) : option (list block) :=
  blocks_from data (Py.len data) 0 (find_all data 0).

(** [3) Fit into slot (trim or pad)] *)
Definition fit (encoded : bytes) (slot : Z) : bytes :=
  if Py.len encoded >? slot then Py.slice encoded 0 slot
  else if Py.len encoded <? slot
  then encoded ++ repeat x00 (Z.to_nat (slot - Py.len encoded))
  else encoded.

(** The body of [for b in blocks].  [wavs idx rate] is the PCM that
    [convert_wav_to_mono_16bit_resampled] returns for the replacement WAV
    of block [idx], [None] when the file is missing or the conversion
    raises. *)
Definition import_block (dry_run : bool) (wavs : Z -> Z -> option (list Z))
           (data : bytes) (b : block) : bytes :=
  match wavs (index b) (sample_rate b) with
  | None => data
  | Some pcm16 =>
      match Adpcm.gp_adpcm_encode pcm16 0 0 with
      | None => data
      | Some encoded =>
          if Py.len encoded =? 0 then data
          else
            let encoded := fit encoded (slot_bytes b) in
            if negb (Py.len encoded =? slot_bytes b) then data
            else if dry_run then data
            else Py.slice_assign data (adpcm_start b) (adpcm_end b) encoded
      end
  end.

(** [import_spf2alp_sounds]: the buffer written to [output_bin]; the outer
    [None] is an exception, the inner one a dry run, which writes no
    file. *)
Definition import_spf2alp_sounds (data : bytes)
           (wavs : Z -> Z -> option (list Z)) (dry_run : bool)
  : option (option bytes) :=
  do blocks <- scan_spf2alp_blocks data;
  let data' := fold_left (import_block dry_run wavs) blocks data in
  Some (if dry_run then None else Some data').

End ImportDeviceSounds.

(** ** [replace_sprites.py]: [main]

    The quantisation of a PNG against the palette is left out: a job
    carries the size of its PNG and [tiles n k], the palette index that
    [map_tile] returns for pixel [k] of the crop of the [n]-th sprite of
    the subimage (with the default [--alpha inverted] the palette is
    converted without any further read). *)

Module ReplaceSpritesMain.
Import Sprites.

Record info := mkInfo
  { W : Z; H : Z; min_x : Z; min_y : Z; spr0 : Z; spp : Z;
    dims : list (Z * Z * Z) }.

(** [min(...)]/[max(...)] of a sequence: [ValueError] when it is empty. *)
Definition py_min (l : list Z) : option Z :=
  match l with
  | [] => None
  | x :: t => Some (fold_left Z.min t x)
  end.

Definition py_max (l : list Z) : option Z :=
  match l with
  | [] => None
  | x :: t => Some (fold_left Z.max t x)
  end.

(** The body of [for si in range(subimages)]. *)
Definition subimage_info (sprites : list SpriteDef) (idef : ImageDef)
           (spp si : Z) : option info :=
  let spr0 := sprite_start_index idef + si * spp in
  let sprs := Py.slice sprites spr0 (spr0 + spp) in
  let dims := map (fun s => sprite_dims (attr s)) sprs in
  let rects := map (fun s => let '(w, h, _) := sprite_dims (attr s) in
                             (ox s, oy s, ox s + w, oy s + h)) sprs in
  do min_x <- py_min (map (fun r => fst (fst (fst r))) rects);
  do min_y <- py_min (map (fun r => snd (fst (fst r))) rects);
  do max_x <- py_max (map (fun r => snd (fst r)) rects);
  do max_y <- py_max (map (fun r => snd r) rects);
  Some (mkInfo (max_x - min_x) (max_y - min_y) min_x min_y spr0 spp dims).

(** [subinfo], the dictionary, as the list of its insertions; the keys
    are distinct. *)
Fixpoint build_subinfo (sprites : list SpriteDef) (images : list ImageDef)
         (iimgs : list (Z * ImageDef)) : option (list (Z * Z * info)) :=
  match iimgs with
  | [] => Some []
  | (img_idx, idef) :: rest =>
      let spp := width idef * height idef in
      do here <-
        (if spp =? 0 then Some []
         else
           do total_for_img <-
             (if img_idx + 1 <? Py.len images
              then do nxt <- Py.index images (img_idx + 1);
                   Some (sprite_start_index nxt - sprite_start_index idef)
              else Some (Py.len sprites - sprite_start_index idef));
           let subimages := Z.max 1 (total_for_img / spp) in
           mapM (fun si => do i <- subimage_info sprites idef spp si;
                           Some (img_idx, si, i))
                (Py.range 0 subimages 1));
      do tl <- build_subinfo sprites images rest;
      Some (here ++ tl)
  end.

Definition lookup (subinfo : list (Z * Z * info)) (key : Z * Z)
  : option info :=
  match find (fun e => (fst (fst e) =? fst key) && (snd (fst e) =? snd key))
             subinfo with
  | Some e => Some (snd e)
  | None => None
  end.

Record job := mkJob
  { image_index : Z; subimage : Z; file_bank : Z;
    png_size : Z * Z; tiles : Z -> Z -> Z }.

(** [for s, (w,h,bpp) in zip(sprs, dims)]: pack and write every sprite;
    [tile k] is the index list of the sprite's [w*h] pixels, row by row. *)
Fixpoint write_tiles (data : bytes) (bin_chars_base : Z)
         (sprs : list SpriteDef) (ds : list (Z * Z * Z))
         (tile : Z -> Z) (rest_tiles : Z -> Z -> Z) {struct sprs}
  : option bytes :=
  match sprs, ds with
  | s :: sprs', (w, h, bpp) :: ds' =>
      let idxs := map tile (Py.range 0 (w * h) 1) in
      do packed <- Pixels.pack_bits_msb idxs w h bpp;
      let nbytes := (w * h * bpp + 7) / 8 in
      let char_off := bin_chars_base + charnum s * nbytes in
      write_tiles (Py.slice_assign data char_off (char_off + nbytes) packed)
                  bin_chars_base sprs' ds'
                  (rest_tiles 0) (fun n => rest_tiles (n + 1))
  | _, _ => Some data
  end.

(** The body of [for path in pngs] for a file whose name parses. *)
Definition process_png (data : bytes) (images : list ImageDef)
           (sprites : list SpriteDef) (subinfo : list (Z * Z * info))
           (bin_chars_base : Z) (dry_run : bool) (j : job) : option bytes :=
  if negb ((0 <=? image_index j) && (image_index j <? Py.len images))
  then Some data
  else
    match lookup subinfo (image_index j, subimage j) with
    | None => Some data
    | Some i =>
        let sprs := Py.slice sprites (spr0 i) (spr0 i + spp i) in
        if negb ((fst (png_size j) =? W i) && (snd (png_size j) =? H i))
        then Some data
        else if dry_run then Some data
        else write_tiles data bin_chars_base sprs (dims i)
               (tiles j 0) (fun n => tiles j (n + 1))
    end.

Fixpoint process_pngs (data : bytes) (images : list ImageDef)
         (sprites : list SpriteDef) (subinfo : list (Z * Z * info))
         (bin_chars_base : Z) (dry_run : bool) (jobs : list job)
  : option bytes :=
  match jobs with
  | [] => Some data
  | j :: rest =>
      do data' <- process_png data images sprites subinfo bin_chars_base
                    dry_run j;
      process_pngs data' images sprites subinfo bin_chars_base dry_run rest
  end.

(** [main] without [--package-offset], for at least one PNG: the buffer
    written to [args.out].  The outer [None] is an exception, the inner
    one a dry run. *)
Definition main (data : bytes) (jobs : list job) (dry_run : bool)
  : option (option bytes) :=
  do r <- ReplaceSprites.robust_scan data;
  let '(pkg_off, block, offs) := r in
  do p <- ReplaceSprites.parse_package block offs;
  let '(images, sprites, palette_words, chars_offset) := p in
  let bin_chars_base := pkg_off + chars_of offs in
  do subinfo <- build_subinfo sprites images (Py.enumerate images);
  do data' <- process_pngs data images sprites subinfo bin_chars_base
                dry_run jobs;
  Some (if dry_run then None else Some data').

End ReplaceSpritesMain.

(** ** Colour words and attribute words

    [argb1555_normal] and [argb1555_inverted] of [export_sprites.py] and
    [replace_sprites.py], [argb_to_1555] of [update_palette.py], and the
    attribute word that [update_one] writes back with [--set-sprite-bank]. *)

Module Colors.

(** [(r, g, b, a)] *)
Definition argb1555_normal (w : Z) : Z * Z * Z * Z :=
  let a := if negb (Z.land w 0x8000 =? 0) then 255 else 0 in
  let r := Z.land (Z.shiftr w 10) 0x1F * 255 / 31 in
  let g := Z.land (Z.shiftr w 5) 0x1F * 255 / 31 in
  let b := Z.land w 0x1F * 255 / 31 in
  (r, g, b, a).

Definition argb1555_inverted (w : Z) : Z * Z * Z * Z :=
  let a := if negb (Z.land w 0x8000 =? 0) then 0 else 255 in
  let r := Z.land (Z.shiftr w 10) 0x1F * 255 / 31 in
  let g := Z.land (Z.shiftr w 5) 0x1F * 255 / 31 in
  let b := Z.land w 0x1F * 255 / 31 in
  (r, g, b, a).

Definition argb_to_1555 (r g b a : Z) (inverted : bool) : Z :=
  let r5 := Z.max 0 (Z.min 31 ((r * 31 + 127) / 255)) in
  let g5 := Z.max 0 (Z.min 31 ((g * 31 + 127) / 255)) in
  let b5 := Z.max 0 (Z.min 31 ((b * 31 + 127) / 255)) in
  let a_bit := if inverted && (a >=? 128) then 0
               else if inverted then 1
               else if a >=? 128 then 1 else 0 in
  Z.lor (Z.lor (Z.lor (Z.shiftl a_bit 15) (Z.shiftl r5 10)) (Z.shiftl g5 5))
        b5.

(** [(attr & ~(0xF<<8)) | ((bank & 0xF) << 8)] *)
Definition set_sprite_bank (attr bank : Z) : Z :=
  Z.lor (Z.land attr (Z.lnot (Z.shiftl 0xF 8)))
        (Z.shiftl (Z.land bank 0xF) 8).

End Colors.

(** ** [import_d3_data.py]: the partner table of [main]

    A row is a CSV row with its integer columns parsed; a column that is
    missing or empty is [None]. *)

Module ImportD3Table.

Definition BASE_PARTNER : Z := 0x0A21CC.
Definition RECORD_SIZE : Z := 8.
Definition NUM_RECORDS : Z := 155.
Definition MAX_POWER : Z := 225.

Record row := mkRow
  { string_index : Z; Stage : option Z; Unknown1 : option Z;
    Power : option Z; Unknown2 : option Z }.

(** [int(r[k]) if r.get(k) else 0] *)
Definition field (x : option Z) : Z :=
  match x with
  | Some v => v
  | None => 0
  end.

(** [Row 0 -> V-MON: 4 fields]; [int(r0[k])] raises on a missing or empty
    column. *)
Definition first_words (r0 : row) : option (list Z) :=
  do stage <- Stage r0;
  do u1 <- Unknown1 r0;
  do power <- Power r0;
  do u2 <- Unknown2 r0;
  Some [stage; u1; power; u2].

(** The body of [for r in rows[1:]]. *)
Definition row_words (r : row) : list Z :=
  let stage := field (Stage r) in
  let u1 := field (Unknown1 r) in
  let power := field (Power r) in
  let u2 := field (Unknown2 r) in
  if power >? MAX_POWER
  then [string_index r; stage; u1; 0; u2]
  else [string_index r; stage; u1; power; u2].

(** [Rebuild word stream]; an empty CSV exits. *)
Definition rebuild_words (rows : list row) : option (list Z) :=
  match rows with
  | [] => None
  | r0 :: rest =>
      do w0 <- first_words r0;
      Some (w0 ++ flat_map row_words rest)
  end.

(** [Normalize to exactly NUM_RECORDS*4 words] *)
Definition normalize (words : list Z) : list Z :=
  let expected_words := NUM_RECORDS * 4 in
  if Py.len words <? expected_words
  then words ++ repeat 0 (Z.to_nat (expected_words - Py.len words))
  else if Py.len words >? expected_words
  then Py.slice words 0 expected_words
  else words.

(** [for i, w in enumerate(words)] *)
Fixpoint write_words (data : bytes) (iws : list (Z * Z)) : option bytes :=
  match iws with
  | [] => Some data
  | (i, w) :: rest =>
      let rec := i / 4 in
      let pos := i mod 4 in
      let off := BASE_PARTNER + rec * RECORD_SIZE + pos * 2 in
      do data' <- pack_into16 data off w;
      write_words data' rest
  end.

(** The partner table part of [main]: the buffer after the write-back. *)
Definition write_table (data : bytes) (rows : list row) : option bytes :=
  do words <- rebuild_words rows;
  write_words data (Py.enumerate (normalize words)).

End ImportD3Table.

(** ** [export_d3_data.py]: the words of the partner table *)

Module ExportD3Table.

Definition BASE_PARTNER : Z := 0x0A21CC.
Definition RECORD_SIZE : Z := 8.
Definition NUM_RECORDS : Z := 155.

(** [for j in range(0, RECORD_SIZE, 2): words.append(le16(bin_bytes, off + j))] *)
Definition record_words (bin_bytes : bytes) (i : Z) : option (list Z) :=
  let off := BASE_PARTNER + i * RECORD_SIZE in
  mapM (fun j => le16 bin_bytes (off + j)) (Py.range 0 RECORD_SIZE 2).

(** [extract_partner_words] *)
Definition extract_partner_words (bin_bytes : bytes) : option (list Z) :=
  do recs <- mapM (record_words bin_bytes) (Py.range 0 NUM_RECORDS 1);
  Some (List.concat recs).

End ExportD3Table.

(** ** Concrete inputs *)

Module Inputs.
Open Scope string_scope.
Open Scope Z_scope.

(** The four bytes of a little-endian 32-bit word. *)
Definition u32 (z : Z) : list Z :=
  [z mod 256; (z / 256) mod 256; (z / 65536) mod 256; (z / 16777216) mod 256].

(** End-to-end scenario 1 of the specification: an archive header with
    one entry [{flags=0, offset=20, comp_len=4, decomp_len=4}], then at
    offset 20 a text archive [count=1, offsets=[0]] and two zero bytes. *)
Definition scenario1 : bytes :=
  bytes_of ([0x32; 0x32; 1; 0]
            ++ u32 0 ++ u32 20 ++ u32 4 ++ u32 4
            ++ [1; 0; 0; 0; 0; 0]).

Definition scenario1_entry : Arc.ArchEntry := Arc.mkEntry 0 20 4 4.
Definition scenario1_archive : Arc.Archive :=
  Arc.mkArchive 0 1 [scenario1_entry].
Definition scenario1_view : bytes := bytes_of [1; 0; 0; 0].
Definition scenario1_ta : Txt.TextArchive :=
  Txt.mkTA 20 "off=0x0/idx=0" 1 [0] scenario1_view.

(** A text-archive view with one string, the words [0x0001 0x0041] from
    byte 2 to the end, and no zero word after its start. *)
Definition unterminated_view : bytes := bytes_of [1; 0; 1; 0; 0x41; 0].

(** Two sprite-package headers in one buffer of 6170 bytes: at offset 0
    with [chars = 6152], and at offset 16 with [chars = 6154]; the tables
    are zero.  Both have 1000 images, one sprite and at least 64 colours. *)
Definition two_packages : bytes :=
  (bytes_of (u32 16 ++ u32 6016 ++ u32 6024 ++ u32 6152
             ++ u32 16 ++ u32 6016 ++ u32 6024 ++ u32 6154)
   ++ repeat x00 6138)%list.

Definition package_a : Sprites.offsets := (16, 6016, 6024, 6152).
Definition package_b : Sprites.offsets := (16, 6016, 6024, 6154).

(** An archive at offset 0 whose single entry has [flags = 1] and points
    to the odd offset 21, where a second archive header stands; its own
    entry points to the end of the buffer. *)
Definition flagged_nested : bytes :=
  bytes_of ([0x32; 0x32; 1; 0]
            ++ u32 1 ++ u32 21 ++ u32 20 ++ u32 20
            ++ [0]
            ++ [0x32; 0x32; 1; 0]
            ++ u32 0 ++ u32 20 ++ u32 0 ++ u32 0).

Definition flagged_entry : Arc.ArchEntry := Arc.mkEntry 1 21 20 20.
Definition flagged_top : Arc.Archive := Arc.mkArchive 0 1 [flagged_entry].
Definition flagged_sub : Arc.Archive :=
  Arc.mkArchive 21 1 [Arc.mkEntry 0 20 0 0].

(** A sprite package of 1000 images, one 8x8 2-bpp sprite and four
    colours, followed by only 8 of the 16 bytes of character 0. *)
Definition short_rom : bytes :=
  (bytes_of (u32 16 ++ u32 6016 ++ u32 6024 ++ u32 6032 ++ [0; 0; 1; 1; 0; 0])
   ++ repeat x00 6018)%list.

(** [0_0_0.png], 8x8 pixels, every pixel nearest to palette index 0. *)
Definition short_rom_job : ReplaceSpritesMain.job :=
  ReplaceSpritesMain.mkJob 0 0 0 (8, 8) (fun _ _ => 0).

(** A D-3 name archive of one string: the code [0x0041], a control code
    [0xF001] and the terminator, six bytes from word offset 2. *)
Definition padded_view : bytes :=
  bytes_of [1; 0; 2; 0; 0x41; 0; 0x01; 0xF0; 0; 0].
Definition padded_ta : Txt.TextArchive :=
  Txt.mkTA 0x1EC010 "off=0x1EC000/idx=0" 1 [2] padded_view.
Definition letters_fwd : list (string * string) :=
  [("<0041>", "A"); ("<0042>", "B")].
Definition letters_inv : list (string * string) :=
  [("A", "<0041>"); ("B", "<0042>")].

(** A Digivice name archive of two strings of four bytes each. *)
Definition pair_view : bytes :=
  bytes_of [2; 0; 3; 0; 5; 0; 0x41; 0; 0; 0; 0x42; 0; 0; 0].

(** The archive of [padded_view] placed at offset 4 of a 16-byte buffer. *)
Definition local_rom : bytes :=
  ([x00; x00; x00; x00] ++ padded_view ++ [x00; x00])%list.
Definition local_ta : Txt.TextArchive :=
  Txt.mkTA 4 "off=0x1EC000/idx=0" 1 [2] padded_view.

(** The archive of [pair_view] placed at offset 2 of a 16-byte buffer. *)
Definition pair_rom : bytes := ([x00; x00] ++ pair_view)%list.
Definition local_pair_ta : Txt.TextArchive :=
  Txt.mkTA 2 "off=0x194000/idx=0" 2 [3; 5] pair_view.

End Inputs.

(** ** The traversal, level by level

    The definitions against which the queue loop of [iter_all_archives] is
    characterised. *)

Module ArcSpec.
Open Scope string_scope.
Open Scope Z_scope.

(** The bytes at [off] form a valid archive header, parsed as [arc]. *)
Definition valid_at (buf : bytes) (off : Z) (arc : Arc.Archive) : Prop :=
  Arc.is_probable_tama_archive buf off = Some (Some arc).

(** The pairs the traversal is to yield, with their depth: the valid
    headers at the scanned offsets, and below an archive of depth less
    than [max_depth] every entry whose target is a valid header.  The
    flags of the entry do not occur. *)
Inductive reached (buf : bytes) (max_depth : Z)
  : string -> Arc.Archive -> Z -> Prop :=
| reached_top off arc :
    In off (Py.range 0 (Py.len buf - 4) 2) ->
    valid_at buf off arc ->
    reached buf max_depth ("off=0x" ++ Fmt.hexX off) arc 0
| reached_sub p arc depth idx e sub :
    reached buf max_depth p arc depth ->
    depth < max_depth ->
    In (idx, e) (Py.enumerate (Arc.entries arc)) ->
    valid_at buf (Arc.base_off arc + Arc.offset e) sub ->
    reached buf max_depth (p ++ "/idx=" ++ Fmt.dec idx) sub (depth + 1).

(** The items one popped item appends to the queue. *)
Definition kids (buf : bytes) (max_depth : Z) (it : Arc.item)
  : list Arc.item :=
  let '(p, arc, depth) := it in
  if depth >=? max_depth then []
  else match Arc.sub_archives buf p (Arc.base_off arc) depth
               (Py.enumerate (Arc.entries arc)) with
       | Some l => l
       | None => []
       end.

Definition next_level (buf : bytes) (max_depth : Z) (l : list Arc.item)
  : list Arc.item :=
  flat_map (kids buf max_depth) l.

(** The first [n] levels below [l], in breadth-first order. *)
Fixpoint levels (buf : bytes) (max_depth : Z) (n : nat) (l : list Arc.item)
  : list Arc.item :=
  match n with
  | O => []
  | S k => (l ++ levels buf max_depth k (next_level buf max_depth l))%list
  end.

Definition yielded (l : list Arc.item) : list (string * Arc.Archive) :=
  map (fun it => (fst (fst it), snd (fst it))) l.

(** What [bfs] returns when [out] precedes the result of the rest. *)
Definition prefixed (out : list (string * Arc.Archive))
           (r : option (option (list (string * Arc.Archive))))
  : option (option (list (string * Arc.Archive))) :=
  match r with
  | Some (Some o) => Some (Some (out ++ o)%list)
  | other => other
  end.

(** The top-level items of a buffer. *)
Definition tops (buf : bytes) : list Arc.item :=
  match Arc.scan_tops buf (Py.range 0 (Py.len buf - 4) 2) with
  | Some t => map (fun pa => (fst pa, snd pa, 0)) t
  | None => []
  end.

(** Offsets are non-negative and every entry stays inside the buffer. *)
Definition wf_arc (buf : bytes) (a : Arc.Archive) : Prop :=
  0 <= Arc.base_off a
  /\ Forall (fun e => 0 <= Arc.offset e
                      /\ Arc.base_off a + Arc.offset e <= Py.len buf)
            (Arc.entries a).

Definition wf_item (buf : bytes) (it : Arc.item) : Prop :=
  wf_arc buf (snd (fst it)).

(** The specification's reading of the traversal: whenever the result
    under an entry of a yielded archive is itself yielded, the flags of
    that entry have their low four bits clear. *)
Definition recursion_needs_clear_flags (buf : bytes) : Prop :=
  forall fuel out p arc idx e sub,
    Arc.iter_all_archives fuel buf 3 = Some (Some out) ->
    In (p, arc) out ->
    In (idx, e) (Py.enumerate (Arc.entries arc)) ->
    In (p ++ "/idx=" ++ Fmt.dec idx, sub) out ->
    Z.land (Arc.flags e) 0xF = 0.

End ArcSpec.

(** ** The best-candidate scan, over any candidate test *)

Module ScanSpec.

Definition score (c : ReplaceSprites.best_t) : Z := fst (fst (fst c)).

(** The loop shared by the two [robust_scan]s. *)
Fixpoint gscan (cand : Z -> option (option ReplaceSprites.best_t))
         (offs : list Z) (best : option ReplaceSprites.best_t)
  : option (option ReplaceSprites.best_t) :=
  match offs with
  | [] => Some best
  | off :: rest =>
      do c <- cand off;
      gscan cand rest (match c with
                       | Some c' => ReplaceSprites.better best c'
                       | None => best
                       end)
  end.

Definition num_images (o : Sprites.offsets) : Z :=
  let '(img_defs, spr_defs, _, _) := o in (spr_defs - img_defs) / 6.
Definition num_sprites (o : Sprites.offsets) : Z :=
  let '(_, spr_defs, palettes, _) := o in (palettes - spr_defs) / 8.
Definition num_colors (o : Sprites.offsets) : Z :=
  let '(_, _, palettes, chars) := o in (chars - palettes) / 2.
Definition img_defs_of (o : Sprites.offsets) : Z := fst (fst (fst o)).

(** The structural checks of a package header at [off], for a scanner that
    wants between [lo] and [hi] images and at least [min_colors] colours:
    the four words increase strictly and stay inside the buffer, the three
    tables have whole records, the counts are plausible, and the last
    image starts at an existing sprite. *)
Definition passes (lo hi min_colors : Z) (data : bytes) (off : Z)
           (o : Sprites.offsets) : Prop :=
  Sprites.header data off = Some o
  /\ Sprites.increasing_within o (Py.len data - off) = true
  /\ Sprites.aligned o = true
  /\ lo <= num_images o <= hi
  /\ min_colors <= num_colors o
  /\ exists s, le16 data (off + img_defs_of o + (num_images o - 1) * 6) = Some s
               /\ s < num_sprites o.

(** What [ExportSprites.candidate] and [scan_for_package] report of a
    package: its offset and its [chars] word. *)
Definition summary (r : option (Z * ExportSprites.parsed)) : option (Z * Z) :=
  match r with
  | Some (off, (o, _, _, _)) => Some (off, Sprites.chars_of o)
  | None => None
  end.

(** The same for [robust_scan]. *)
Definition summary3 (r : option (Z * bytes * Sprites.offsets))
  : option (Z * Z) :=
  match r with
  | Some (off, _, o) => Some (off, Sprites.chars_of o)
  | None => None
  end.

End ScanSpec.

(** ** Digit strings as numbers *)

Module Bits.

(** The number whose digits in base [B], most significant first, are those
    of [l], after the digits already gathered in [v]. *)
Definition value_from (B v : Z) (l : list Z) : Z :=
  fold_left (fun a x => a * B + x) l v.

Definition value (B : Z) (l : list Z) : Z := value_from B 0 l.

(** The number a byte string spells, most significant byte first. *)
Definition bytes_value (b : bytes) : Z := value 256 (map byte_val b).

(** Every digit is below the base. *)
Definition digits (B : Z) (l : list Z) : Prop :=
  Forall (fun x => 0 <= x < B) l.

(** The state [(vals, acc, accbits)] of the unpacker has read the number
    [P] in [j] bits: the values emitted so far, then [accbits] bits still
    in the accumulator; it stops emitting only for want of bits or once
    [n] values are out. *)
Definition unpack_inv (bpp n : Z) (st : list Z * Z * Z) (P j : Z) : Prop :=
  let '(vals, acc, accbits) := st in
  0 <= accbits /\ 0 <= acc < 2 ^ accbits
  /\ value (2 ^ bpp) vals * 2 ^ accbits + acc = P
  /\ bpp * Py.len vals + accbits = j
  /\ digits (2 ^ bpp) vals /\ Py.len vals <= n
  /\ (accbits < bpp \/ Py.len vals = n).

End Bits.

(** ** The ADPCM round trip *)

Module AdpcmSpec.

(** Every sample is a 16-bit PCM value. *)
Definition pcm16 (pcm : list Z) : Prop :=
  Forall (fun s => -32768 <= s <= 32767) pcm.

(** Encoding [pcm] and decoding the bytes gives, for every input sample,
    a decoded sample at most [bound] away. *)
Definition roundtrip_within (bound : Z) (pcm : list Z) : Prop :=
  exists enc dec,
    Adpcm.gp_adpcm_encode pcm 0 0 = Some enc
    /\ Adpcm.gp_adpcm_decode enc = Some dec
    /\ forall i s, nth_error pcm i = Some s ->
                   exists d, nth_error dec i = Some d /\ Z.abs (d - s) <= bound.

(** No slope overload: each quantised target is within 30 of the one
    before it, the first being [prev]. *)
Fixpoint slow (prev : Z) (qs : list Z) : Prop :=
  match qs with
  | [] => True
  | q :: rest => Z.abs (q - prev) <= 30 /\ slow q rest
  end.

(** The nibbles the decoder sees for the nibbles the encoder packed: a
    zero is added to an odd number of them. *)
Fixpoint padded (nibs : list Z) : list Z :=
  match nibs with
  | [] => []
  | [lo] => [lo; 0]
  | lo :: hi :: rest => lo :: hi :: padded rest
  end.

End AdpcmSpec.

(** ** Name slots *)

Module NameSpec.

(** The bytes string [si] occupies in its archive: from its offset to the
    next string's offset, or to the end of the view for the last string
    ([old_bytes] of the Digivice importers). *)
Definition slot_bytes (ta : Txt.TextArchive) (si : Z) : option bytes :=
  do w <- Py.index (Txt.offsets_word ta) si;
  do e <- (if si + 1 <? Txt.n_strings ta
           then do w' <- Py.index (Txt.offsets_word ta) (si + 1);
                Some (w' * 2)
           else Some (Py.len (Txt.data ta)));
  Some (Py.slice (Txt.data ta) (w * 2) e).

End NameSpec.

(** ** Audio slots *)

Module AudioSpec.

(** A slot lies inside the file, after the 64-byte header of its block. *)
Definition slot_ok (filesize : Z) (b : ImportDeviceSounds.block) : Prop :=
  0 <= ImportDeviceSounds.start b
  /\ ImportDeviceSounds.adpcm_start b
     = ImportDeviceSounds.start b + ImportDeviceSounds.SPF2_HEADER_SIZE
  /\ ImportDeviceSounds.adpcm_end b = ImportDeviceSounds.end_ b
  /\ ImportDeviceSounds.slot_bytes b
     = ImportDeviceSounds.adpcm_end b - ImportDeviceSounds.adpcm_start b
  /\ 0 < ImportDeviceSounds.slot_bytes b
  /\ ImportDeviceSounds.adpcm_end b <= filesize
  /\ 1 <= ImportDeviceSounds.sample_rate b <= ImportDeviceSounds.MAX_SAMPLE_RATE.

End AudioSpec.

(** * Properties *)

(** ** Lengths and slices *)

Lemma len_nonneg {A} (l : list A) : 0 <= Py.len l.
Proof. unfold Py.len; lia. Qed.

Lemma len_app {A} (l1 l2 : list A) :
  Py.len (l1 ++ l2) = Py.len l1 + Py.len l2.
Proof. unfold Py.len; rewrite length_app; lia. Qed.

Lemma len_cons {A} (x : A) (l : list A) : Py.len (x :: l) = 1 + Py.len l.
Proof. unfold Py.len; cbn [List.length]; lia. Qed.

Lemma len_nil {A} : Py.len (@nil A) = 0.
Proof. reflexivity. Qed.

Lemma len_firstn {A} (l : list A) (n : Z) :
  0 <= n <= Py.len l -> Py.len (firstn (Z.to_nat n) l) = n.
Proof. unfold Py.len; intros; rewrite length_firstn; lia. Qed.

Lemma len_skipn {A} (l : list A) (n : Z) :
  0 <= n <= Py.len l -> Py.len (skipn (Z.to_nat n) l) = Py.len l - n.
Proof. unfold Py.len; intros; rewrite length_skipn; lia. Qed.

Lemma len_repeat {A} (x : A) (n : Z) :
  Py.len (repeat x (Z.to_nat n)) = Z.max 0 n.
Proof. unfold Py.len; rewrite repeat_length; lia. Qed.

Lemma len_map {A B} (f : A -> B) (l : list A) : Py.len (map f l) = Py.len l.
Proof. unfold Py.len; now rewrite length_map. Qed.

Lemma clamp_index_range (n i : Z) :
  0 <= n -> 0 <= Py.clamp_index n i <= n.
Proof. unfold Py.clamp_index; intros; destruct (i <? 0) eqn:E; lia. Qed.

Lemma clamp_index_id (n i : Z) : 0 <= i <= n -> Py.clamp_index n i = i.
Proof.
  unfold Py.clamp_index; intros; destruct (i <? 0) eqn:E; lia.
Qed.

(** The length of a slice of non-negative bounds. *)
Lemma len_slice {A} (l : list A) (a b : Z) :
  0 <= a -> 0 <= b ->
  Py.len (Py.slice l a b) = Z.max 0 (Z.min b (Py.len l) - Z.min a (Py.len l)).
Proof.
  intros Ha Hb. unfold Py.slice, Py.clamp_index.
  pose proof (len_nonneg l) as Hl.
  destruct (a <? 0) eqn:Ea; [lia|]. destruct (b <? 0) eqn:Eb; [lia|].
  unfold Py.len in *. rewrite length_firstn, length_skipn. lia.
Qed.

Lemma len_slice_le {A} (l : list A) (a b : Z) :
  Py.len (Py.slice l a b) <= Py.len l.
Proof.
  unfold Py.slice, Py.len. rewrite length_firstn, length_skipn. lia.
Qed.

(** A slice assignment changes the length by the difference between the
    new bytes and the slice they replace. *)
Lemma len_slice_assign {A} (l v : list A) (a b : Z) :
  Py.len (Py.slice_assign l a b v)
  = Py.len l + Py.len v
    - (Z.max (Py.clamp_index (Py.len l) a) (Py.clamp_index (Py.len l) b)
       - Py.clamp_index (Py.len l) a).
Proof.
  unfold Py.slice_assign.
  pose proof (clamp_index_range (Py.len l) a (len_nonneg l)).
  pose proof (clamp_index_range (Py.len l) b (len_nonneg l)).
  rewrite !len_app, len_firstn, len_skipn by lia. lia.
Qed.

(** A write of [v] over [l[a : a + len v]] inside the buffer keeps its
    length. *)
Lemma len_slice_assign_inside {A} (l v : list A) (a : Z) :
  0 <= a -> a + Py.len v <= Py.len l ->
  Py.len (Py.slice_assign l a (a + Py.len v) v) = Py.len l.
Proof.
  intros Ha Hb. rewrite len_slice_assign.
  pose proof (len_nonneg v).
  rewrite !clamp_index_id by lia. lia.
Qed.

(** Linear arithmetic over lengths taken as unknowns. *)
Ltac hide_len :=
  repeat match goal with
  | |- context [@Py.len ?A ?x] =>
      let n := fresh "n" in let E := fresh "Elen" in
      let Hn := fresh "Hlen" in
      pose proof (@len_nonneg A x) as Hn;
      remember (@Py.len A x) as n eqn:E; clear E
  | H : context [@Py.len ?A ?x] |- _ =>
      let n := fresh "n" in let E := fresh "Elen" in
      let Hn := fresh "Hlen" in
      pose proof (@len_nonneg A x) as Hn;
      remember (@Py.len A x) as n eqn:E; clear E
  end.

Ltac llia := hide_len; lia.

(** ** Bytes and words *)

Lemma byte_val_range (b : byte) : 0 <= byte_val b < 256.
Proof.
  unfold byte_val. pose proof (Byte.to_N_bounded b). lia.
Qed.

Lemma byte_val_of (z : Z) : 0 <= z < 256 -> byte_val (byte_of z) = z.
Proof.
  intros Hz. unfold byte_val, byte_of.
  rewrite Z.mod_small by lia.
  destruct (Byte.of_N (Z.to_N z)) as [b|] eqn:E.
  - apply Byte.to_of_N in E. rewrite E, Z2N.id; lia.
  - apply Byte.of_N_None_iff in E. apply N2Z.inj_lt in E.
    rewrite Z2N.id in E by lia. simpl in E. lia.
Qed.

Lemma byte_at_range (b : bytes) (i : Z) : 0 <= byte_at b i < 256.
Proof. apply byte_val_range. Qed.

(** [Some x = Some y] without normalising the terms. *)
Lemma Some_inj {A} (x y : A) : Some x = Some y -> x = y.
Proof. congruence. Qed.

Lemma le16_range (b : bytes) (o w : Z) : le16 b o = Some w -> 0 <= w < 65536.
Proof.
  unfold le16. destruct (struct_offset _ _ _); [|discriminate].
  intros E; apply Some_inj in E; subst w.
  pose proof (byte_at_range b z). pose proof (byte_at_range b (z + 1)). lia.
Qed.

Lemma le32_range (b : bytes) (o w : Z) :
  le32 b o = Some w -> 0 <= w < 4294967296.
Proof.
  unfold le32. destruct (struct_offset _ _ _); [|discriminate].
  intros E; apply Some_inj in E; subst w.
  pose proof (byte_at_range b z). pose proof (byte_at_range b (z + 1)).
  pose proof (byte_at_range b (z + 2)). pose proof (byte_at_range b (z + 3)).
  lia.
Qed.

(** A read inside the buffer does not raise. *)
Lemma le16_in_bounds (b : bytes) (o : Z) :
  0 <= o -> o + 2 <= Py.len b -> exists w, le16 b o = Some w.
Proof.
  intros H1 H2. unfold le16, struct_offset.
  destruct (o <? 0) eqn:E; [lia|].
  destruct ((0 <=? o) && (o + 2 <=? Py.len b)) eqn:E2; [eauto|].
  apply andb_false_iff in E2 as [E2|E2]; lia.
Qed.

Lemma le32_in_bounds (b : bytes) (o : Z) :
  0 <= o -> o + 4 <= Py.len b -> exists w, le32 b o = Some w.
Proof.
  intros H1 H2. unfold le32, struct_offset.
  destruct (o <? 0) eqn:E; [lia|].
  destruct ((0 <=? o) && (o + 4 <=? Py.len b)) eqn:E2; [eauto|].
  apply andb_false_iff in E2 as [E2|E2]; lia.
Qed.

(** ** Text archives: what the validators establish *)

Lemma mapM_length {A B} (f : A -> option B) (l : list A) (r : list B) :
  mapM f l = Some r -> List.length r = List.length l.
Proof.
  revert r; induction l as [|x t IH]; simpl; intros r H.
  - now inversion H.
  - destruct (f x); [|discriminate]. destruct (mapM f t); [|discriminate].
    inversion H; subst; simpl; f_equal; now apply IH.
Qed.

Lemma mapM_Forall {A B} (f : A -> option B) (P : B -> Prop) (l : list A)
      (r : list B) :
  (forall x y, f x = Some y -> P y) -> mapM f l = Some r -> Forall P r.
Proof.
  intros Hf; revert r; induction l as [|x t IH]; simpl; intros r H.
  - inversion H; constructor.
  - destruct (f x) eqn:E; [|discriminate].
    destruct (mapM f t); [|discriminate].
    inversion H; subst; constructor; eauto.
Qed.

Lemma length_range_from (n : nat) (a step : Z) :
  List.length (Py.range_from n a step) = n.
Proof. revert a; induction n; simpl; intros; [reflexivity | now rewrite IHn]. Qed.

Lemma length_range (n : Z) : List.length (Py.range 0 n 1) = Z.to_nat n.
Proof.
  unfold Py.range. rewrite length_range_from.
  f_equal. rewrite Z.div_1_r. lia.
Qed.

Lemma In_range_from (n : nat) (a step x : Z) :
  In x (Py.range_from n a step) <->
  exists k, 0 <= k < Z.of_nat n /\ x = a + k * step.
Proof.
  revert a; induction n as [|n IH]; intros a; simpl.
  - split; [tauto | intros (k & Hk & _); lia].
  - rewrite IH. split.
    + intros [<- | (k & Hk & ->)].
      * exists 0; split; lia.
      * exists (k + 1); split; lia.
    + intros (k & Hk & ->). destruct (Z.eq_dec k 0) as [->|Hne].
      * left; lia.
      * right; exists (k - 1); split; lia.
Qed.

Lemma offsets_ok_sound (viewlen prev : Z) (offs : list Z) :
  Txt.offsets_ok viewlen prev offs = true ->
  Forall (fun w => prev <= w /\ w * 2 < viewlen) offs
  /\ StronglySorted Z.le offs.
Proof.
  revert prev; induction offs as [|w rest IH]; simpl; intros prev H.
  - split; constructor.
  - destruct ((w <? prev) || (w * 2 >=? viewlen)) eqn:E; [discriminate|].
    apply orb_false_iff in E as [E1 E2].
    destruct (IH w H) as [HF HS].
    split.
    + constructor; [lia|].
      eapply Forall_impl; [|exact HF]. simpl; intros; lia.
    + constructor; [exact HS|].
      eapply Forall_impl; [|exact HF]. simpl; intros; lia.
Qed.

(** What every accepted view satisfies under the validator of
    [export_d3_npc_names.py] and of the importers: the count is in range,
    there is one offset per string, the offsets are non-decreasing and each
    points inside the view.  Nothing is required of the strings. *)
Lemma text_archive_header (view : bytes) (ta : Txt.TextArchive) :
  Txt.is_probable_text_archive view = Some (Some ta) ->
  Txt.data ta = view
  /\ 1 <= Txt.n_strings ta <= 20000
  /\ 2 + 2 * Txt.n_strings ta <= Py.len view
  /\ Py.len (Txt.offsets_word ta) = Txt.n_strings ta
  /\ Forall (fun w => 0 <= w /\ w * 2 < Py.len view) (Txt.offsets_word ta)
  /\ StronglySorted Z.le (Txt.offsets_word ta).
Proof.
  unfold Txt.is_probable_text_archive.
  destruct (Py.len view <? 4) eqn:E4; [discriminate|].
  destruct (le16 view 0) as [n|] eqn:En; [|discriminate].
  destruct (negb ((1 <=? n) && (n <=? 20000))) eqn:Er; [discriminate|].
  destruct (2 + 2 * n >? Py.len view) eqn:Et; [discriminate|].
  destruct (mapM _ _) as [offs|] eqn:Em; [|discriminate].
  destruct (Txt.offsets_ok _ _ _) eqn:Eo; [|discriminate].
  intros H; do 2 apply Some_inj in H; subst ta.
  cbn [Txt.data Txt.n_strings Txt.offsets_word].
  apply negb_false_iff, andb_true_iff in Er as [Er1 Er2].
  apply offsets_ok_sound in Eo as [HF HS].
  pose proof (mapM_length _ _ _ Em) as Hlen. rewrite length_range in Hlen.
  unfold Py.len in *.
  repeat split; try lia; try assumption.
Qed.

(** The validator never raises. *)
Lemma mapM_total {A B} (f : A -> option B) (l : list A) :
  (forall x, In x l -> exists y, f x = Some y) -> exists r, mapM f l = Some r.
Proof.
  induction l as [|x t IH]; simpl; intros H; [eauto|].
  destruct (H x (or_introl eq_refl)) as [y ->].
  destruct IH as [r ->]; eauto.
Qed.

Lemma In_range (n x : Z) : In x (Py.range 0 n 1) <-> 0 <= x < n.
Proof.
  unfold Py.range. rewrite In_range_from, Z.div_1_r.
  split.
  - intros (k & Hk & ->). lia.
  - intros Hx. exists x. lia.
Qed.

Lemma text_archive_no_raise (view : bytes) :
  exists r, Txt.is_probable_text_archive view = Some r.
Proof.
  unfold Txt.is_probable_text_archive.
  destruct (Py.len view <? 4) eqn:E4; [eauto|].
  destruct (le16_in_bounds view 0) as [n ->]; [lia | lia |].
  destruct (negb _); [eauto|].
  destruct (2 + 2 * n >? Py.len view) eqn:Et; [eauto|].
  destruct (mapM_total (fun i => le16 view (2 + 2 * i)) (Py.range 0 n 1))
    as [offs ->].
  - intros x Hx. apply In_range in Hx. apply le16_in_bounds; lia.
  - destruct (Txt.offsets_ok _ _ _); eauto.
Qed.

(** *** C6: the validator and the terminators *)

(** C6 at the view [01 00 01 00 41 00]: the validator of
    [export_d3_npc_names.py] accepts it although its only string is not
    terminated, as the terminator scan of [export_d3_data.py] finds; the
    validator of [export_d3_data.py] rejects the same view. *)
Theorem unterminated_view_accepted :
  Txt.is_probable_text_archive Inputs.unterminated_view
  = Some (Some (Txt.mkTA 0 "" 1 [1] Inputs.unterminated_view))
  /\ ExportD3Data.find_terminator 2050 Inputs.unterminated_view 1 (1 * 2)
     = Some false
  /\ ExportD3Data.is_probable_text_archive Inputs.unterminated_view
     = Some None.
Proof.
  split; [|split]; vm_compute; reflexivity.
Qed.

(** ** The archive scanner *)

Section ArchiveScan.
Variable buf : bytes.

Local Abbreviation entry_ok abs_off :=
  (fun e => 0 <= Arc.offset e /\ abs_off + Arc.offset e <= Py.len buf).

Lemma read_entries_spec (abs_off : Z) (idxs : list Z) :
  0 <= abs_off ->
  (forall i, In i idxs -> 0 <= i /\ abs_off + 4 + i * 16 + 16 <= Py.len buf) ->
  exists r, Arc.read_entries buf abs_off idxs = Some r
            /\ forall es, r = Some es ->
                          Forall (entry_ok abs_off) es
                          /\ List.length es = List.length idxs.
Proof.
  intros Hoff. induction idxs as [|i rest IH]; intros Hin.
  - exists (Some []). split; [reflexivity|].
    intros es H; apply Some_inj in H; subst es. split; [constructor | reflexivity].
  - destruct (Hin i (or_introl eq_refl)) as [Hi Hb].
    destruct IH as (r & Hr & Hes); [intros; apply Hin; now right|].
    cbn [Arc.read_entries].
    destruct (le32_in_bounds buf (abs_off + 4 + i * 16)) as [fl ->]; [lia|lia|].
    destruct (le32_in_bounds buf (abs_off + 4 + i * 16 + 4)) as [off Eoff];
      [lia|lia|]. rewrite Eoff.
    destruct (le32_in_bounds buf (abs_off + 4 + i * 16 + 8)) as [cl ->];
      [lia|lia|].
    destruct (le32_in_bounds buf (abs_off + 4 + i * 16 + 12)) as [dl ->];
      [lia|lia|].
    apply le32_range in Eoff.
    destruct (abs_off + off >? Py.len buf) eqn:E.
    + exists None. split; [reflexivity | discriminate].
    + rewrite Hr. destruct r as [es|].
      * exists (Some (Arc.mkEntry fl off cl dl :: es)). split; [reflexivity|].
        intros es' H; apply Some_inj in H; subst es'.
        destruct (Hes es eq_refl) as [HF HL].
        split; [constructor; [cbn [Arc.offset]; lia | exact HF]
               | cbn [List.length]; now rewrite HL].
      * exists None. split; [reflexivity | discriminate].
Qed.

(** The header test never raises on a non-negative offset, and what it
    accepts is well formed. *)
Lemma tama_archive_spec (abs_off : Z) :
  0 <= abs_off ->
  exists r, Arc.is_probable_tama_archive buf abs_off = Some r
            /\ forall arc, r = Some arc ->
                 Arc.base_off arc = abs_off
                 /\ ArcSpec.wf_arc buf arc
                 /\ 1 <= Arc.count arc <= 65535
                 /\ Py.len (Arc.entries arc) = Arc.count arc.
Proof.
  intros Hoff. unfold Arc.is_probable_tama_archive.
  destruct (abs_off + 4 >? Py.len buf) eqn:E1.
  { exists None; split; [reflexivity | discriminate]. }
  destruct (le16_in_bounds buf abs_off) as [magic ->]; [lia|lia|].
  destruct (negb (magic =? 12850)).
  { exists None; split; [reflexivity | discriminate]. }
  destruct (le16_in_bounds buf (abs_off + 2)) as [c ->]; [lia|lia|].
  destruct (negb ((1 <=? c) && (c <=? 65535))) eqn:Ec.
  { exists None; split; [reflexivity | discriminate]. }
  apply negb_false_iff, andb_true_iff in Ec as [Ec1 Ec2].
  destruct (abs_off + 4 + c * 16 >? Py.len buf) eqn:E2.
  { exists None; split; [reflexivity | discriminate]. }
  destruct (read_entries_spec abs_off (Py.range 0 c 1) Hoff)
    as (r & -> & Hes).
  { intros i Hi; apply In_range in Hi. lia. }
  destruct r as [es|].
  - exists (Some (Arc.mkArchive abs_off c es)). split; [reflexivity|].
    intros arc H; apply Some_inj in H; subst arc.
    destruct (Hes es eq_refl) as [HF HL].
    cbn [Arc.base_off Arc.count Arc.entries]. unfold ArcSpec.wf_arc.
    cbn [Arc.base_off Arc.entries].
    rewrite length_range in HL. unfold Py.len.
    repeat split; try lia; assumption.
  - exists None; split; [reflexivity | discriminate].
Qed.

Lemma valid_at_wf (off : Z) (arc : Arc.Archive) :
  0 <= off -> ArcSpec.valid_at buf off arc ->
  ArcSpec.wf_arc buf arc /\ Arc.base_off arc = off.
Proof.
  intros Hoff Hv. destruct (tama_archive_spec off Hoff) as (r & Hr & Hs).
  unfold ArcSpec.valid_at in Hv. rewrite Hv in Hr.
  apply Some_inj in Hr. destruct (Hs arc) as (? & ? & _); [congruence|].
  now split.
Qed.

(** *** The top-level scan *)

Lemma scan_tops_spec (offs : list Z) :
  Forall (fun off => 0 <= off) offs ->
  exists t, Arc.scan_tops buf offs = Some t
            /\ (forall p a, In (p, a) t <->
                  exists off, In off offs /\ ArcSpec.valid_at buf off a
                              /\ p = ("off=0x" ++ Fmt.hexX off)%string)
            /\ Forall (fun pa => ArcSpec.wf_arc buf (snd pa)) t.
Proof.
  induction 1 as [|off rest Hoff _ IH].
  - exists []. split; [reflexivity|]. split; [|constructor].
    intros p a; split; [intros [] | intros (o & [] & _)].
  - destruct IH as (t & Ht & Hin & Hwf).
    destruct (tama_archive_spec off Hoff) as (r & Hr & Hs).
    cbn [Arc.scan_tops]. rewrite Hr, Ht.
    destruct r as [arc|].
    + eexists; split; [reflexivity|]. split.
      * intros p a; split.
        -- intros [E | HI].
           ++ inversion E; subst. exists off. repeat split; auto. now left.
           ++ apply Hin in HI as (o & Ho & Hv & ->).
              exists o. repeat split; auto. now right.
        -- intros (o & [<- | Ho] & Hv & ->).
           ++ left. unfold ArcSpec.valid_at in Hv. rewrite Hv in Hr.
              now inversion Hr.
           ++ right. apply Hin. eauto.
      * constructor; [|exact Hwf]. cbn [snd].
        now destruct (Hs arc eq_refl) as (_ & ? & _).
    + exists t; split; [reflexivity|]. split; [|exact Hwf].
      intros p a; rewrite Hin. split.
      * intros (o & Ho & Hv & ->). exists o; repeat split; auto. now right.
      * intros (o & [<- | Ho] & Hv & ->).
        -- unfold ArcSpec.valid_at in Hv. rewrite Hv in Hr. discriminate.
        -- exists o; auto.
Qed.

Lemma range_nonneg (b step : Z) :
  0 < step -> Forall (fun off => 0 <= off) (Py.range 0 b step).
Proof.
  intros Hs. apply Forall_forall. intros x Hx.
  unfold Py.range in Hx. apply In_range_from in Hx as (k & Hk & ->). nia.
Qed.

(** *** The sub-archives of one archive *)

Lemma sub_archives_spec (p : string) (base depth : Z)
      (ies : list (Z * Arc.ArchEntry)) :
  0 <= base ->
  Forall (fun ie => 0 <= Arc.offset (snd ie)) ies ->
  exists l, Arc.sub_archives buf p base depth ies = Some l
            /\ (forall q a d, In (q, a, d) l <->
                  exists idx e, In (idx, e) ies
                    /\ ArcSpec.valid_at buf (base + Arc.offset e) a
                    /\ q = (p ++ "/idx=" ++ Fmt.dec idx)%string
                    /\ d = depth + 1)
            /\ Forall (ArcSpec.wf_item buf) l.
Proof.
  intros Hb. induction 1 as [|[idx e] rest He _ IH].
  - exists []. split; [reflexivity|]. split; [|constructor].
    intros q a d; split; [intros [] | intros (i & e & [] & _)].
  - destruct IH as (l & Hl & Hin & Hwf). cbn [snd] in He.
    destruct (tama_archive_spec (base + Arc.offset e)) as (r & Hr & Hs);
      [lia|].
    cbn [Arc.sub_archives]. rewrite Hr, Hl.
    destruct r as [sub|].
    + eexists; split; [reflexivity|]. split.
      * intros q a d; split.
        -- intros [E | HI].
           ++ inversion E; subst. exists idx, e. repeat split; auto. now left.
           ++ apply Hin in HI as (i & e' & Hi & Hv & -> & ->).
              exists i, e'. repeat split; auto. now right.
        -- intros (i & e' & [E | Hi] & Hv & -> & ->).
           ++ inversion E; subst. left.
              unfold ArcSpec.valid_at in Hv. rewrite Hv in Hr.
              now inversion Hr.
           ++ right. apply Hin. exists i, e'. auto.
      * constructor; [|exact Hwf]. unfold ArcSpec.wf_item; cbn [fst snd].
        now destruct (Hs sub eq_refl) as (_ & ? & _).
    + exists l; split; [reflexivity|]. split; [|exact Hwf].
      intros q a d; rewrite Hin. split.
      * intros (i & e' & Hi & Hv & -> & ->).
        exists i, e'; repeat split; auto. now right.
      * intros (i & e' & [E | Hi] & Hv & -> & ->).
        -- inversion E; subst.
           unfold ArcSpec.valid_at in Hv. rewrite Hv in Hr. discriminate.
        -- exists i, e'; auto.
Qed.

Lemma In_enumerate_from {A} (l : list A) (i k : Z) (x : A) :
  In (k, x) (Py.enumerate_from i l) -> In x l.
Proof.
  revert i; induction l as [|y t IH]; simpl; intros i; [tauto|].
  intros [E | H]; [inversion E; now left | right; eauto].
Qed.

Lemma enumerate_offsets (a : Arc.Archive) :
  ArcSpec.wf_arc buf a ->
  Forall (fun ie => 0 <= Arc.offset (snd ie)) (Py.enumerate (Arc.entries a)).
Proof.
  intros [_ HF]. apply Forall_forall. intros [k e] Hin.
  apply In_enumerate_from in Hin.
  rewrite Forall_forall in HF. cbn [snd]. now apply HF.
Qed.

Section Traversal.
Variable max_depth : Z.

Local Abbreviation kids := (ArcSpec.kids buf max_depth).
Local Abbreviation next_level := (ArcSpec.next_level buf max_depth).
Local Abbreviation levels := (ArcSpec.levels buf max_depth).

(** The items appended for a popped item, as [kids] computes them. *)
Lemma kids_spec (p : string) (a : Arc.Archive) (d : Z) :
  ArcSpec.wf_arc buf a ->
  (if d >=? max_depth then Some []
   else Arc.sub_archives buf p (Arc.base_off a) d
          (Py.enumerate (Arc.entries a)))
  = Some (kids (p, a, d))
  /\ Forall (ArcSpec.wf_item buf) (kids (p, a, d))
  /\ (forall q s d', In (q, s, d') (kids (p, a, d)) <->
        d < max_depth
        /\ exists idx e, In (idx, e) (Py.enumerate (Arc.entries a))
             /\ ArcSpec.valid_at buf (Arc.base_off a + Arc.offset e) s
             /\ q = (p ++ "/idx=" ++ Fmt.dec idx)%string
             /\ d' = d + 1).
Proof.
  intros Hwf. unfold ArcSpec.kids.
  destruct (d >=? max_depth) eqn:E.
  - split; [reflexivity|]. split; [constructor|].
    intros q s d'; split; [intros [] | intros [? _]; lia].
  - destruct (sub_archives_spec p (Arc.base_off a) d
                (Py.enumerate (Arc.entries a)))
      as (l & Hl & Hin & Hw).
    + apply Hwf.
    + now apply enumerate_offsets.
    + rewrite Hl. split; [reflexivity|]. split; [exact Hw|].
      intros q s d'. rewrite Hin. split.
      * intros H; split; [lia | exact H].
      * intros [_ H]; exact H.
Qed.

Lemma next_level_wf (l : list Arc.item) :
  Forall (ArcSpec.wf_item buf) l -> Forall (ArcSpec.wf_item buf) (next_level l).
Proof.
  intros H. unfold ArcSpec.next_level. apply Forall_flat_map.
  eapply Forall_impl; [|exact H].
  intros [[p a] d] Hw. now apply kids_spec.
Qed.

Lemma bfs_nil (fuel : nat) : Arc.bfs fuel buf max_depth [] = Some (Some []).
Proof. destruct fuel; reflexivity. Qed.

(** The loop consumes a prefix of its queue, yields it, and continues with
    the rest followed by the next level of the prefix. *)
Lemma bfs_prefix (q r : list Arc.item) (fuel : nat) :
  Forall (ArcSpec.wf_item buf) q ->
  Arc.bfs (List.length q + fuel) buf max_depth (q ++ r)
  = ArcSpec.prefixed (ArcSpec.yielded q)
             (Arc.bfs fuel buf max_depth (r ++ next_level q)).
Proof.
  intros Hq; revert r; induction Hq as [|[[p a] d] q0 Hw _ IH]; intros r.
  - cbn [List.length app ArcSpec.yielded map ArcSpec.next_level flat_map
         Nat.add].
    rewrite app_nil_r. unfold ArcSpec.prefixed.
    destruct (Arc.bfs fuel buf max_depth r) as [[o|]|]; reflexivity.
  - cbn [List.length app Nat.add Arc.bfs].
    destruct (kids_spec p a d Hw) as (Hk & _ & _).
    destruct (d >=? max_depth) eqn:E.
    + apply Some_inj in Hk.
      replace (q0 ++ r) with (q0 ++ (r ++ kids (p, a, d)))
        by (rewrite <- Hk, app_nil_r; reflexivity).
      rewrite IH. unfold ArcSpec.next_level; cbn [flat_map].
      rewrite <- app_assoc.
      destruct (Arc.bfs fuel buf max_depth _) as [[o|]|]; reflexivity.
    + rewrite Hk. rewrite <- app_assoc. rewrite IH.
      unfold ArcSpec.next_level; cbn [flat_map]. rewrite <- app_assoc.
      destruct (Arc.bfs fuel buf max_depth _) as [[o|]|]; reflexivity.
Qed.

(** Once a level is empty the loop has returned, with any fuel left. *)
Lemma bfs_levels (n : nat) (l : list Arc.item) (extra : nat) :
  Forall (ArcSpec.wf_item buf) l ->
  Nat.iter n next_level l = [] ->
  Arc.bfs (List.length (levels n l) + extra) buf max_depth l
  = Some (Some (ArcSpec.yielded (levels n l))).
Proof.
  revert l; induction n as [|n IH]; intros l Hw He.
  - cbn in He; subst l. cbn. apply bfs_nil.
  - cbn [ArcSpec.levels]. rewrite length_app, <- Nat.add_assoc.
    pose proof (bfs_prefix l []
                  (List.length (levels n (next_level l)) + extra) Hw) as Hp.
    rewrite app_nil_r in Hp. rewrite Hp. cbn [app].
    rewrite IH.
    + unfold ArcSpec.prefixed, ArcSpec.yielded. now rewrite map_app.
    + now apply next_level_wf.
    + rewrite <- He. cbn [Nat.iter]. apply Nat.iter_swap.
Qed.

End Traversal.
End ArchiveScan.

(** ** The traversal yields what is reached *)

Section TraversalSpec.
Variable buf : bytes.
Variable max_depth : Z.

Local Abbreviation next_level := (ArcSpec.next_level buf max_depth).
Local Abbreviation levels := (ArcSpec.levels buf max_depth).
Local Abbreviation reached := (ArcSpec.reached buf max_depth).
Local Abbreviation level k := (Nat.iter k next_level (ArcSpec.tops buf)).

Lemma tops_spec :
  Arc.scan_tops buf (Py.range 0 (Py.len buf - 4) 2)
  = Some (map (fun it => (fst (fst it), snd (fst it))) (ArcSpec.tops buf))
  /\ Forall (ArcSpec.wf_item buf) (ArcSpec.tops buf)
  /\ forall p a d, In (p, a, d) (ArcSpec.tops buf) <->
       d = 0 /\ exists off, In off (Py.range 0 (Py.len buf - 4) 2)
                  /\ ArcSpec.valid_at buf off a
                  /\ p = ("off=0x" ++ Fmt.hexX off)%string.
Proof.
  destruct (scan_tops_spec buf (Py.range 0 (Py.len buf - 4) 2))
    as (t & Ht & Hin & Hwf); [apply range_nonneg; lia|].
  unfold ArcSpec.tops. rewrite Ht. split; [|split].
  - f_equal. rewrite map_map. cbn [fst snd].
    rewrite <- (map_id t) at 1. apply map_ext. now intros [? ?].
  - apply Forall_map. eapply Forall_impl; [|exact Hwf].
    intros [p a] H; exact H.
  - intros p a d. rewrite in_map_iff. split.
    + intros ([p' a'] & E & HI). inversion E; subst.
      split; [reflexivity|]. now apply Hin.
    + intros (-> & H). exists (p, a). split; [reflexivity|]. now apply Hin.
Qed.

Lemma iter_all_archives_bfs (fuel : nat) :
  Arc.iter_all_archives fuel buf max_depth
  = Arc.bfs fuel buf max_depth (ArcSpec.tops buf).
Proof.
  destruct (scan_tops_spec buf (Py.range 0 (Py.len buf - 4) 2))
    as (t & Ht & _); [apply range_nonneg; lia|].
  unfold Arc.iter_all_archives, ArcSpec.tops. now rewrite Ht.
Qed.

Lemma level_wf (k : nat) : Forall (ArcSpec.wf_item buf) (level k).
Proof.
  induction k; [apply tops_spec | rewrite Nat.iter_succ; now apply next_level_wf].
Qed.

Lemma In_next_level (l : list Arc.item) (q : string) (s : Arc.Archive)
      (d' : Z) :
  Forall (ArcSpec.wf_item buf) l ->
  (In (q, s, d') (next_level l) <->
   exists p a d idx e,
     In (p, a, d) l /\ d < max_depth
     /\ In (idx, e) (Py.enumerate (Arc.entries a))
     /\ ArcSpec.valid_at buf (Arc.base_off a + Arc.offset e) s
     /\ q = (p ++ "/idx=" ++ Fmt.dec idx)%string /\ d' = d + 1).
Proof.
  intros Hw. unfold ArcSpec.next_level. rewrite in_flat_map. split.
  - intros ([[p a] d] & HI & Hk).
    rewrite Forall_forall in Hw. pose proof (Hw _ HI) as Hwa.
    apply (kids_spec buf max_depth p a d Hwa) in Hk
      as (Hd & idx & e & ? & ? & ? & ?).
    exists p, a, d, idx, e. repeat split; assumption.
  - intros (p & a & d & idx & e & HI & Hd & He & Hv & -> & ->).
    exists (p, a, d). split; [exact HI|].
    rewrite Forall_forall in Hw. pose proof (Hw _ HI) as Hwa.
    apply (kids_spec buf max_depth p a d Hwa). split; [exact Hd|].
    exists idx, e. repeat split; assumption.
Qed.

(** Level [k] holds the reached pairs of depth [k]. *)
Lemma level_reached (k : nat) (p : string) (a : Arc.Archive) (d : Z) :
  In (p, a, d) (level k) -> reached p a d /\ d = Z.of_nat k.
Proof.
  revert p a d; induction k as [|k IH]; intros p a d HI.
  - cbn [Nat.iter] in HI. apply tops_spec in HI as (-> & off & ? & ? & ->).
    split; [now constructor | reflexivity].
  - rewrite Nat.iter_succ in HI. apply In_next_level in HI; [|apply level_wf].
    destruct HI as (p0 & a0 & d0 & idx & e & HI & Hd & He & Hv & -> & ->).
    apply IH in HI as [Hr ->]. split; [|lia].
    econstructor; eassumption.
Qed.

Lemma reached_level (p : string) (a : Arc.Archive) (d : Z) :
  reached p a d ->
  In (p, a, d) (level (Z.to_nat d)) /\ 0 <= d <= Z.max 0 max_depth.
Proof.
  induction 1 as [off arc Ho Hv | p arc depth idx e sub _ [IH Hb] Hd He Hv].
  - split; [|lia]. cbn [Z.to_nat Nat.iter]. apply tops_spec.
    split; [reflexivity|]. eauto.
  - split; [|lia].
    replace (Z.to_nat (depth + 1)) with (S (Z.to_nat depth)) by lia.
    rewrite Nat.iter_succ. apply In_next_level; [apply level_wf|].
    exists p, arc, depth, idx, e. repeat split; assumption.
Qed.

Lemma In_levels (n : nat) (l : list Arc.item) (it : Arc.item) :
  In it (levels n l) <->
  exists k, (k < n)%nat /\ In it (Nat.iter k next_level l).
Proof.
  revert l; induction n as [|n IH]; intros l; cbn [ArcSpec.levels].
  - split; [intros [] | intros (k & Hk & _); lia].
  - rewrite in_app_iff, IH. split.
    + intros [HI | (k & Hk & HI)].
      * exists O. split; [lia | exact HI].
      * exists (S k). split; [lia|]. now rewrite Nat.iter_succ_r.
    + intros ([|k] & Hk & HI).
      * now left.
      * right. exists k. split; [lia|]. now rewrite Nat.iter_succ_r in HI.
Qed.

(** Below the bound no level is left. *)
Lemma last_level_empty : level (S (Z.to_nat max_depth)) = [].
Proof.
  rewrite Nat.iter_succ.
  destruct (next_level (level (Z.to_nat max_depth))) as [|[[q s] d'] rest]
    eqn:E; [reflexivity|].
  assert (HI : In (q, s, d') (next_level (level (Z.to_nat max_depth))))
    by (rewrite E; now left).
  apply In_next_level in HI; [|apply level_wf].
  destruct HI as (p & a & d & idx & e & HI & Hd & _).
  apply level_reached in HI as [_ ->]. lia.
Qed.

(** The pairs yielded by the loop, for every sufficient fuel. *)
Lemma traversal_result :
  let out := ArcSpec.yielded (levels (S (Z.to_nat max_depth)) (ArcSpec.tops buf)) in
  (forall extra,
      Arc.iter_all_archives
        (List.length (levels (S (Z.to_nat max_depth)) (ArcSpec.tops buf))
         + extra) buf max_depth = Some (Some out))
  /\ forall p a, In (p, a) out <-> exists d, reached p a d.
Proof.
  cbv zeta. split.
  - intros extra. rewrite iter_all_archives_bfs.
    apply bfs_levels; [apply tops_spec | apply last_level_empty].
  - intros p a. unfold ArcSpec.yielded. rewrite in_map_iff. split.
    + intros ([[p' a'] d] & E & HI). cbn [fst snd] in E.
      inversion E; subst. exists d.
      apply In_levels in HI as (k & _ & HI). now apply level_reached in HI.
    + intros (d & Hr). exists (p, a, d). split; [reflexivity|].
      apply reached_level in Hr as [HI Hb].
      apply In_levels. exists (Z.to_nat d). split; [lia | exact HI].
Qed.

(** More fuel does not change a result. *)
Lemma bfs_mono (fuel k : nat) (q : list Arc.item)
      (out : list (string * Arc.Archive)) :
  Arc.bfs fuel buf max_depth q = Some (Some out) ->
  Arc.bfs (fuel + k) buf max_depth q = Some (Some out).
Proof.
  revert q out; induction fuel as [|f IH]; intros q out H.
  - destruct q as [|[[p a] d] q']; [|discriminate].
    cbn in H. rewrite bfs_nil. exact H.
  - destruct q as [|[[p a] d] q']; [exact H|].
    cbn [Nat.add Arc.bfs] in *.
    destruct (if d >=? max_depth then Some q' else _) as [q''|];
      [|discriminate].
    destruct (Arc.bfs f buf max_depth q'') as [[o|]|] eqn:E;
      try discriminate.
    now rewrite (IH _ _ E).
Qed.

End TraversalSpec.

Lemma iter_all_archives_mono (buf : bytes) (max_depth : Z) (fuel k : nat)
      (out : list (string * Arc.Archive)) :
  Arc.iter_all_archives fuel buf max_depth = Some (Some out) ->
  Arc.iter_all_archives (fuel + k) buf max_depth = Some (Some out).
Proof.
  unfold Arc.iter_all_archives. destruct (Arc.scan_tops _ _); [|discriminate].
  apply bfs_mono.
Qed.

(** *** C5: what the traversal recurses into *)

(** C5, as stated: the traversal recurses into an entry only if the
    entry's flags have their low four bits clear.  In the buffer
    [flagged_nested] the only entry of the archive at 0 has flags 1 and
    points to an odd offset, which the top-level scan never visits; the
    archive there is yielded all the same. *)
Lemma flagged_entry_is_entered :
  ~ ArcSpec.recursion_needs_clear_flags Inputs.flagged_nested.
Proof.
  intros H.
  specialize (H 2%nat
                [("off=0x0"%string, Inputs.flagged_top);
                 ("off=0x0/idx=0"%string, Inputs.flagged_sub)]
                "off=0x0"%string Inputs.flagged_top 0 Inputs.flagged_entry
                Inputs.flagged_sub).
  assert (E : Z.land (Arc.flags Inputs.flagged_entry) 15 = 0).
  { apply H.
    - vm_compute; reflexivity.
    - now left.
    - now left.
    - right; left. reflexivity. }
  vm_compute in E. discriminate E.
Qed.

(** C5, amended: for every buffer and depth bound the traversal returns,
    with any fuel beyond a bound, the same list, and a pair is in it
    exactly when it is reached: a valid header at an even offset below
    [len - 4], or the valid header at the absolute offset of an entry of
    a yielded archive of depth below the bound.  The entry's flags are
    not consulted; the consumers test them when they classify entries. *)
Theorem traversal_yields_reached (buf : bytes) (max_depth : Z) :
  exists out fuel,
    (forall extra,
        Arc.iter_all_archives (fuel + extra) buf max_depth = Some (Some out))
    /\ forall p a, In (p, a) out <->
                   exists d, ArcSpec.reached buf max_depth p a d.
Proof.
  pose proof (traversal_result buf max_depth) as H. cbv zeta in H.
  eexists _, _. exact H.
Qed.
(** *** C3: end-to-end scenario 1 *)

(** C3, as stated: on the buffer of scenario 1 the scan finds the archive,
    its entry is a valid text archive and string 0 decodes to the empty
    string.  The last part fails. *)
Lemma scenario1_string0_not_empty :
  ~ (Arc.iter_all_archives 1 Inputs.scenario1 3
       = Some (Some [("off=0x0"%string, Inputs.scenario1_archive)])
     /\ Txt.entry_view Inputs.scenario1 Inputs.scenario1_archive
          Inputs.scenario1_entry = Some Inputs.scenario1_view
     /\ Txt.parse_text_archive Inputs.scenario1_view 20 "off=0x0/idx=0"
        = Some (Some Inputs.scenario1_ta)
     /\ Py.index (Txt.offsets_word Inputs.scenario1_ta) 0 = Some 0
     /\ Txt.decode_string (Txt.data Inputs.scenario1_ta) (0 * 2) = ""%string).
Proof.
  intros (_ & _ & _ & _ & H). vm_compute in H. discriminate H.
Qed.

(** C3, amended: on the buffer of scenario 1 the scan yields exactly the
    archive at [off=0x0], whatever fuel it has beyond one iteration; the
    entry's four-byte view is accepted as a text archive with offsets
    [[0]]; and string 0, which starts at word 0 of the view, that is at
    the count word itself, decodes to the tag [<0001>]. *)
Theorem scenario1_decodes_count_word :
  (forall n, Arc.iter_all_archives (S n) Inputs.scenario1 3
             = Some (Some [("off=0x0"%string, Inputs.scenario1_archive)]))
  /\ Txt.entry_view Inputs.scenario1 Inputs.scenario1_archive
       Inputs.scenario1_entry = Some Inputs.scenario1_view
  /\ Txt.parse_text_archive Inputs.scenario1_view 20 "off=0x0/idx=0"
     = Some (Some Inputs.scenario1_ta)
  /\ Py.index (Txt.offsets_word Inputs.scenario1_ta) 0 = Some 0
  /\ Txt.decode_string (Txt.data Inputs.scenario1_ta) (0 * 2)
     = "<0001>"%string.
Proof.
  split; [|split; [|split; [|split]]]; try (vm_compute; reflexivity).
  intros n. change (S n) with (1 + n)%nat.
  apply iter_all_archives_mono. vm_compute; reflexivity.
Qed.



(** ** The sprite-package scans *)

Lemma better_spec (best : option ReplaceSprites.best_t)
      (c : ReplaceSprites.best_t) :
  exists x, ReplaceSprites.better best c = Some x
            /\ (x = c \/ best = Some x)
            /\ ScanSpec.score c <= ScanSpec.score x
            /\ forall b0, best = Some b0 ->
                          ScanSpec.score b0 <= ScanSpec.score x.
Proof.
  unfold ReplaceSprites.better. destruct best as [b|].
  - fold (ScanSpec.score c) (ScanSpec.score b).
    destruct (ScanSpec.score c >? ScanSpec.score b) eqn:E.
    + exists c. repeat split; auto; try lia.
      intros b0 E0; apply Some_inj in E0; subst; lia.
    + exists b. repeat split; auto; try lia.
      intros b0 E0; apply Some_inj in E0; subst; lia.
  - exists c. repeat split; auto; try lia. discriminate.
Qed.

Section BestScan.
Variable cand : Z -> option (option ReplaceSprites.best_t).

(** The loop returns a candidate of maximal score. *)
Lemma gscan_spec (offs : list Z) (best r : option ReplaceSprites.best_t) :
  ScanSpec.gscan cand offs best = Some r ->
  match r with
  | None => best = None /\ forall off, In off offs -> cand off = Some None
  | Some b =>
      (best = Some b \/ exists off, In off offs /\ cand off = Some (Some b))
      /\ (forall b0, best = Some b0 -> ScanSpec.score b0 <= ScanSpec.score b)
      /\ forall off c, In off offs -> cand off = Some (Some c) ->
                       ScanSpec.score c <= ScanSpec.score b
  end.
Proof.
  revert best r; induction offs as [|off rest IH]; intros best r H.
  - cbn in H. apply Some_inj in H; subst r. destruct best as [b|].
    + split; [now left|]. split.
      * intros b0 E; apply Some_inj in E; subst; lia.
      * intros ? ? [].
    + split; [reflexivity | intros ? []].
  - cbn [ScanSpec.gscan] in H. destruct (cand off) as [c|] eqn:Ec;
      [|discriminate].
    apply IH in H. destruct c as [c|].
    + destruct (better_spec best c) as (x & Ex & Hsrc & Hc & Hb).
      rewrite Ex in H. destruct r as [b|].
      * destruct H as (Hfrom & Hbest & Hall).
        pose proof (Hbest x eq_refl) as Hx.
        split; [|split].
        -- destruct Hfrom as [E | (o & Ho & Eo)].
           ++ apply Some_inj in E; subst x.
              destruct Hsrc as [-> | Hs]; [|now left].
              right. exists off. split; [now left | exact Ec].
           ++ right. exists o. split; [now right | exact Eo].
        -- intros b0 E0. specialize (Hb b0 E0). lia.
        -- intros o c' [<- | Ho] Eo.
           ++ rewrite Ec in Eo. do 2 apply Some_inj in Eo. subst c'. lia.
           ++ eapply Hall; eassumption.
      * destruct H as [E _]. discriminate E.
    + destruct r as [b|].
      * destruct H as (Hfrom & Hbest & Hall). split; [|split].
        -- destruct Hfrom as [E | (o & Ho & Eo)]; [now left|].
           right. exists o. split; [now right | exact Eo].
        -- exact Hbest.
        -- intros o c' [<- | Ho] Eo.
           ++ rewrite Ec in Eo. discriminate.
           ++ eapply Hall; eassumption.
      * destruct H as [E Hall]. split; [exact E|].
        intros o [<- | Ho]; [exact Ec | now apply Hall].
Qed.

(** Unless the candidate test raises, the loop returns. *)
Lemma gscan_total (offs : list Z) (best : option ReplaceSprites.best_t) :
  (forall off, In off offs -> cand off <> None) ->
  exists r, ScanSpec.gscan cand offs best = Some r.
Proof.
  revert best; induction offs as [|off rest IH]; intros best H.
  - now exists best.
  - cbn [ScanSpec.gscan]. destruct (cand off) as [c|] eqn:E.
    + apply IH. intros; apply H; now right.
    + exfalso. apply (H off); [now left | exact E].
Qed.

End BestScan.

Lemma replace_scan_gscan (data : bytes) (offs : list Z)
      (best : option ReplaceSprites.best_t) :
  ReplaceSprites.scan data offs best
  = ScanSpec.gscan (ReplaceSprites.candidate data) offs best.
Proof.
  revert best; induction offs as [|off rest IH]; intros best; [reflexivity|].
  cbn [ReplaceSprites.scan ScanSpec.gscan].
  destruct (ReplaceSprites.candidate data off); [apply IH | reflexivity].
Qed.

Lemma palette_scan_gscan (data : bytes) (offs : list Z)
      (best : option ReplaceSprites.best_t) :
  UpdatePalette.scan data offs best
  = ScanSpec.gscan (UpdatePalette.candidate data) offs best.
Proof.
  revert best; induction offs as [|off rest IH]; intros best; [reflexivity|].
  cbn [UpdatePalette.scan ScanSpec.gscan].
  destruct (UpdatePalette.candidate data off); [apply IH | reflexivity].
Qed.

(** A candidate carries its own offset, and its score is its [chars]. *)
Lemma replace_candidate_shape (data : bytes) (off : Z)
      (c : ReplaceSprites.best_t) :
  ReplaceSprites.candidate data off = Some (Some c) ->
  exists block o, c = (Sprites.chars_of o, off, block, o).
Proof.
  unfold ReplaceSprites.candidate.
  destruct (Sprites.header data off) as [[[[i s] p] ch]|]; [|discriminate].
  repeat match goal with
         | |- context [if ?b then _ else _] => destruct b; try discriminate
         | |- context [match ?x with Some _ => _ | None => _ end] =>
             destruct x as [?|]; try discriminate
         | |- context [let '(_, _) := ?x in _] => destruct x
         end.
  intros E; do 2 apply Some_inj in E; subst c.
  eexists _, (i, s, p, ch). reflexivity.
Qed.

Lemma palette_candidate_shape (data : bytes) (off : Z)
      (c : ReplaceSprites.best_t) :
  UpdatePalette.candidate data off = Some (Some c) ->
  exists block o, c = (Sprites.chars_of o, off, block, o).
Proof.
  unfold UpdatePalette.candidate.
  destruct (Sprites.header data off) as [[[[i s] p] ch]|]; [|discriminate].
  repeat match goal with
         | |- context [if ?b then _ else _] => destruct b; try discriminate
         | |- context [match ?x with Some _ => _ | None => _ end] =>
             destruct x as [?|]; try discriminate
         end.
  intros E; do 2 apply Some_inj in E; subst c.
  eexists _, (i, s, p, ch). reflexivity.
Qed.

(** [robust_scan] of [replace_sprites.py] returns a passing candidate whose
    [chars] is maximal among the passing candidates of all scanned
    offsets. *)
Lemma replace_robust_scan_maximal (data block : bytes) (off : Z)
      (o : Sprites.offsets) :
  ReplaceSprites.robust_scan data = Some (off, block, o) ->
  In off (Py.range 0 (Py.len data - 16) 4)
  /\ ReplaceSprites.candidate data off
     = Some (Some (Sprites.chars_of o, off, block, o))
  /\ forall off' block' o',
       In off' (Py.range 0 (Py.len data - 16) 4) ->
       ReplaceSprites.candidate data off'
       = Some (Some (Sprites.chars_of o', off', block', o')) ->
       Sprites.chars_of o' <= Sprites.chars_of o.
Proof.
  unfold ReplaceSprites.robust_scan. rewrite replace_scan_gscan.
  destruct (ScanSpec.gscan _ _ _) as [r|] eqn:E; [|discriminate].
  apply gscan_spec in E. destruct r as [[[[sc off0] block0] o0]|];
    [|discriminate].
  intros H; apply Some_inj in H. inversion H; subst; clear H.
  destruct E as ([E | (x & Hx & Ex)] & _ & Hall); [discriminate|].
  destruct (replace_candidate_shape _ _ _ Ex) as (b1 & o1 & E1).
  inversion E1; subst; clear E1.
  split; [exact Hx|]. split; [exact Ex|].
  intros off' block' o' Hin Hc. apply (Hall _ _ Hin) in Hc. exact Hc.
Qed.

Lemma palette_robust_scan_maximal (data block : bytes) (off : Z)
      (o : Sprites.offsets) :
  UpdatePalette.robust_scan data = Some (off, block, o) ->
  In off (Py.range 0 (Py.len data - 16) 4)
  /\ UpdatePalette.candidate data off
     = Some (Some (Sprites.chars_of o, off, block, o))
  /\ forall off' block' o',
       In off' (Py.range 0 (Py.len data - 16) 4) ->
       UpdatePalette.candidate data off'
       = Some (Some (Sprites.chars_of o', off', block', o')) ->
       Sprites.chars_of o' <= Sprites.chars_of o.
Proof.
  unfold UpdatePalette.robust_scan. rewrite palette_scan_gscan.
  destruct (ScanSpec.gscan _ _ _) as [r|] eqn:E; [|discriminate].
  apply gscan_spec in E. destruct r as [[[[sc off0] block0] o0]|];
    [|discriminate].
  intros H; apply Some_inj in H. inversion H; subst; clear H.
  destruct E as ([E | (x & Hx & Ex)] & _ & Hall); [discriminate|].
  destruct (palette_candidate_shape _ _ _ Ex) as (b1 & o1 & E1).
  inversion E1; subst; clear E1.
  split; [exact Hx|]. split; [exact Ex|].
  intros off' block' o' Hin Hc. apply (Hall _ _ Hin) in Hc. exact Hc.
Qed.

(** [scan_for_package] returns the first offset that passes. *)
Lemma first_candidate_first (data : bytes) (offs : list Z)
      (r : Z * ExportSprites.parsed) :
  ExportSprites.first_candidate data offs = Some r ->
  exists before after,
    offs = before ++ fst r :: after
    /\ ExportSprites.candidate data (fst r) = Some r
    /\ forall off, In off before -> ExportSprites.candidate data off = None.
Proof.
  induction offs as [|off rest IH]; [discriminate|].
  cbn [ExportSprites.first_candidate].
  destruct (ExportSprites.candidate data off) as [r'|] eqn:E.
  - intros H; apply Some_inj in H; subst r'.
    assert (fst r = off) as ->.
    { revert E. unfold ExportSprites.candidate.
      destruct (Sprites.header data off) as [[[[i s] p] ch]|]; [|discriminate].
      repeat match goal with
             | |- context [if ?b then _ else _] => destruct b; try discriminate
             | |- context [match ?x with Some _ => _ | None => _ end] =>
                 destruct x as [?|]; try discriminate
             | |- context [let '(_, _) := ?x in _] => destruct x
             end.
      intros E; apply Some_inj in E; now subst r. }
    exists [], rest. split; [reflexivity|]. split; [exact E | intros ? []].
  - intros H. destruct (IH H) as (before & after & -> & Hc & Hb).
    exists (off :: before), after. split; [reflexivity|]. split; [exact Hc|].
    intros o [<- | Ho]; [exact E | now apply Hb].
Qed.


(** ** Reading through a slice *)

Lemma struct_offset_inside (n o size : Z) :
  0 <= o -> o + size <= n -> struct_offset n o size = Some o.
Proof.
  intros H1 H2. unfold struct_offset.
  destruct (o <? 0) eqn:E; [lia|].
  destruct ((0 <=? o) && (o + size <=? n)) eqn:E2; [reflexivity|].
  apply andb_false_iff in E2 as [E2|E2]; lia.
Qed.

Lemma struct_offset_Some (n o size p : Z) :
  0 <= o -> struct_offset n o size = Some p -> p = o /\ o + size <= n.
Proof.
  intros H1. unfold struct_offset.
  destruct (o <? 0) eqn:E; [lia|].
  destruct ((0 <=? o) && (o + size <=? n)) eqn:E2; [|discriminate].
  apply andb_true_iff in E2 as [_ E2].
  intros H; apply Some_inj in H. split; lia.
Qed.

Lemma byte_at_slice (l : bytes) (a b i : Z) :
  0 <= a -> 0 <= b -> 0 <= i -> i < Py.len (Py.slice l a b) ->
  byte_at (Py.slice l a b) i = byte_at l (a + i).
Proof.
  intros Ha Hb Hi Hlt. rewrite len_slice in Hlt by assumption.
  unfold byte_at, Py.slice, Py.clamp_index.
  destruct (a <? 0) eqn:Ea; [lia|]. destruct (b <? 0) eqn:Eb; [lia|].
  rewrite nth_firstn, nth_skipn.
  destruct (Z.to_nat i <? Z.to_nat (Z.min b (Py.len l) - Z.min a (Py.len l)))%nat
    eqn:E.
  - f_equal. f_equal. lia.
  - apply Nat.ltb_ge in E. lia.
Qed.

Lemma le16_slice (l : bytes) (a b o : Z) :
  0 <= a -> 0 <= b -> 0 <= o -> o + 2 <= Py.len (Py.slice l a b) ->
  le16 (Py.slice l a b) o = le16 l (a + o).
Proof.
  intros Ha Hb Ho Hlt. unfold le16.
  assert (Hin : a + o + 2 <= Py.len l)
    by (rewrite len_slice in Hlt by assumption; lia).
  rewrite (struct_offset_inside _ o 2) by llia.
  rewrite (struct_offset_inside _ (a + o) 2) by llia.
  rewrite !byte_at_slice by llia.
  replace (a + (o + 1)) with (a + o + 1) by lia. reflexivity.
Qed.

Lemma le32_slice (l : bytes) (a b o : Z) :
  0 <= a -> 0 <= b -> 0 <= o -> o + 4 <= Py.len (Py.slice l a b) ->
  le32 (Py.slice l a b) o = le32 l (a + o).
Proof.
  intros Ha Hb Ho Hlt. unfold le32.
  assert (Hin : a + o + 4 <= Py.len l)
    by (rewrite len_slice in Hlt by assumption; lia).
  rewrite (struct_offset_inside _ o 4) by llia.
  rewrite (struct_offset_inside _ (a + o) 4) by llia.
  rewrite !byte_at_slice by llia.
  replace (a + (o + 1)) with (a + o + 1) by lia.
  replace (a + (o + 2)) with (a + o + 2) by lia.
  replace (a + (o + 3)) with (a + o + 3) by lia.
  reflexivity.
Qed.

Lemma index_inside {A} (l : list A) (i : Z) :
  0 <= i < Py.len l -> exists x, Py.index l i = Some x.
Proof.
  intros H. unfold Py.index.
  destruct (i <? 0) eqn:E; [lia|].
  destruct ((0 <=? i) && (i <? Py.len l)) eqn:E2.
  - destruct (nth_error l (Z.to_nat i)) eqn:En; [eauto|].
    apply nth_error_None in En. unfold Py.len in H. lia.
  - apply andb_false_iff in E2 as [E2|E2]; lia.
Qed.

(** [l[-1]] of a non-empty list is its last element. *)
Lemma index_last {A} (l : list A) :
  l <> [] -> Py.index l (-1) = nth_error l (List.length l - 1).
Proof.
  intros Hne. unfold Py.index. cbn [Z.ltb Z.compare].
  assert (0 < Py.len l) by (unfold Py.len; destruct l; [congruence | cbn [List.length]; lia]).
  destruct ((0 <=? -1 + Py.len l) && (-1 + Py.len l <? Py.len l)) eqn:E.
  - f_equal. unfold Py.len. lia.
  - apply andb_false_iff in E as [E|E]; lia.
Qed.

(** ** [mapM] over a range *)

Lemma nth_error_range_from (n k : nat) (a step : Z) :
  (k < n)%nat ->
  nth_error (Py.range_from n a step) k = Some (a + Z.of_nat k * step).
Proof.
  revert a k; induction n as [|n IH]; intros a k Hk; [lia|].
  destruct k as [|k]; cbn [Py.range_from nth_error].
  - f_equal; lia.
  - rewrite IH by lia. f_equal; lia.
Qed.

Lemma nth_error_range (n : Z) (k : nat) :
  Z.of_nat k < n -> nth_error (Py.range 0 n 1) k = Some (Z.of_nat k).
Proof.
  intros Hk. unfold Py.range. rewrite nth_error_range_from.
  - f_equal; lia.
  - rewrite Z.div_1_r. lia.
Qed.

Lemma mapM_nth {A B} (f : A -> option B) (l : list A) (r : list B)
      (k : nat) :
  mapM f l = Some r ->
  match nth_error l k with
  | Some x => exists y, nth_error r k = Some y /\ f x = Some y
  | None => nth_error r k = None
  end.
Proof.
  revert r k; induction l as [|x t IH]; intros r k H.
  - apply Some_inj in H; subst r. now destruct k.
  - cbn [mapM] in H. destruct (f x) as [y|] eqn:Ey; [|discriminate].
    destruct (mapM f t) as [ys|] eqn:Em; [|discriminate].
    apply Some_inj in H; subst r. destruct k as [|k]; cbn [nth_error].
    + eauto.
    + now apply IH.
Qed.

Lemma mapM_range_total {B} (f : Z -> option B) (n : Z) :
  (forall i, 0 <= i < n -> exists y, f i = Some y) ->
  exists r, mapM f (Py.range 0 n 1) = Some r /\ Py.len r = Z.max 0 n.
Proof.
  intros H. destruct (mapM_total f (Py.range 0 n 1)) as [r Hr].
  - intros x Hx. apply In_range in Hx. now apply H.
  - exists r. split; [exact Hr|].
    unfold Py.len. rewrite (mapM_length _ _ _ Hr), length_range. lia.
Qed.

(** The last element of a [mapM] over [range(n)] is the image of [n-1]. *)
Lemma mapM_range_last {B} (f : Z -> option B) (n : Z) (r : list B) :
  1 <= n -> mapM f (Py.range 0 n 1) = Some r ->
  exists y, Py.index r (-1) = Some y /\ f (n - 1) = Some y.
Proof.
  intros Hn Hr.
  pose proof (mapM_length _ _ _ Hr) as Hl. rewrite length_range in Hl.
  pose proof (mapM_nth f _ r (Z.to_nat n - 1) Hr) as Hk.
  rewrite nth_error_range in Hk by lia.
  destruct Hk as (y & Hy & Hf). exists y. split.
  - rewrite index_last by (destruct r; [cbn in Hl; lia | congruence]).
    now rewrite Hl.
  - rewrite <- Hf. f_equal. lia.
Qed.

(** ** The records of a package *)

Lemma read_image_total (block : bytes) (o : Z) :
  0 <= o -> o + 6 <= Py.len block ->
  exists im, Sprites.read_image block o = Some im.
Proof.
  intros H1 H2. unfold Sprites.read_image.
  destruct (le16_in_bounds block o) as [s ->]; [lia|lia|].
  destruct (index_inside block (o + 2)) as [w ->]; [lia|].
  destruct (index_inside block (o + 3)) as [h ->]; [lia|].
  destruct (le16_in_bounds block (o + 4)) as [p ->]; [lia|lia|].
  eauto.
Qed.

Lemma read_image_start (block : bytes) (o : Z) (im : Sprites.ImageDef) :
  Sprites.read_image block o = Some im ->
  le16 block o = Some (Sprites.sprite_start_index im).
Proof.
  unfold Sprites.read_image.
  destruct (le16 block o) as [s|]; [|discriminate].
  destruct (Py.index block (o + 2)); [|discriminate].
  destruct (Py.index block (o + 3)); [|discriminate].
  destruct (le16 block (o + 4)); [|discriminate].
  intros H; apply Some_inj in H; now subst im.
Qed.

Lemma read_sprite_total (block : bytes) (o : Z) :
  0 <= o -> o + 8 <= Py.len block ->
  exists sp, Sprites.read_sprite block o = Some sp.
Proof.
  intros H1 H2. unfold Sprites.read_sprite, se16.
  destruct (le16_in_bounds block o) as [c ->]; [lia|lia|].
  destruct (le16_in_bounds block (o + 2)) as [x ->]; [lia|lia|].
  destruct (le16_in_bounds block (o + 4)) as [y ->]; [lia|lia|].
  destruct (le16_in_bounds block (o + 6)) as [a ->]; [lia|lia|].
  eauto.
Qed.

Lemma read_images_total (block : bytes) (img_defs n : Z) :
  0 <= img_defs -> img_defs + n * 6 <= Py.len block ->
  exists r, Sprites.read_images block img_defs n = Some r
            /\ Py.len r = Z.max 0 n.
Proof.
  intros H1 H2. apply mapM_range_total.
  intros i Hi. apply read_image_total; lia.
Qed.

Lemma read_sprites_total (block : bytes) (spr_defs n : Z) :
  0 <= spr_defs -> spr_defs + n * 8 <= Py.len block ->
  exists r, Sprites.read_sprites block spr_defs n = Some r
            /\ Py.len r = Z.max 0 n.
Proof.
  intros H1 H2. apply mapM_range_total.
  intros i Hi. apply read_sprite_total; lia.
Qed.

Lemma read_palette_total (block : bytes) (palettes n : Z) :
  0 <= palettes -> palettes + n * 2 <= Py.len block ->
  exists r, Sprites.read_palette block palettes n = Some r
            /\ Py.len r = Z.max 0 n.
Proof.
  intros H1 H2. apply mapM_range_total.
  intros i Hi. apply le16_in_bounds; lia.
Qed.

(** The sprite index of the last image, as every scanner tests it. *)
Lemma last_image_start (block : bytes) (img_defs n : Z)
      (images : list Sprites.ImageDef) :
  1 <= n -> Sprites.read_images block img_defs n = Some images ->
  exists last, Sprites.last_image images = Some last
               /\ le16 block (img_defs + (n - 1) * 6)
                  = Some (Sprites.sprite_start_index last).
Proof.
  intros Hn Hr. destruct (mapM_range_last _ n images Hn Hr) as (y & Hy & Hf).
  exists y. split; [exact Hy | now apply read_image_start].
Qed.

(** ** The structural checks, and the candidates that pass them *)

Lemma div_exact_mul (a b : Z) : 0 < b -> a mod b = 0 -> a / b * b = a.
Proof.
  intros Hb Hm. pose proof (Z.div_mod a b ltac:(lia)) as H. lia.
Qed.

Lemma increasing_within_true (i s p c bound : Z) :
  Sprites.increasing_within (i, s, p, c) bound = true <->
  0 < i /\ i < s /\ s < p /\ p < c /\ c <= bound.
Proof.
  unfold Sprites.increasing_within. rewrite !andb_true_iff.
  rewrite !Z.ltb_lt, Z.leb_le. tauto.
Qed.

Lemma aligned_true (i s p c : Z) :
  Sprites.aligned (i, s, p, c) = true <->
  (s - i) mod 6 = 0 /\ (p - s) mod 8 = 0 /\ (c - p) mod 2 = 0.
Proof.
  unfold Sprites.aligned. rewrite !andb_true_iff, !Z.eqb_eq. tauto.
Qed.

Lemma header_slice (data : bytes) (off b : Z) :
  0 <= off -> 0 <= b -> 16 <= Py.len (Py.slice data off b) ->
  Sprites.header (Py.slice data off b) 0 = Sprites.header data off.
Proof.
  intros Ho Hb Hl. unfold Sprites.header.
  rewrite !le32_slice by llia.
  replace (off + (0 + 0)) with (off + 0) by lia.
  replace (off + (0 + 4)) with (off + 4) by lia.
  replace (off + (0 + 8)) with (off + 8) by lia.
  replace (off + (0 + 12)) with (off + 12) by lia.
  reflexivity.
Qed.

Lemma header_range (data : bytes) (off i s p c : Z) :
  Sprites.header data off = Some (i, s, p, c) ->
  0 <= i /\ 0 <= s /\ 0 <= p /\ 0 <= c.
Proof.
  unfold Sprites.header.
  destruct (le32 data (off + 0)) as [i'|] eqn:E1; [|discriminate].
  destruct (le32 data (off + 4)) as [s'|] eqn:E2; [|discriminate].
  destruct (le32 data (off + 8)) as [p'|] eqn:E3; [|discriminate].
  destruct (le32 data (off + 12)) as [c'|] eqn:E4; [|discriminate].
  intros H; apply Some_inj in H. inversion H; subst.
  apply le32_range in E1, E2, E3, E4. lia.
Qed.

(** The block a scanner cuts at a passing offset holds the whole
    package. *)
Lemma block_len (data : bytes) (off c : Z) :
  0 <= off -> 0 <= c -> c <= Py.len data - off ->
  c <= Py.len (Py.slice data off (off + c + 1000000)).
Proof.
  intros Ho Hc Hb. rewrite len_slice by lia. llia.
Qed.

Section Candidates.
Variable data : bytes.
Variable off : Z.
Hypothesis off_nonneg : 0 <= off.

Local Abbreviation block c := (Py.slice data off (off + c + 1000000)).

(** The three tables of a package that passes the offset and stride
    checks can be read. *)
Lemma tables_total (i s p c : Z) :
  Sprites.increasing_within (i, s, p, c) (Py.len data - off) = true ->
  Sprites.aligned (i, s, p, c) = true ->
  exists images sprites pal,
    Sprites.read_images (block c) i ((s - i) / 6) = Some images
    /\ Sprites.read_sprites (block c) s ((p - s) / 8) = Some sprites
    /\ Sprites.read_palette (block c) p ((c - p) / 2) = Some pal.
Proof.
  intros Hinc Hal.
  apply increasing_within_true in Hinc as (H0 & H1 & H2 & H3 & H4).
  apply aligned_true in Hal as (A1 & A2 & A3).
  pose proof (block_len data off c off_nonneg ltac:(lia) H4) as Hlen.
  pose proof (div_exact_mul _ 6 ltac:(lia) A1).
  pose proof (div_exact_mul _ 8 ltac:(lia) A2).
  pose proof (div_exact_mul _ 2 ltac:(lia) A3).
  destruct (read_images_total (block c) i ((s - i) / 6)) as (im & -> & _);
    [lia | llia |].
  destruct (read_sprites_total (block c) s ((p - s) / 8)) as (sp & -> & _);
    [lia | llia |].
  destruct (read_palette_total (block c) p ((c - p) / 2)) as (pl & -> & _);
    [lia | llia |].
  exists im, sp, pl. repeat split; reflexivity.
Qed.

(** The last image of the block starts where the buffer says. *)
Lemma block_last_image (i s p c : Z) (images : list Sprites.ImageDef) :
  Sprites.increasing_within (i, s, p, c) (Py.len data - off) = true ->
  Sprites.aligned (i, s, p, c) = true ->
  1 <= (s - i) / 6 ->
  Sprites.read_images (block c) i ((s - i) / 6) = Some images ->
  exists last, Sprites.last_image images = Some last
               /\ le16 data (off + i + ((s - i) / 6 - 1) * 6)
                  = Some (Sprites.sprite_start_index last).
Proof.
  intros Hinc Hal Hn Hr.
  apply increasing_within_true in Hinc as (H0 & H1 & H2 & H3 & H4).
  apply aligned_true in Hal as (A1 & _).
  pose proof (block_len data off c off_nonneg ltac:(lia) H4) as Hlen.
  pose proof (div_exact_mul _ 6 ltac:(lia) A1).
  destruct (last_image_start _ _ _ _ Hn Hr) as (last & Hl & Hs).
  exists last. split; [exact Hl|].
  rewrite le16_slice in Hs by llia.
  rewrite <- Hs. f_equal. lia.
Qed.

(** [ExportSprites.candidate] returns exactly at the offsets that pass the
    checks with 500 to 10000 images and at least 64 colours. *)
Lemma export_candidate_passes (o : Sprites.offsets) :
  ScanSpec.passes 500 10000 64 data off o ->
  exists images sprites pal,
    ExportSprites.candidate data off = Some (off, (o, images, sprites, pal)).
Proof.
  destruct o as [[[i s] p] c].
  intros (Hh & Hinc & Hal & Hn & Hc & s0 & Hs0 & Hlt).
  unfold ScanSpec.num_images, ScanSpec.num_colors, ScanSpec.num_sprites,
    ScanSpec.img_defs_of in *. cbn [fst] in Hs0.
  pose proof Hinc as Hinc'.
  apply increasing_within_true in Hinc' as (H0 & H1 & H2 & H3 & H4).
  pose proof (block_len data off c off_nonneg ltac:(lia) H4) as Hlen.
  destruct (tables_total i s p c Hinc Hal) as (im & sp & pl & Him & Hsp & Hpl).
  destruct (block_last_image i s p c im Hinc Hal ltac:(lia) Him)
    as (last & Hl & Hs).
  rewrite Hs0 in Hs. apply Some_inj in Hs.
  assert (Hpal : 3000 < c - i).
  { apply aligned_true in Hal as (A1 & _).
    pose proof (div_exact_mul _ 6 ltac:(lia) A1). lia. }
  unfold ExportSprites.candidate. rewrite Hh. cbv zeta.
  rewrite Hinc, Hal. cbn [negb].
  destruct ((s - i) / 6 <? 500) eqn:E1; [lia|].
  destruct ((s - i) / 6 >? 10000) eqn:E2; [lia|]. cbn [orb].
  destruct ((c - p) / 2 <? 64) eqn:E3; [lia|].
  unfold ExportSprites.parse_package.
  rewrite header_slice by llia. rewrite Hh.
  assert (Hib : Sprites.increasing_within (i, s, p, c) (Py.len (block c))
                = true)
    by (apply increasing_within_true; repeat split; llia).
  rewrite Hib, Hal. cbn [negb]. rewrite Him, Hsp, Hpl, Hl.
  destruct (Sprites.sprite_start_index last <? (p - s) / 8) eqn:E4; [|lia].
  exists im, sp, pl. reflexivity.
Qed.

Lemma export_candidate_sound (r : Z * ExportSprites.parsed) :
  ExportSprites.candidate data off = Some r ->
  fst r = off
  /\ ScanSpec.passes 500 10000 64 data off (fst (fst (fst (snd r)))).
Proof.
  unfold ExportSprites.candidate.
  destruct (Sprites.header data off) as [[[[i s] p] c]|] eqn:Hh;
    [|discriminate]. cbv zeta.
  destruct (Sprites.increasing_within _ _) eqn:Hinc; [|discriminate].
  destruct (Sprites.aligned _) eqn:Hal; [|discriminate]. cbn [negb].
  destruct ((s - i) / 6 <? 500) eqn:E1; [discriminate|].
  destruct ((s - i) / 6 >? 10000) eqn:E2; [discriminate|]. cbn [orb].
  destruct ((c - p) / 2 <? 64) eqn:E3; [discriminate|].
  pose proof Hinc as Hinc'.
  apply increasing_within_true in Hinc' as (H0 & H1 & H2 & H3 & H4).
  pose proof (block_len data off c off_nonneg ltac:(lia) H4) as Hlen.
  assert (Hpal : 3000 < c - i).
  { pose proof Hal as Hal'. apply aligned_true in Hal' as (A1 & _).
    pose proof (div_exact_mul _ 6 ltac:(lia) A1). lia. }
  unfold ExportSprites.parse_package.
  rewrite header_slice by llia. rewrite Hh.
  destruct (Sprites.increasing_within (i, s, p, c) (Py.len (block c)));
    [|discriminate].
  rewrite Hal. cbn [negb].
  destruct (Sprites.read_images _ _ _) as [im|] eqn:Him; [|discriminate].
  destruct (Sprites.read_sprites _ _ _) as [sp|]; [|discriminate].
  destruct (Sprites.read_palette _ _ _) as [pl|]; [|discriminate].
  destruct (Sprites.last_image im) as [last|] eqn:Hl; [|discriminate].
  destruct (Sprites.sprite_start_index last <? (p - s) / 8) eqn:E4;
    [|discriminate].
  intros H; apply Some_inj in H; subst r. cbn [fst snd].
  split; [reflexivity|].
  destruct (block_last_image i s p c im Hinc Hal ltac:(lia) Him)
    as (last' & Hl' & Hs).
  rewrite Hl in Hl'. apply Some_inj in Hl'. subst last'.
  unfold ScanSpec.passes, ScanSpec.num_images, ScanSpec.num_colors,
    ScanSpec.num_sprites, ScanSpec.img_defs_of. cbn [fst].
  repeat split; try assumption; try lia.
  exists (Sprites.sprite_start_index last). split; [exact Hs | lia].
Qed.

(** The same for [ReplaceSprites.candidate], with 1000 to 5000 images and
    no bound on the colours. *)
Lemma replace_candidate_passes (o : Sprites.offsets) :
  ScanSpec.passes 1000 5000 0 data off o ->
  ReplaceSprites.candidate data off
  = Some (Some (Sprites.chars_of o, off, block (Sprites.chars_of o), o)).
Proof.
  destruct o as [[[i s] p] c].
  intros (Hh & Hinc & Hal & Hn & Hc & s0 & Hs0 & Hlt).
  unfold ScanSpec.num_images, ScanSpec.num_colors, ScanSpec.num_sprites,
    ScanSpec.img_defs_of, Sprites.chars_of in *. cbn [fst snd] in *.
  destruct (tables_total i s p c Hinc Hal) as (im & sp & pl & Him & Hsp & Hpl).
  destruct (block_last_image i s p c im Hinc Hal ltac:(lia) Him)
    as (last & Hl & Hs).
  rewrite Hs0 in Hs. apply Some_inj in Hs.
  unfold ReplaceSprites.candidate. rewrite Hh. cbv zeta.
  rewrite Hinc, Hal. cbn [negb].
  destruct ((1000 <=? (s - i) / 6) && ((s - i) / 6 <=? 5000)) eqn:E1.
  2:{ apply andb_false_iff in E1 as [E1|E1]; lia. }
  cbn [negb]. unfold ReplaceSprites.parse_package.
  rewrite Hal. cbn [negb]. rewrite Him, Hsp, Hpl, Hl.
  destruct (Sprites.sprite_start_index last >=? (p - s) / 8) eqn:E4; [lia|].
  reflexivity.
Qed.

Lemma replace_candidate_sound (c0 : ReplaceSprites.best_t) :
  ReplaceSprites.candidate data off = Some (Some c0) ->
  exists o, c0 = (Sprites.chars_of o, off, block (Sprites.chars_of o), o)
            /\ ScanSpec.passes 1000 5000 0 data off o.
Proof.
  unfold ReplaceSprites.candidate.
  destruct (Sprites.header data off) as [[[[i s] p] c]|] eqn:Hh;
    [|discriminate]. cbv zeta.
  destruct (Sprites.increasing_within _ _) eqn:Hinc; [|discriminate].
  destruct (Sprites.aligned _) eqn:Hal; [|discriminate]. cbn [negb].
  destruct ((1000 <=? (s - i) / 6) && ((s - i) / 6 <=? 5000)) eqn:E1;
    [|discriminate].
  apply andb_true_iff in E1 as [E1 E2]. cbn [negb].
  unfold ReplaceSprites.parse_package. rewrite Hal. cbn [negb].
  destruct (Sprites.read_images _ _ _) as [im|] eqn:Him; [|discriminate].
  destruct (Sprites.read_sprites _ _ _) as [sp|]; [|discriminate].
  destruct (Sprites.read_palette _ _ _) as [pl|]; [|discriminate].
  destruct (Sprites.last_image im) as [last|] eqn:Hl; [|discriminate].
  destruct (Sprites.sprite_start_index last >=? (p - s) / 8) eqn:E4;
    [discriminate|].
  intros H; do 2 apply Some_inj in H; subst c0.
  exists (i, s, p, c). split; [reflexivity|].
  destruct (block_last_image i s p c im Hinc Hal ltac:(lia) Him)
    as (last' & Hl' & Hs).
  rewrite Hl in Hl'. apply Some_inj in Hl'. subst last'.
  pose proof Hinc as Hinc'.
  apply increasing_within_true in Hinc' as (H0 & H1 & H2 & H3 & H4).
  unfold ScanSpec.passes, ScanSpec.num_images, ScanSpec.num_colors,
    ScanSpec.num_sprites, ScanSpec.img_defs_of. cbn [fst].
  repeat split; try assumption; try lia.
  - apply Z.div_pos; lia.
  - exists (Sprites.sprite_start_index last). split; [exact Hs | lia].
Qed.

(** The candidate test of [replace_sprites.py] does not raise. *)
Lemma replace_candidate_no_raise :
  off + 16 <= Py.len data -> ReplaceSprites.candidate data off <> None.
Proof.
  intros Hb. unfold ReplaceSprites.candidate, Sprites.header.
  destruct (le32_in_bounds data (off + 0)) as [i ->]; [lia|lia|].
  destruct (le32_in_bounds data (off + 4)) as [s ->]; [lia|lia|].
  destruct (le32_in_bounds data (off + 8)) as [p ->]; [lia|lia|].
  destruct (le32_in_bounds data (off + 12)) as [c ->]; [lia|lia|].
  cbv zeta.
  destruct (negb (Sprites.increasing_within _ _)) eqn:Hinc; [discriminate|].
  destruct (negb (Sprites.aligned _)) eqn:Hal; [discriminate|].
  destruct (negb ((1000 <=? (s - i) / 6) && ((s - i) / 6 <=? 5000))) eqn:E1;
    [discriminate|].
  apply negb_false_iff in Hinc, Hal, E1.
  apply andb_true_iff in E1 as [E1 E2].
  destruct (ReplaceSprites.parse_package _ _) as [[[[im sp] pl] ch]|] eqn:Hp;
    [|discriminate].
  unfold ReplaceSprites.parse_package in Hp. rewrite Hal in Hp.
  cbn [negb] in Hp.
  destruct (Sprites.read_images _ _ _) as [im'|] eqn:Him; [|discriminate].
  destruct (Sprites.read_sprites _ _ _) as [sp'|]; [|discriminate].
  destruct (Sprites.read_palette _ _ _) as [pl'|]; [|discriminate].
  apply Some_inj in Hp. inversion Hp; subst.
  destruct (block_last_image i s p ch im Hinc Hal ltac:(lia) Him)
    as (last & -> & _).
  destruct (Sprites.sprite_start_index last >=? (p - s) / 8); discriminate.
Qed.

End Candidates.

(** ** The two [robust_scan]s, in terms of the checks *)

Section PaletteCandidate.
Variable data : bytes.
Variable off : Z.
Hypothesis off_nonneg : 0 <= off.

Local Abbreviation block c := (Py.slice data off (off + c + 1000000)).

Lemma palette_last_read (i s p c : Z) :
  Sprites.increasing_within (i, s, p, c) (Py.len data - off) = true ->
  Sprites.aligned (i, s, p, c) = true ->
  1 <= (s - i) / 6 ->
  le16 (block c) (i + ((s - i) / 6 - 1) * 6)
  = le16 data (off + i + ((s - i) / 6 - 1) * 6)
  /\ exists w, le16 data (off + i + ((s - i) / 6 - 1) * 6) = Some w.
Proof.
  intros Hinc Hal Hn.
  apply increasing_within_true in Hinc as (H0 & H1 & H2 & H3 & H4).
  apply aligned_true in Hal as (A1 & _).
  pose proof (block_len data off c off_nonneg ltac:(lia) H4) as Hlen.
  pose proof (div_exact_mul _ 6 ltac:(lia) A1).
  split.
  - rewrite le16_slice by llia. f_equal; lia.
  - apply le16_in_bounds; llia.
Qed.

Lemma palette_candidate_passes (o : Sprites.offsets) :
  ScanSpec.passes 1000 5000 0 data off o ->
  UpdatePalette.candidate data off
  = Some (Some (Sprites.chars_of o, off, block (Sprites.chars_of o), o)).
Proof.
  destruct o as [[[i s] p] c].
  intros (Hh & Hinc & Hal & Hn & Hc & s0 & Hs0 & Hlt).
  unfold ScanSpec.num_images, ScanSpec.num_colors, ScanSpec.num_sprites,
    ScanSpec.img_defs_of, Sprites.chars_of in *. cbn [fst snd] in *.
  destruct (palette_last_read i s p c Hinc Hal ltac:(lia)) as [Hr _].
  unfold UpdatePalette.candidate. rewrite Hh. cbv zeta.
  rewrite Hinc, Hal. cbn [negb].
  destruct ((1000 <=? (s - i) / 6) && ((s - i) / 6 <=? 5000)) eqn:E1.
  2:{ apply andb_false_iff in E1 as [E1|E1]; lia. }
  cbn [negb]. rewrite Hr, Hs0.
  destruct (s0 >=? (p - s) / 8) eqn:E4; [lia | reflexivity].
Qed.

Lemma palette_candidate_sound (c0 : ReplaceSprites.best_t) :
  UpdatePalette.candidate data off = Some (Some c0) ->
  exists o, c0 = (Sprites.chars_of o, off, block (Sprites.chars_of o), o)
            /\ ScanSpec.passes 1000 5000 0 data off o.
Proof.
  unfold UpdatePalette.candidate.
  destruct (Sprites.header data off) as [[[[i s] p] c]|] eqn:Hh;
    [|discriminate]. cbv zeta.
  destruct (Sprites.increasing_within _ _) eqn:Hinc; [|discriminate].
  destruct (Sprites.aligned _) eqn:Hal; [|discriminate]. cbn [negb].
  destruct ((1000 <=? (s - i) / 6) && ((s - i) / 6 <=? 5000)) eqn:E1;
    [|discriminate].
  apply andb_true_iff in E1 as [E1 E2]. cbn [negb].
  destruct (palette_last_read i s p c Hinc Hal ltac:(lia)) as [Hr _].
  rewrite Hr.
  destruct (le16 data _) as [w|] eqn:Hw; [|discriminate].
  destruct (w >=? (p - s) / 8) eqn:E4; [discriminate|].
  intros H; do 2 apply Some_inj in H; subst c0.
  exists (i, s, p, c). split; [reflexivity|].
  pose proof Hinc as Hinc'.
  apply increasing_within_true in Hinc' as (H0 & H1 & H2 & H3 & H4).
  unfold ScanSpec.passes, ScanSpec.num_images, ScanSpec.num_colors,
    ScanSpec.num_sprites, ScanSpec.img_defs_of. cbn [fst].
  repeat split; try assumption; try lia.
  - apply Z.div_pos; lia.
  - exists w. split; [exact Hw | lia].
Qed.

Lemma palette_candidate_no_raise :
  off + 16 <= Py.len data -> UpdatePalette.candidate data off <> None.
Proof.
  intros Hb. unfold UpdatePalette.candidate, Sprites.header.
  destruct (le32_in_bounds data (off + 0)) as [i ->]; [lia|lia|].
  destruct (le32_in_bounds data (off + 4)) as [s ->]; [lia|lia|].
  destruct (le32_in_bounds data (off + 8)) as [p ->]; [lia|lia|].
  destruct (le32_in_bounds data (off + 12)) as [c ->]; [lia|lia|].
  cbv zeta.
  destruct (negb (Sprites.increasing_within _ _)) eqn:Hinc; [discriminate|].
  destruct (negb (Sprites.aligned _)) eqn:Hal; [discriminate|].
  destruct (negb ((1000 <=? (s - i) / 6) && ((s - i) / 6 <=? 5000))) eqn:E1;
    [discriminate|].
  apply negb_false_iff in Hinc, Hal, E1.
  apply andb_true_iff in E1 as [E1 E2].
  destruct (palette_last_read i s p c Hinc Hal ltac:(lia)) as [Hr [w Hw]].
  rewrite Hr, Hw. destruct (w >=? (p - s) / 8); discriminate.
Qed.

End PaletteCandidate.

Lemma scan_range_bounds (n off : Z) :
  In off (Py.range 0 (n - 16) 4) -> 0 <= off /\ off + 16 < n.
Proof.
  unfold Py.range. intros H. apply In_range_from in H as (k & Hk & ->).
  assert (Hq : k < (n - 16 - 0 + 4 - 1) / 4) by lia.
  assert (k * 4 + 4 <= n - 16 - 0 + 4 - 1).
  { pose proof (Z.mul_div_le (n - 16 - 0 + 4 - 1) 4 ltac:(lia)). lia. }
  lia.
Qed.

(** Among the offsets that pass the checks, [robust_scan] of
    [replace_sprites.py] returns one whose [chars] is maximal; it returns
    whenever one passes. *)
Lemma replace_robust_scan_spec (data : bytes) :
  (forall off block o,
      ReplaceSprites.robust_scan data = Some (off, block, o) ->
      In off (Py.range 0 (Py.len data - 16) 4)
      /\ ScanSpec.passes 1000 5000 0 data off o
      /\ forall off' o',
           In off' (Py.range 0 (Py.len data - 16) 4) ->
           ScanSpec.passes 1000 5000 0 data off' o' ->
           Sprites.chars_of o' <= Sprites.chars_of o)
  /\ ((exists off' o', In off' (Py.range 0 (Py.len data - 16) 4)
                       /\ ScanSpec.passes 1000 5000 0 data off' o') ->
      exists r, ReplaceSprites.robust_scan data = Some r).
Proof.
  split.
  - intros off block o H.
    apply replace_robust_scan_maximal in H as (Hin & Hc & Hmax).
    pose proof (scan_range_bounds _ _ Hin) as [Hoff _].
    split; [exact Hin|]. split.
    + apply replace_candidate_sound in Hc as (o1 & E & Hp); [|exact Hoff].
      inversion E; subst. exact Hp.
    + intros off' o' Hin' Hp'.
      pose proof (scan_range_bounds _ _ Hin') as [Hoff' _].
      eapply Hmax; [exact Hin'|].
      apply replace_candidate_passes; assumption.
  - intros (off' & o' & Hin' & Hp').
    unfold ReplaceSprites.robust_scan. rewrite replace_scan_gscan.
    destruct (gscan_total (ReplaceSprites.candidate data)
                (Py.range 0 (Py.len data - 16) 4) None) as [r Hr].
    + intros off Hin. apply scan_range_bounds in Hin as [? ?].
      apply replace_candidate_no_raise; lia.
    + rewrite Hr. apply gscan_spec in Hr. destruct r as [[[[sc o1] b1] o2]|].
      * eauto.
      * destruct Hr as [_ Hnone].
        pose proof (scan_range_bounds _ _ Hin') as [Hoff' _].
        specialize (Hnone off' Hin').
        rewrite (replace_candidate_passes data off' Hoff' o' Hp') in Hnone.
        discriminate.
Qed.

Lemma palette_robust_scan_spec (data : bytes) :
  (forall off block o,
      UpdatePalette.robust_scan data = Some (off, block, o) ->
      In off (Py.range 0 (Py.len data - 16) 4)
      /\ ScanSpec.passes 1000 5000 0 data off o
      /\ forall off' o',
           In off' (Py.range 0 (Py.len data - 16) 4) ->
           ScanSpec.passes 1000 5000 0 data off' o' ->
           Sprites.chars_of o' <= Sprites.chars_of o)
  /\ ((exists off' o', In off' (Py.range 0 (Py.len data - 16) 4)
                       /\ ScanSpec.passes 1000 5000 0 data off' o') ->
      exists r, UpdatePalette.robust_scan data = Some r).
Proof.
  split.
  - intros off block o H.
    apply palette_robust_scan_maximal in H as (Hin & Hc & Hmax).
    pose proof (scan_range_bounds _ _ Hin) as [Hoff _].
    split; [exact Hin|]. split.
    + apply palette_candidate_sound in Hc as (o1 & E & Hp); [|exact Hoff].
      inversion E; subst. exact Hp.
    + intros off' o' Hin' Hp'.
      pose proof (scan_range_bounds _ _ Hin') as [Hoff' _].
      eapply Hmax; [exact Hin'|].
      apply palette_candidate_passes; assumption.
  - intros (off' & o' & Hin' & Hp').
    unfold UpdatePalette.robust_scan. rewrite palette_scan_gscan.
    destruct (gscan_total (UpdatePalette.candidate data)
                (Py.range 0 (Py.len data - 16) 4) None) as [r Hr].
    + intros off Hin. apply scan_range_bounds in Hin as [? ?].
      apply palette_candidate_no_raise; lia.
    + rewrite Hr. apply gscan_spec in Hr. destruct r as [[[[sc o1] b1] o2]|].
      * eauto.
      * destruct Hr as [_ Hnone].
        pose proof (scan_range_bounds _ _ Hin') as [Hoff' _].
        specialize (Hnone off' Hin').
        rewrite (palette_candidate_passes data off' Hoff' o' Hp') in Hnone.
        discriminate.
Qed.

(** ** Buffers that end in zeros *)

Lemma range_cons (a b step : Z) :
  0 < step -> a < b -> Py.range a b step = a :: Py.range (a + step) b step.
Proof.
  intros Hs Hab. unfold Py.range.
  replace (b - a + step - 1) with ((b - (a + step) + step - 1) + 1 * step)
    by lia.
  rewrite Z.div_add by lia.
  assert (0 <= (b - (a + step) + step - 1) / step)
    by (apply Z.div_pos; lia).
  replace (Z.to_nat ((b - (a + step) + step - 1) / step + 1))
    with (S (Z.to_nat ((b - (a + step) + step - 1) / step))) by lia.
  reflexivity.
Qed.

Lemma byte_at_zero_tail (pre : bytes) (k : nat) (i : Z) :
  Py.len pre <= i -> byte_at (pre ++ repeat x00 k) i = 0.
Proof.
  intros Hi. unfold byte_at. unfold Py.len in Hi.
  rewrite app_nth2 by lia. now rewrite nth_repeat.
Qed.

Lemma le32_zero_tail (pre : bytes) (k : nat) (o : Z) :
  Py.len pre <= o -> o + 4 <= Py.len (pre ++ repeat x00 k) ->
  le32 (pre ++ repeat x00 k) o = Some 0.
Proof.
  intros H1 H2. unfold le32.
  rewrite struct_offset_inside by llia.
  rewrite !byte_at_zero_tail by lia. reflexivity.
Qed.

Lemma header_zero_tail (pre : bytes) (k : nat) (off : Z) :
  Py.len pre <= off -> off + 16 <= Py.len (pre ++ repeat x00 k) ->
  Sprites.header (pre ++ repeat x00 k) off = Some (0, 0, 0, 0).
Proof.
  intros H1 H2. unfold Sprites.header.
  rewrite !le32_zero_tail by llia. reflexivity.
Qed.

(** No offset passes where the header words are zero. *)
Lemma zero_header_fails (lo hi mc : Z) (data : bytes) (off : Z)
      (o : Sprites.offsets) :
  Sprites.header data off = Some (0, 0, 0, 0) ->
  ~ ScanSpec.passes lo hi mc data off o.
Proof.
  intros Hz (Hh & Hinc & _). rewrite Hz in Hh. apply Some_inj in Hh; subst o.
  discriminate Hinc.
Qed.

Lemma first_candidate_head (data : bytes) (off : Z) (rest : list Z)
      (r : Z * ExportSprites.parsed) :
  ExportSprites.candidate data off = Some r ->
  ExportSprites.first_candidate data (off :: rest) = Some r.
Proof. intros H. cbn [ExportSprites.first_candidate]. now rewrite H. Qed.

(** *** C4: which candidate the package scan returns *)

Lemma two_packages_len : Py.len Inputs.two_packages = 6170.
Proof. vm_compute; reflexivity. Qed.

Lemma two_packages_a (lo hi mc : Z) :
  lo <= 1000 <= hi -> mc <= 64 ->
  ScanSpec.passes lo hi mc Inputs.two_packages 0 Inputs.package_a.
Proof.
  intros H1 H2. unfold ScanSpec.passes.
  split; [vm_compute; reflexivity|].
  split; [vm_compute; reflexivity|].
  split; [vm_compute; reflexivity|].
  change (ScanSpec.num_images Inputs.package_a) with 1000.
  change (ScanSpec.num_colors Inputs.package_a) with 64.
  split; [lia|]. split; [lia|].
  exists 0; split; [vm_compute; reflexivity | vm_compute; reflexivity].
Qed.

Lemma two_packages_b (lo hi mc : Z) :
  lo <= 1000 <= hi -> mc <= 65 ->
  ScanSpec.passes lo hi mc Inputs.two_packages 16 Inputs.package_b.
Proof.
  intros H1 H2. unfold ScanSpec.passes.
  split; [vm_compute; reflexivity|].
  split; [vm_compute; reflexivity|].
  split; [vm_compute; reflexivity|].
  change (ScanSpec.num_images Inputs.package_b) with 1000.
  change (ScanSpec.num_colors Inputs.package_b) with 65.
  split; [lia|]. split; [lia|].
  exists 0; split; [vm_compute; reflexivity | vm_compute; reflexivity].
Qed.

(** The two headers are the only offsets of [two_packages] that pass. *)
Lemma two_packages_only (lo hi mc off : Z) (o : Sprites.offsets) :
  In off (Py.range 0 (Py.len Inputs.two_packages - 16) 4) ->
  ScanSpec.passes lo hi mc Inputs.two_packages off o ->
  (off = 0 /\ o = Inputs.package_a) \/ (off = 16 /\ o = Inputs.package_b).
Proof.
  intros Hin Hp. pose proof (scan_range_bounds _ _ Hin) as [H0 H1].
  rewrite two_packages_len in H1.
  unfold Py.range in Hin. apply In_range_from in Hin as (k & Hk & ->).
  assert (Hcases : k = 0 \/ k = 1 \/ k = 2 \/ k = 3 \/ k = 4 \/ k = 5
                   \/ k = 6 \/ k = 7 \/ 8 <= k) by lia.
  destruct Hcases as [-> | [-> | [-> | [-> | [-> | [-> | [-> | [-> | Hk8]]]]]]]].
  1: { left. destruct Hp as (Hh & _). vm_compute in Hh.
       apply Some_inj in Hh. now split. }
  4: { right. destruct Hp as (Hh & _). vm_compute in Hh.
       apply Some_inj in Hh. now split. }
  1-6: destruct Hp as (Hh & Hinc & _); vm_compute in Hh;
       apply Some_inj in Hh; subst o; vm_compute in Hinc; discriminate Hinc.
  exfalso. revert Hp. apply zero_header_fails.
  unfold Inputs.two_packages.
  apply header_zero_tail.
  - change (Py.len (bytes_of _)) with 32. lia.
  - fold Inputs.two_packages. rewrite two_packages_len. lia.
Qed.


Lemma two_packages_in16 :
  In 16 (Py.range 0 (Py.len Inputs.two_packages - 16) 4).
Proof.
  rewrite two_packages_len. vm_compute. do 4 right. left. reflexivity.
Qed.

Lemma two_packages_export_scan :
  ScanSpec.summary (ExportSprites.scan_for_package Inputs.two_packages)
  = Some (0, 6152).
Proof.
  assert (B1 : 500 <= 1000 <= 10000) by lia.
  assert (B2 : 64 <= 64) by lia.
  assert (B3 : 0 <= 0) by lia.
  destruct (export_candidate_passes Inputs.two_packages 0 B3
              Inputs.package_a (two_packages_a 500 10000 64 B1 B2))
    as (im & sp & pl & Hc).
  unfold ExportSprites.scan_for_package.
  rewrite two_packages_len.
  rewrite range_cons by reflexivity.
  set (rest := Py.range _ _ _).
  rewrite (first_candidate_head Inputs.two_packages 0 rest _ Hc).
  reflexivity.
Qed.

(** Whatever a best-candidate scan returns on [two_packages], it is the
    package at 16. *)
Lemma two_packages_best (off : Z) (o : Sprites.offsets) :
  In off (Py.range 0 (Py.len Inputs.two_packages - 16) 4) ->
  ScanSpec.passes 1000 5000 0 Inputs.two_packages off o ->
  Sprites.chars_of Inputs.package_b <= Sprites.chars_of o ->
  off = 16 /\ o = Inputs.package_b.
Proof.
  intros Hin Hp Hmax.
  destruct (two_packages_only _ _ _ _ _ Hin Hp) as [[-> ->] | [-> ->]].
  - exfalso. apply Hmax. reflexivity.
  - now split.
Qed.

Lemma two_packages_b_robust :
  ScanSpec.passes 1000 5000 0 Inputs.two_packages 16 Inputs.package_b.
Proof.
  assert (B1 : 1000 <= 1000 <= 5000) by lia.
  assert (B2 : 0 <= 65) by lia.
  exact (two_packages_b 1000 5000 0 B1 B2).
Qed.

Lemma two_packages_replace_scan :
  ScanSpec.summary3 (ReplaceSprites.robust_scan Inputs.two_packages)
  = Some (16, 6154).
Proof.
  destruct (replace_robust_scan_spec Inputs.two_packages) as [Hmax Hex].
  destruct Hex as [[[off block] o] Hr].
  { exists 16, Inputs.package_b.
    split; [exact two_packages_in16 | exact two_packages_b_robust]. }
  rewrite Hr. destruct (Hmax _ _ _ Hr) as (Hin & Hp & Hall).
  specialize (Hall 16 Inputs.package_b two_packages_in16 two_packages_b_robust).
  destruct (two_packages_best _ _ Hin Hp Hall) as [-> ->]. reflexivity.
Qed.

Lemma two_packages_palette_scan :
  ScanSpec.summary3 (UpdatePalette.robust_scan Inputs.two_packages)
  = Some (16, 6154).
Proof.
  destruct (palette_robust_scan_spec Inputs.two_packages) as [Hmax Hex].
  destruct Hex as [[[off block] o] Hr].
  { exists 16, Inputs.package_b.
    split; [exact two_packages_in16 | exact two_packages_b_robust]. }
  rewrite Hr. destruct (Hmax _ _ _ Hr) as (Hin & Hp & Hall).
  specialize (Hall 16 Inputs.package_b two_packages_in16 two_packages_b_robust).
  destruct (two_packages_best _ _ Hin Hp Hall) as [-> ->]. reflexivity.
Qed.

Lemma two_packages_a_export :
  ScanSpec.passes 500 10000 64 Inputs.two_packages 0 Inputs.package_a.
Proof.
  assert (B1 : 500 <= 1000 <= 10000) by lia.
  assert (B2 : 64 <= 64) by lia.
  exact (two_packages_a 500 10000 64 B1 B2).
Qed.

Lemma two_packages_b_export :
  ScanSpec.passes 500 10000 64 Inputs.two_packages 16 Inputs.package_b.
Proof.
  assert (B1 : 500 <= 1000 <= 10000) by lia.
  assert (B2 : 64 <= 65) by lia.
  exact (two_packages_b 500 10000 64 B1 B2).
Qed.

(** C4 at the buffer [two_packages]: the offsets 0 and 16 both pass every
    structural check, for the bounds of [scan_for_package] and for those
    of [robust_scan], with [chars] 6152 and 6154.  [scan_for_package] of
    [export_sprites.py] returns the package at 0, the first one; both
    [robust_scan]s return the package at 16, whose [chars] is maximal. *)
Theorem scan_for_package_returns_first :
  ScanSpec.passes 500 10000 64 Inputs.two_packages 0 Inputs.package_a
  /\ ScanSpec.passes 500 10000 64 Inputs.two_packages 16 Inputs.package_b
  /\ Sprites.chars_of Inputs.package_a < Sprites.chars_of Inputs.package_b
  /\ ScanSpec.summary (ExportSprites.scan_for_package Inputs.two_packages)
     = Some (0, 6152)
  /\ ScanSpec.summary3 (ReplaceSprites.robust_scan Inputs.two_packages)
     = Some (16, 6154)
  /\ ScanSpec.summary3 (UpdatePalette.robust_scan Inputs.two_packages)
     = Some (16, 6154).
Proof.
  exact (conj two_packages_a_export
        (conj two_packages_b_export
        (conj (eq_refl : (6152 ?= 6154) = Lt)
        (conj two_packages_export_scan
        (conj two_packages_replace_scan two_packages_palette_scan))))).
Qed.

(** ** Bit operations as arithmetic *)

Lemma shiftl_pow (a n : Z) : 0 <= n -> Z.shiftl a n = a * 2 ^ n.
Proof. intros; now apply Z.shiftl_mul_pow2. Qed.

Lemma shiftr_pow (a n : Z) : 0 <= n -> Z.shiftr a n = a / 2 ^ n.
Proof. intros; now apply Z.shiftr_div_pow2. Qed.

Lemma land_mask (a n : Z) : 0 <= n -> Z.land a (Z.shiftl 1 n - 1) = a mod 2 ^ n.
Proof.
  intros Hn. rewrite <- Z.land_ones by exact Hn.
  unfold Z.ones. now rewrite Z.sub_1_r.
Qed.

Lemma land_255 (a : Z) : Z.land a 255 = a mod 2 ^ 8.
Proof. now rewrite <- (land_mask a 8) by lia. Qed.

(** Bits put below a shifted number add to it. *)
Lemma lor_shifted (a v n : Z) :
  0 <= n -> 0 <= v < 2 ^ n -> Z.lor (a * 2 ^ n) v = a * 2 ^ n + v.
Proof.
  intros Hn Hv.
  assert (Hl : Z.land (a * 2 ^ n) v = 0).
  { rewrite <- shiftl_pow by exact Hn.
    rewrite <- (Z.mod_small v (2 ^ n)) by exact Hv.
    rewrite <- Z.land_ones by exact Hn.
    apply Z.bits_inj'. intros i Hi.
    rewrite !Z.land_spec, Z.bits_0.
    destruct (Z.lt_ge_cases i n) as [Hlt | Hge].
    - rewrite Z.shiftl_spec_low by exact Hlt. reflexivity.
    - rewrite Z.ones_spec_high by lia.
      now rewrite !andb_false_r. }
  rewrite <- Z.lxor_lor by exact Hl.
  symmetry. now apply Z.add_nocarry_lxor.
Qed.

Lemma pow2_pos (n : Z) : 0 <= n -> 0 < 2 ^ n.
Proof. intros; apply Z.pow_pos_nonneg; lia. Qed.

(** ** Digit strings *)

Lemma value_from_app (B v : Z) (l1 l2 : list Z) :
  Bits.value_from B v (l1 ++ l2) = Bits.value_from B (Bits.value_from B v l1) l2.
Proof. unfold Bits.value_from. apply fold_left_app. Qed.

Lemma value_snoc (B : Z) (l : list Z) (x : Z) :
  Bits.value B (l ++ [x]) = Bits.value B l * B + x.
Proof. unfold Bits.value. rewrite value_from_app. reflexivity. Qed.

Lemma value_nonneg (B : Z) (l : list Z) :
  0 < B -> Bits.digits B l -> 0 <= Bits.value B l.
Proof.
  intros HB. induction l as [|x l IH] using rev_ind; intros Hd.
  - cbn. lia.
  - apply Forall_app in Hd as [Hl Hx]. inversion Hx; subst.
    rewrite value_snoc. specialize (IH Hl). nia.
Qed.

(** Two digit strings of one length that spell one number are equal. *)
Lemma value_inj (B : Z) (l1 l2 : list Z) :
  0 < B -> List.length l1 = List.length l2 ->
  Bits.digits B l1 -> Bits.digits B l2 ->
  Bits.value B l1 = Bits.value B l2 -> l1 = l2.
Proof.
  intros HB. revert l2. induction l1 as [|x l1 IH] using rev_ind; intros l2 Hlen H1 H2 Hv.
  - destruct l2; [reflexivity | discriminate].
  - destruct l2 as [|y l2] using rev_ind.
    + rewrite length_app in Hlen. cbn in Hlen. lia.
    + clear IHl2. rewrite !length_app in Hlen. cbn in Hlen.
      apply Forall_app in H1 as [H1 Hx]. apply Forall_app in H2 as [H2 Hy].
      inversion Hx; subst. inversion Hy; subst.
      rewrite !value_snoc in Hv.
      assert (Hv' : Bits.value B l1 = Bits.value B l2).
      { destruct (Z.lt_trichotomy (Bits.value B l1) (Bits.value B l2))
          as [Hlt | [He | Hgt]]; [nia | exact He | nia]. }
      assert (x = y) as -> by (rewrite Hv' in Hv; lia).
      f_equal. apply IH; [lia | assumption | assumption | exact Hv'].
Qed.

(** ** The packer writes the digits of its input *)

Lemma bytes_value_snoc (out : bytes) (b : byte) :
  Bits.bytes_value (out ++ [b]) = Bits.bytes_value out * 256 + byte_val b.
Proof. unfold Bits.bytes_value. rewrite map_app. apply value_snoc. Qed.

Lemma pow2_split (n : Z) : 8 <= n -> 2 ^ n = 2 ^ (n - 8) * 256.
Proof.
  intros Hn. replace n with ((n - 8) + 8) at 1 by lia.
  rewrite Z.pow_add_r by lia. reflexivity.
Qed.

(** The state [(out, acc, accbits)] of the packer spells the number [V] in
    [8 * len out + accbits] bits. *)
Lemma flush_spec (fuel : nat) (out : bytes) (acc accbits : Z) :
  0 <= accbits -> 0 <= acc < 2 ^ accbits ->
  (Z.to_nat (accbits / 8) <= fuel)%nat ->
  exists out' acc' accbits',
    Pixels.flush fuel out acc accbits = (out', acc', accbits')
    /\ 0 <= accbits' < 8 /\ 0 <= acc' < 2 ^ accbits'
    /\ Bits.bytes_value out' * 2 ^ accbits' + acc'
       = Bits.bytes_value out * 2 ^ accbits + acc
    /\ 8 * Py.len out' + accbits' = 8 * Py.len out + accbits.
Proof.
  revert out acc accbits.
  induction fuel as [|f IH]; intros out acc accbits Hb Ha Hf.
  - assert (accbits / 8 <= 0) by lia.
    assert (accbits < 8).
    { destruct (Z.lt_ge_cases accbits 8) as [?|Hge]; [assumption|].
      pose proof (Z.div_le_mono 8 accbits 8 ltac:(lia) Hge) as Hd.
      change (8 / 8) with 1 in Hd. lia. }
    exists out, acc, accbits. cbn [Pixels.flush]. repeat split; lia.
  - cbn [Pixels.flush]. destruct (accbits >=? 8) eqn:E.
    + assert (Hge : 8 <= accbits) by lia.
      pose proof (pow2_split accbits Hge) as Hp.
      pose proof (pow2_pos (accbits - 8) ltac:(lia)) as Hpos.
      rewrite land_255, shiftr_pow, land_mask by lia.
      assert (Hq : 0 <= acc / 2 ^ (accbits - 8) < 256).
      { split; [apply Z.div_pos; lia|].
        apply Z.div_lt_upper_bound; [lia|]. lia. }
      change (2 ^ 8) with 256. rewrite (Z.mod_small _ 256) by exact Hq.
      pose proof (Z.mod_pos_bound acc (2 ^ (accbits - 8)) Hpos) as Hm.
      destruct (IH (out ++ [byte_of (acc / 2 ^ (accbits - 8))])
                   (acc mod 2 ^ (accbits - 8)) (accbits - 8))
        as (out' & acc' & ab' & Hfl & Hab & Hacc & Hval & Hlen);
        [lia | exact Hm | |].
      { replace (accbits - 8) with (accbits + (-1) * 8) by lia.
        rewrite Z.div_add by lia. lia. }
      exists out', acc', ab'. split; [exact Hfl|].
      split; [exact Hab|]. split; [exact Hacc|]. split.
      * rewrite Hval, bytes_value_snoc, byte_val_of by exact Hq.
        rewrite Hp.
        pose proof (Z.div_mod acc (2 ^ (accbits - 8)) ltac:(lia)). nia.
      * rewrite Hlen, len_app, len_cons. change (Py.len (@nil byte)) with 0. lia.
    + exists out, acc, accbits. repeat split; lia.
Qed.

Section PackLoop.
Variable bpp : Z.
Hypothesis bpp_nonneg : 0 <= bpp.

Local Abbreviation B := (2 ^ bpp).
Local Abbreviation mask := (Z.shiftl 1 bpp - 1).

Lemma pack_loop_spec (it : list Z) (out : bytes) (acc accbits : Z) :
  0 <= accbits < 8 -> 0 <= acc < 2 ^ accbits -> Bits.digits B it ->
  exists out' acc' accbits',
    Pixels.pack_loop (List.length it) it bpp mask out acc accbits
    = Some (out', acc', accbits')
    /\ 0 <= accbits' < 8 /\ 0 <= acc' < 2 ^ accbits'
    /\ Bits.bytes_value out' * 2 ^ accbits' + acc'
       = Bits.value_from B (Bits.bytes_value out * 2 ^ accbits + acc) it
    /\ 8 * Py.len out' + accbits'
       = 8 * Py.len out + accbits + bpp * Py.len it.
Proof.
  revert out acc accbits.
  induction it as [|x it IH]; intros out acc accbits Hb Ha Hd.
  - exists out, acc, accbits. cbn [List.length Pixels.pack_loop].
    change (Py.len (@nil Z)) with 0. repeat split; try lia.
  - inversion Hd as [|? ? Hx Hd']; subst.
    cbn [List.length Pixels.pack_loop].
    pose proof (pow2_pos bpp bpp_nonneg) as HB.
    pose proof (pow2_pos accbits ltac:(lia)) as HA.
    rewrite land_mask, (Z.mod_small x) by lia.
    rewrite shiftl_pow, lor_shifted by lia.
    assert (Hacc1 : 0 <= acc * B + x < 2 ^ (accbits + bpp)).
    { rewrite Z.pow_add_r by lia. nia. }
    destruct (flush_spec (Z.to_nat ((accbits + bpp) / 8)) out
                (acc * B + x) (accbits + bpp))
      as (o1 & a1 & b1 & -> & Hb1 & Ha1 & Hv1 & Hl1); [lia | exact Hacc1 | lia |].
    destruct (IH o1 a1 b1 Hb1 Ha1 Hd')
      as (o2 & a2 & b2 & -> & Hb2 & Ha2 & Hv2 & Hl2).
    exists o2, a2, b2. split; [reflexivity|].
    split; [exact Hb2|]. split; [exact Ha2|]. split.
    + rewrite Hv2, Hv1. unfold Bits.value_from. cbn [fold_left].
      f_equal. rewrite Z.pow_add_r by lia. ring.
    + rewrite Hl2, Hl1, len_cons. lia.
Qed.

(** [pack_bits_msb] returns the digits of [v], most significant first,
    followed by fewer than eight zero bits up to the next byte. *)
Lemma pack_bits_msb_spec (v : list Z) (w h : Z) :
  w * h = Py.len v -> Bits.digits B v ->
  exists b pad,
    Pixels.pack_bits_msb v w h bpp = Some b
    /\ 0 <= pad < 8
    /\ Bits.bytes_value b = Bits.value B v * 2 ^ pad
    /\ 8 * Py.len b = bpp * Py.len v + pad.
Proof.
  intros Hwh Hd. unfold Pixels.pack_bits_msb.
  destruct (bpp <? 0) eqn:E; [lia|].
  replace (Z.to_nat (w * h)) with (List.length v)
    by (rewrite Hwh; unfold Py.len; lia).
  destruct (pack_loop_spec v [] 0 0 ltac:(lia) ltac:(cbn; lia) Hd)
    as (out & acc & ab & -> & Hab & Hacc & Hval & Hlen).
  change (Bits.bytes_value [] * 2 ^ 0 + 0) with 0 in Hval.
  fold (Bits.value B v) in Hval.
  change (Py.len (@nil byte)) with 0 in Hlen.
  destruct (ab >? 0) eqn:Epos.
  - (* a partial byte is left *)
    assert (Hlast : 0 <= acc * 2 ^ (8 - ab) < 256).
    { pose proof (pow2_pos (8 - ab) ltac:(lia)).
      replace 256 with (2 ^ ab * 2 ^ (8 - ab))
        by (rewrite <- Z.pow_add_r by lia; replace (ab + (8 - ab)) with 8 by lia;
            reflexivity).
      nia. }
    rewrite land_255, shiftl_pow by lia.
    change (2 ^ 8) with 256. rewrite (Z.mod_small _ 256) by exact Hlast.
    set (b := out ++ [byte_of (acc * 2 ^ (8 - ab))]).
    assert (Hbl : 8 * Py.len b = bpp * Py.len v + (8 - ab)).
    { unfold b. rewrite len_app, len_cons. change (Py.len (@nil byte)) with 0. lia. }
    assert (Hnb : Py.len b = (w * h * bpp + 7) / 8).
    { rewrite Hwh. apply Z.div_unique with (r := ab - 1); lia. }
    rewrite Hnb, Z.eqb_refl. cbn [negb].
    exists b, (8 - ab). split; [reflexivity|]. split; [lia|].
    split; [|exact Hbl].
    unfold b. rewrite bytes_value_snoc, byte_val_of by exact Hlast.
    rewrite <- Hval.
    replace 256 with (2 ^ ab * 2 ^ (8 - ab))
      by (rewrite <- Z.pow_add_r by lia; replace (ab + (8 - ab)) with 8 by lia;
          reflexivity).
    ring.
  - assert (ab = 0) by lia. subst ab.
    assert (Hnb : Py.len out = (w * h * bpp + 7) / 8).
    { rewrite Hwh. apply Z.div_unique with (r := 7); lia. }
    rewrite Hnb, Z.eqb_refl. cbn [negb].
    exists out, 0. split; [reflexivity|]. split; [lia|].
    split; [|lia]. rewrite <- Hval. change (2 ^ 0) with 1. lia.
Qed.

End PackLoop.

(** ** The unpacker reads the digits back *)

Section Unpack.
Variable bpp : Z.
Variable n : Z.
Hypothesis bpp_pos : 1 <= bpp.

Local Abbreviation B := (2 ^ bpp).

Lemma emit_spec (fuel : nat) (vals : list Z) (acc accbits P j : Z) :
  0 <= accbits -> 0 <= acc < 2 ^ accbits ->
  Bits.value B vals * 2 ^ accbits + acc = P ->
  bpp * Py.len vals + accbits = j ->
  Bits.digits B vals -> Py.len vals <= n ->
  (Z.to_nat accbits <= fuel)%nat ->
  Bits.unpack_inv bpp n (Pixels.emit fuel bpp n vals acc accbits) P j.
Proof.
  revert vals acc accbits.
  induction fuel as [|f IH]; intros vals acc accbits Hb Ha Hv Hj Hd Hn Hf.
  - cbn [Pixels.emit]. unfold Bits.unpack_inv. repeat split; try assumption; try lia.
  - cbn [Pixels.emit].
    destruct ((accbits >=? bpp) && (Py.len vals <? n)) eqn:E.
    + apply andb_true_iff in E as [E1 E2].
      assert (Hge : bpp <= accbits) by lia.
      pose proof (pow2_pos (accbits - bpp) ltac:(lia)) as Hpos.
      pose proof (pow2_pos bpp ltac:(lia)) as HB.
      assert (Hp : 2 ^ accbits = 2 ^ (accbits - bpp) * B).
      { rewrite <- Z.pow_add_r by lia. f_equal. lia. }
      rewrite shiftr_pow, !land_mask by lia.
      assert (Hq : 0 <= acc / 2 ^ (accbits - bpp) < B).
      { split; [apply Z.div_pos; lia|].
        apply Z.div_lt_upper_bound; [lia|]. lia. }
      rewrite (Z.mod_small _ B) by exact Hq.
      pose proof (Z.mod_pos_bound acc (2 ^ (accbits - bpp)) Hpos) as Hm.
      assert (G1 : Bits.value B (vals ++ [acc / 2 ^ (accbits - bpp)])
                   * 2 ^ (accbits - bpp) + acc mod 2 ^ (accbits - bpp) = P).
      { rewrite value_snoc, <- Hv, Hp.
        pose proof (Z.div_mod acc (2 ^ (accbits - bpp)) ltac:(lia)). nia. }
      assert (G2 : Py.len (vals ++ [acc / 2 ^ (accbits - bpp)])
                   = Py.len vals + 1).
      { rewrite len_app, len_cons. change (Py.len (@nil Z)) with 0. lia. }
      assert (G3 : Bits.digits B (vals ++ [acc / 2 ^ (accbits - bpp)])).
      { apply Forall_app. split; [exact Hd|].
        constructor; [exact Hq | constructor]. }
      apply IH; [lia | exact Hm | exact G1 | rewrite G2; lia | exact G3
                | rewrite G2; lia | lia].
    + unfold Bits.unpack_inv. repeat split; try assumption; try lia.
Qed.

Lemma unpack_loop_spec (buf : bytes) (st : list Z * Z * Z) (P j : Z) :
  Bits.unpack_inv bpp n st P j ->
  Bits.unpack_inv bpp n (Pixels.unpack_loop buf bpp n (fst (fst st)) (snd (fst st)) (snd st))
             (Bits.value_from 256 P (map byte_val buf))
             (j + 8 * Py.len buf).
Proof.
  revert st P j. induction buf as [|byte rest IH]; intros [[vals acc] ab] P j Hinv.
  - cbn [Pixels.unpack_loop fst snd map]. change (Py.len (@nil byte)) with 0.
    unfold Bits.value_from; cbn [fold_left]. now rewrite Z.mul_0_r, Z.add_0_r.
  - cbn [fst snd]. cbn [Pixels.unpack_loop].
    destruct Hinv as (Hb & Ha & Hv & Hj & Hd & Hn & _).
    pose proof (byte_val_range byte) as Hbyte.
    rewrite shiftl_pow by lia.
    rewrite (lor_shifted acc (byte_val byte) 8) by (change (2 ^ 8) with 256; lia).
    change (2 ^ 8) with 256.
    pose proof (pow2_pos ab Hb) as Hpos.
    assert (Hinv1 : Bits.unpack_inv bpp n
                      (Pixels.emit (Z.to_nat (ab + 8)) bpp n vals
                                   (acc * 256 + byte_val byte) (ab + 8))
                      (P * 256 + byte_val byte) (j + 8)).
    { apply emit_spec; try lia; try assumption.
      - rewrite Z.pow_add_r by lia. change (2 ^ 8) with 256. nia.
      - rewrite Z.pow_add_r by lia. change (2 ^ 8) with 256. rewrite <- Hv. ring. }
    destruct (Pixels.emit _ _ _ _ _ _) as [[v1 a1] b1].
    specialize (IH (v1, a1, b1) _ _ Hinv1). cbn [fst snd] in IH.
    cbn [map]. unfold Bits.value_from in *. cbn [fold_left].
    rewrite len_cons. replace (j + 8 * (1 + Py.len rest)) with (j + 8 + 8 * Py.len rest) by lia.
    exact IH.
Qed.

End Unpack.

(** The round trip, for any depth of at least one bit. *)
Lemma pack_unpack (w h bpp : Z) (v : list Z) :
  1 <= bpp -> w * h = Py.len v -> Bits.digits (2 ^ bpp) v ->
  exists b, Pixels.pack_bits_msb v w h bpp = Some b
            /\ Pixels.unpack_bits b w h bpp = v.
Proof.
  intros Hbpp Hwh Hd.
  destruct (pack_bits_msb_spec bpp ltac:(lia) v w h Hwh Hd)
    as (b & pad & Hpack & Hpad & Hval & Hlen).
  exists b. split; [exact Hpack|].
  unfold Pixels.unpack_bits.
  pose proof (unpack_loop_spec bpp (w * h) Hbpp b ([], 0, 0) 0 0) as Hu.
  cbn [fst snd] in Hu.
  destruct (Pixels.unpack_loop b bpp (w * h) [] 0 0) as [[vals acc] ab].
  destruct Hu as (Hb & Ha & Hv & Hj & Hdv & Hn & Hend).
  { unfold Bits.unpack_inv. change (Py.len (@nil Z)) with 0. cbn.
    pose proof (len_nonneg v). repeat split; try lia. constructor. }
  fold (Bits.value 256 (map byte_val b)) in Hv.
  fold (Bits.bytes_value b) in Hv.
  pose proof (len_nonneg vals) as Hlv.
  assert (Hfull : Py.len vals = Py.len v).
  { destruct Hend as [Hlt | He]; [|lia].
    rewrite Hwh in Hn.
    destruct (Z.eq_dec (Py.len vals) (Py.len v)) as [?|Hne]; [assumption|].
    exfalso.
    assert (bpp * (Py.len v - Py.len vals) = ab - pad) by lia.
    assert (1 <= Py.len v - Py.len vals) by lia. nia. }
  assert (ab = pad) by nia. subst ab.
  destruct (Py.len vals <? w * h) eqn:E; [lia|].
  pose proof (pow2_pos bpp ltac:(lia)) as HB.
  pose proof (pow2_pos pad ltac:(lia)) as HP.
  apply (value_inj (2 ^ bpp)); try assumption.
  - unfold Py.len in Hfull. lia.
  - rewrite Hval in Hv.
    destruct (Z.lt_trichotomy (Bits.value (2 ^ bpp) vals) (Bits.value (2 ^ bpp) v))
      as [Hlt | [He | Hgt]]; [nia | exact He | nia].
Qed.

(** *** C7: packing then unpacking *)

(** C7: for every width and height of at least 1, every depth among 2, 4,
    6 and 8 bits, and every sequence [v] of [w*h] index values below
    [2^bpp], [pack_bits_msb] returns bytes, and unpacking them for the
    same [(w, h, bpp)] yields exactly [v]. *)
Theorem pack_unpack_roundtrip (w h bpp : Z) (v : list Z) :
  1 <= w -> 1 <= h -> In bpp [2; 4; 6; 8] ->
  Py.len v = w * h ->
  Forall (fun x => 0 <= x < 2 ^ bpp) v ->
  exists b, Pixels.pack_bits_msb v w h bpp = Some b
            /\ Pixels.unpack_bits b w h bpp = v.
Proof.
  intros _ _ Hbpp Hlen Hd.
  apply pack_unpack; [|symmetry; exact Hlen | exact Hd].
  cbn [In] in Hbpp. lia.
Qed.

Lemma pack_unpack_roundtrip_witness :
  exists b, Pixels.pack_bits_msb [1; 63; 5] 3 1 6 = Some b
            /\ Pixels.unpack_bits b 3 1 6 = [1; 63; 5].
Proof.
  apply (pack_unpack_roundtrip 3 1 6 [1; 63; 5]).
  - lia.
  - lia.
  - cbn [In]. right; right; left; reflexivity.
  - reflexivity.
  - repeat constructor; cbn; lia.
Defined.

(** ** The ADPCM codec *)

Lemma if_clamp (lo hi x : Z) :
  lo <= hi ->
  (if x <? lo then lo else if x >? hi then hi else x) = Adpcm.clamp lo hi x.
Proof.
  intros H. unfold Adpcm.clamp.
  destruct (x <? lo) eqn:E1; [lia|]. destruct (x >? hi) eqn:E2; lia.
Qed.

Lemma step_table_index (si step : Z) :
  Py.index Adpcm.step_table si = Some step ->
  (-16 <= si <= 15) /\ 16 <= step <= 66.
Proof.
  unfold Py.index. destruct (si <? 0) eqn:E.
  - destruct ((0 <=? si + Py.len Adpcm.step_table)
              && (si + Py.len Adpcm.step_table <? Py.len Adpcm.step_table)) eqn:E2;
      [|discriminate].
    change (Py.len Adpcm.step_table) with 16 in *.
    apply andb_true_iff in E2 as [E3 E4].
    assert (Hc : si = -16 \/ si = -15 \/ si = -14 \/ si = -13 \/ si = -12
                 \/ si = -11 \/ si = -10 \/ si = -9 \/ si = -8 \/ si = -7
                 \/ si = -6 \/ si = -5 \/ si = -4 \/ si = -3 \/ si = -2
                 \/ si = -1) by lia.
    intros H.
    repeat (destruct Hc as [-> | Hc];
            [cbn in H; apply Some_inj in H; subst step; lia|]).
    subst si. cbn in H. apply Some_inj in H; subst step; lia.
  - destruct ((0 <=? si) && (si <? Py.len Adpcm.step_table)) eqn:E2;
      [|discriminate].
    change (Py.len Adpcm.step_table) with 16 in *.
    apply andb_true_iff in E2 as [E3 E4].
    assert (Hc : si = 0 \/ si = 1 \/ si = 2 \/ si = 3 \/ si = 4 \/ si = 5
                 \/ si = 6 \/ si = 7 \/ si = 8 \/ si = 9 \/ si = 10
                 \/ si = 11 \/ si = 12 \/ si = 13 \/ si = 14 \/ si = 15) by lia.
    intros H.
    repeat (destruct Hc as [-> | Hc];
            [cbn in H; apply Some_inj in H; subst step; lia|]).
    subst si. cbn in H. apply Some_inj in H; subst step; lia.
Qed.

Lemma track_eq (lo hi x y s : Z) :
  x = y ->
  Some ((Adpcm.clamp lo hi x, s), Adpcm.clamp lo hi x * 16)
  = Some ((Adpcm.clamp lo hi y, s), Adpcm.clamp lo hi y * 16).
Proof. now intros ->. Qed.

Ltac eval_closed :=
  repeat match goal with
    | |- context [Z.lor ?a ?b] =>
        let v := eval vm_compute in (Z.lor a b) in change (Z.lor a b) with v
    | |- context [Z.land ?a ?b] =>
        let v := eval vm_compute in (Z.land a b) in change (Z.land a b) with v
    | |- context [negb (?a =? 0)] =>
        let v := eval vm_compute in (negb (a =? 0)) in
        change (negb (a =? 0)) with v
    end; cbv iota.

(** The decoder, given the nibble the encoder chose, moves to the state
    the encoder moved to and emits sixteen times its predictor. *)
Lemma decode_tracks_encode (st st' : Adpcm.state) (sample nib : Z) :
  Adpcm.encode_sample st sample = Some (st', nib) ->
  Adpcm.decode_nibble st nib = Some (st', fst st' * 16).
Proof.
  destruct st as [p si]. unfold Adpcm.encode_sample, Adpcm.decode_nibble.
  cbv zeta.
  destruct (sample - p <? 0); cbv iota beta;
    (destruct (Py.index Adpcm.step_table si) as [step|]; [|discriminate]);
    destruct (_ >=? step); cbv iota beta;
    destruct (_ >=? Z.shiftr step 1); cbv iota beta;
    destruct (_ >=? Z.shiftr step 2); cbv iota beta;
    intros H; apply Some_inj in H; injection H as <- <-;
    eval_closed; cbn [fst];
    rewrite !if_clamp by (unfold Adpcm.max_amp; lia);
    apply track_eq; ring.
Qed.

Ltac eval_table :=
  repeat match goal with
    | |- context [Py.index Adpcm.step_table ?a] =>
        let v := eval vm_compute in (Py.index Adpcm.step_table a) in
        change (Py.index Adpcm.step_table a) with v
    end;
  cbv iota beta;
  repeat match goal with
    | |- context [Z.shiftr ?a ?b] =>
        let v := eval vm_compute in (Z.shiftr a b) in
        change (Z.shiftr a b) with v
    end.

Ltac destruct_if :=
  match goal with
  | |- context [if ?c then _ else _] => destruct c eqn:?
  end.

(** One encoder step on a target within 38 of the predictor lands within
    8 of the target. *)
Lemma encode_sample_close (p si q : Z) :
  0 <= si <= 15 -> -2047 <= p <= 2047 -> -2047 <= q <= 2047 ->
  Z.abs (q - p) <= 38 ->
  exists p' si' nib,
    Adpcm.encode_sample (p, si) q = Some ((p', si'), nib)
    /\ 0 <= si' <= 15 /\ -2047 <= p' <= 2047 /\ Z.abs (q - p') <= 8
    /\ 0 <= nib <= 15.
Proof.
  intros Hsi Hp Hq Hd.
  assert (Hc : si = 0 \/ si = 1 \/ si = 2 \/ si = 3 \/ si = 4 \/ si = 5
               \/ si = 6 \/ si = 7 \/ si = 8 \/ si = 9 \/ si = 10
               \/ si = 11 \/ si = 12 \/ si = 13 \/ si = 14 \/ si = 15) by lia.
  clear Hsi. unfold Adpcm.encode_sample, Adpcm.max_amp. cbv zeta.
  repeat (destruct Hc as [Hc | Hc]); subst si;
    (destruct (q - p <? 0) eqn:E0; cbv iota beta; eval_table;
     do 3 (destruct_if; cbv iota beta);
     eval_closed; repeat destruct_if;
     eexists _, _, _; (split; [reflexivity|]);
     cbn; lia).
Qed.

Lemma clamp_range (lo hi x : Z) :
  lo <= hi -> lo <= Adpcm.clamp lo hi x <= hi.
Proof. unfold Adpcm.clamp. lia. Qed.

(** The decoder never fails from a step index inside the table, and its
    step index stays inside it. *)
Lemma decode_nibble_total (p si nib : Z) :
  0 <= si <= 15 ->
  exists p' si', Adpcm.decode_nibble (p, si) nib = Some ((p', si'), p' * 16)
                 /\ 0 <= si' <= 15 /\ -2047 <= p' <= 2047.
Proof.
  intros Hsi. unfold Adpcm.decode_nibble.
  destruct (index_inside Adpcm.step_table si) as [step E].
  { change (Py.len Adpcm.step_table) with 16. lia. }
  rewrite E. cbv zeta. eexists _, _. split; [reflexivity|].
  split; apply clamp_range; unfold Adpcm.max_amp; lia.
Qed.

Lemma decode_nibbles_total (nibs : list Z) (p si : Z) :
  0 <= si <= 15 ->
  exists pcm, Adpcm.decode_nibbles (p, si) nibs = Some pcm
              /\ List.length pcm = List.length nibs
              /\ Forall (fun s => -32752 <= s <= 32752) pcm.
Proof.
  revert p si. induction nibs as [|nib rest IH]; intros p si Hsi.
  - exists []. repeat split. constructor.
  - cbn [Adpcm.decode_nibbles].
    destruct (decode_nibble_total p si nib Hsi) as (p' & si' & E & Hsi' & Hp').
    rewrite E. destruct (IH p' si' Hsi') as (pcm & E2 & Hl & Hf).
    rewrite E2. exists (p' * 16 :: pcm). split; [reflexivity|].
    split; [cbn [List.length]; now rewrite Hl|].
    constructor; [lia | exact Hf].
Qed.

Lemma length_nibbles_of (b : bytes) :
  List.length (Adpcm.nibbles_of b) = (2 * List.length b)%nat.
Proof.
  induction b as [|x r IH]; [reflexivity|].
  cbn [Adpcm.nibbles_of List.length]. rewrite IH. lia.
Qed.

Lemma pack_two (lo hi : Z) :
  0 <= lo <= 15 -> 0 <= hi <= 15 ->
  byte_val (byte_of (Z.lor (Z.land lo 15) (Z.shiftl (Z.land hi 15) 4)))
  = hi * 16 + lo.
Proof.
  intros Hlo Hhi.
  change 15 with (Z.shiftl 1 4 - 1).
  rewrite !land_mask by lia. change (2 ^ 4) with 16.
  rewrite !Z.mod_small by lia.
  rewrite shiftl_pow by lia.
  rewrite Z.lor_comm.
  rewrite (lor_shifted hi lo 4) by (change (2 ^ 4) with 16; lia).
  change (2 ^ 4) with 16.
  apply byte_val_of. lia.
Qed.

Lemma nibbles_two (lo hi : Z) :
  0 <= lo <= 15 -> 0 <= hi <= 15 ->
  Z.land (hi * 16 + lo) 15 = lo /\ Z.shiftr (hi * 16 + lo) 4 = hi.
Proof.
  intros Hlo Hhi. split.
  - change 15 with (Z.shiftl 1 4 - 1). rewrite land_mask by lia.
    change (2 ^ 4) with 16.
    rewrite Z.add_comm, Z.mod_add by lia. apply Z.mod_small. lia.
  - rewrite shiftr_pow by lia. change (2 ^ 4) with 16.
    rewrite Z.add_comm, Z.div_add by lia. rewrite Z.div_small by lia. lia.
Qed.

(** The decoder reads back the nibbles the encoder packed, with a zero
    after an odd number of them. *)
Lemma nibbles_of_pack (nibs : list Z) :
  Forall (fun n => 0 <= n <= 15) nibs ->
  Adpcm.nibbles_of (Adpcm.pack_nibbles nibs) = AdpcmSpec.padded nibs.
Proof.
  enough (G : (Forall (fun n => 0 <= n <= 15) nibs ->
               Adpcm.nibbles_of (Adpcm.pack_nibbles nibs)
               = AdpcmSpec.padded nibs)
              /\ forall x, Forall (fun n => 0 <= n <= 15) (x :: nibs) ->
                           Adpcm.nibbles_of (Adpcm.pack_nibbles (x :: nibs))
                           = AdpcmSpec.padded (x :: nibs)) by apply G.
  induction nibs as [|y rest [IH1 IH2]].
  - split; [reflexivity|]. intros x Hx. inversion Hx as [|? ? Hx0 _]; subst.
    cbn [Adpcm.pack_nibbles Adpcm.nibbles_of AdpcmSpec.padded].
    rewrite (pack_two x 0) by lia.
    destruct (nibbles_two x 0) as [-> ->]; [lia | lia | reflexivity].
  - split; [apply IH2|]. intros x Hx.
    inversion Hx as [|? ? Hx0 Hr]; subst.
    inversion Hr as [|? ? Hy0 Hr']; subst.
    cbn [Adpcm.pack_nibbles Adpcm.nibbles_of AdpcmSpec.padded].
    rewrite (pack_two x y) by lia.
    destruct (nibbles_two x y) as [-> ->]; [lia | lia |].
    now rewrite IH1.
Qed.

Lemma padded_app (nibs : list Z) :
  exists tail, AdpcmSpec.padded nibs = nibs ++ tail.
Proof.
  enough (G : (exists tail, AdpcmSpec.padded nibs = nibs ++ tail)
              /\ forall x, exists tail,
                   AdpcmSpec.padded (x :: nibs) = x :: nibs ++ tail)
    by apply G.
  induction nibs as [|y rest [IH1 IH2]].
  - split; [now exists []|]. intros x. now exists [0].
  - split; [apply IH2|]. intros x. destruct IH1 as [tail E].
    exists tail. cbn [AdpcmSpec.padded]. now rewrite E.
Qed.

(** Without slope overload the decoder follows the encoder and every
    decoded sample is within 128 of sixteen times its target. *)
Lemma encode_decode_chain (qs : list Z) (prev p si : Z) (tail : list Z) :
  0 <= si <= 15 -> -2047 <= p <= 2047 -> Z.abs (prev - p) <= 8 ->
  Forall (fun q => -2047 <= q <= 2047) qs ->
  AdpcmSpec.slow prev qs ->
  exists nibs,
    Adpcm.encode_samples (p, si) qs = Some nibs
    /\ Forall (fun n => 0 <= n <= 15) nibs
    /\ exists samples rest,
         Adpcm.decode_nibbles (p, si) (nibs ++ tail) = Some (samples ++ rest)
         /\ Forall2 (fun d q => Z.abs (d - 16 * q) <= 128) samples qs.
Proof.
  revert prev p si.
  induction qs as [|q rest IH]; intros prev p si Hsi Hp He Hq Hs.
  - exists []. split; [reflexivity|]. split; [constructor|].
    destruct (decode_nibbles_total tail p si Hsi) as (pcm & E & _).
    exists [], pcm. split; [exact E | constructor].
  - inversion Hq as [|? ? Hq0 Hq']; subst. destruct Hs as [Hs0 Hs'].
    destruct (encode_sample_close p si q Hsi Hp Hq0 ltac:(lia))
      as (p' & si' & nib & E & Hsi' & Hp' & He' & Hn).
    destruct (IH q p' si' Hsi' Hp' He' Hq' Hs')
      as (nibs & E2 & Hf & samples & rest' & E3 & HF).
    exists (nib :: nibs). cbn [Adpcm.encode_samples]. rewrite E, E2.
    split; [reflexivity|]. split; [now constructor|].
    exists (p' * 16 :: samples), rest'.
    cbn [app Adpcm.decode_nibbles].
    rewrite (decode_tracks_encode _ _ _ _ E). cbn [fst]. rewrite E3.
    split; [reflexivity|]. constructor; [lia | exact HF].
Qed.

Lemma quantize_close (s : Z) :
  -32768 <= s <= 32767 ->
  -2047 <= Adpcm.quantize s <= 2047 /\ Z.abs (s - 16 * Adpcm.quantize s) <= 16.
Proof.
  intros H. unfold Adpcm.quantize, Adpcm.clamp, Adpcm.max_amp.
  pose proof (Z.div_mod s 16 ltac:(lia)).
  pose proof (Z.mod_pos_bound s 16 ltac:(lia)). lia.
Qed.

Lemma Forall2_nth {A B} (R : A -> B -> Prop) (l : list A) (m : list B)
      (i : nat) (y : B) :
  Forall2 R l m -> nth_error m i = Some y ->
  exists x, nth_error l i = Some x /\ R x y.
Proof.
  intros H. revert i. induction H as [|a b l m Hab _ IH]; intros i Hi.
  - destruct i; discriminate.
  - destruct i as [|i]; cbn in *.
    + apply Some_inj in Hi; subst. eauto.
    + apply IH, Hi.
Qed.

Lemma adpcm_roundtrip_slow (pcm : list Z) :
  AdpcmSpec.pcm16 pcm ->
  AdpcmSpec.slow 0 (map Adpcm.quantize pcm) ->
  exists enc dec,
    Adpcm.gp_adpcm_encode pcm 0 0 = Some enc
    /\ Adpcm.gp_adpcm_decode enc = Some dec
    /\ Py.len dec = 2 * Py.len enc
    /\ forall i s, nth_error pcm i = Some s ->
                   exists d, nth_error dec i = Some d
                             /\ Z.abs (d - s) <= 144.
Proof.
  intros H16 Hs.
  assert (Hq : Forall (fun q => -2047 <= q <= 2047) (map Adpcm.quantize pcm)).
  { apply Forall_map. eapply Forall_impl; [|exact H16].
    intros s Hs'. apply (quantize_close s Hs'). }
  unfold Adpcm.gp_adpcm_encode, Adpcm.gp_adpcm_decode.
  destruct (Adpcm.encode_samples (0, 0) (map Adpcm.quantize pcm))
    as [nibs|] eqn:En.
  2:{ destruct (encode_decode_chain _ 0 0 0 [] ltac:(lia) ltac:(lia)
                  ltac:(cbn; lia) Hq Hs) as (n & E & _). congruence. }
  destruct (padded_app nibs) as [tail Et].
  destruct (encode_decode_chain _ 0 0 0 tail ltac:(lia) ltac:(lia)
              ltac:(cbn; lia) Hq Hs)
    as (n & E & Hf & samples & rest & Ed & HF).
  rewrite En in E. apply Some_inj in E; subst n.
  exists (Adpcm.pack_nibbles nibs), (samples ++ rest).
  split; [reflexivity|].
  rewrite (nibbles_of_pack nibs Hf), Et.
  split; [exact Ed|]. split.
  - destruct (decode_nibbles_total (nibs ++ tail) 0 0 ltac:(lia))
      as (pcm' & E' & Hl & _).
    rewrite Ed in E'. apply Some_inj in E'; subst pcm'.
    unfold Py.len. rewrite Hl, <- Et, <- (nibbles_of_pack nibs Hf).
    rewrite length_nibbles_of. lia.
  - intros i s Hi.
    assert (Hqi : nth_error (map Adpcm.quantize pcm) i
                  = Some (Adpcm.quantize s)).
    { rewrite nth_error_map, Hi. reflexivity. }
    destruct (Forall2_nth _ _ _ _ _ HF Hqi) as (d & Hd & Hr).
    exists d. split.
    + rewrite nth_error_app1; [exact Hd|].
      apply nth_error_Some. congruence.
    + assert (Hin : -32768 <= s <= 32767).
      { eapply Forall_forall in H16; [exact H16|].
        eapply nth_error_In, Hi. }
      destruct (quantize_close s Hin) as [_ Hc]. lia.
Qed.

(** ** C8: the ADPCM round trip *)

(** C8, counterexample: the one-sample buffer [32767] is encoded as the
    byte 0x07, which decodes to [480; 512]; the first decoded sample is
    32287 away from the input, far more than the largest step 66 (and more
    than sixteen times it). *)
Lemma adpcm_roundtrip_overload :
  Adpcm.gp_adpcm_encode [32767] 0 0 = Some [x07]
  /\ Adpcm.gp_adpcm_decode [x07] = Some [480; 512]
  /\ ~ AdpcmSpec.roundtrip_within 66 [32767]
  /\ ~ AdpcmSpec.roundtrip_within (16 * 66) [32767].
Proof.
  assert (He : Adpcm.gp_adpcm_encode [32767] 0 0 = Some [x07])
    by (vm_compute; reflexivity).
  assert (Hd : Adpcm.gp_adpcm_decode [x07] = Some [480; 512])
    by (vm_compute; reflexivity).
  assert (G : forall bound, bound <= 16 * 66 ->
                ~ AdpcmSpec.roundtrip_within bound [32767]).
  { intros bound Hb (enc & dec & He' & Hd' & H).
    rewrite He in He'. apply Some_inj in He'; subst enc.
    rewrite Hd in Hd'. apply Some_inj in Hd'; subst dec.
    destruct (H 0%nat 32767 eq_refl) as (d & E & Habs).
    cbn [nth_error] in E. apply Some_inj in E; subst d. lia. }
  split; [exact He|]. split; [exact Hd|].
  split; apply G; lia.
Qed.

(** C8, amended: for every 16-bit PCM buffer without slope overload (each
    quantised sample [clip(s // 16, -2047, 2047)] within 30 of the one
    before it, the first within 30 of 0), encoding succeeds, decoding the
    bytes succeeds and gives two samples per byte, and every decoded
    sample is within 144 of the corresponding input sample. *)
Theorem adpcm_roundtrip_no_overload (pcm : list Z) :
  AdpcmSpec.pcm16 pcm ->
  AdpcmSpec.slow 0 (map Adpcm.quantize pcm) ->
  AdpcmSpec.roundtrip_within 144 pcm
  /\ exists enc dec,
       Adpcm.gp_adpcm_encode pcm 0 0 = Some enc
       /\ Adpcm.gp_adpcm_decode enc = Some dec
       /\ Py.len dec = 2 * Py.len enc.
Proof.
  intros H16 Hs.
  destruct (adpcm_roundtrip_slow pcm H16 Hs) as (enc & dec & He & Hd & Hl & H).
  split.
  - exists enc, dec. auto.
  - exists enc, dec. auto.
Qed.

Lemma adpcm_roundtrip_no_overload_witness :
  AdpcmSpec.roundtrip_within 144 [0; 400; 800; 1200; 1000]
  /\ exists enc dec,
       Adpcm.gp_adpcm_encode [0; 400; 800; 1200; 1000] 0 0 = Some enc
       /\ Adpcm.gp_adpcm_decode enc = Some dec
       /\ Py.len dec = 2 * Py.len enc.
Proof.
  apply (adpcm_roundtrip_no_overload [0; 400; 800; 1200; 1000]).
  - unfold AdpcmSpec.pcm16. repeat constructor; lia.
  - vm_compute. intuition discriminate.
Defined.

(** ** Writes into the buffer *)

Lemma nth_splice_outside {A} (l w : list A) (p i : nat) (d : A) :
  (p + List.length w <= List.length l)%nat ->
  (i < p \/ p + List.length w <= i)%nat ->
  nth i (firstn p l ++ w ++ skipn (p + List.length w) l) d = nth i l d.
Proof.
  intros Hfit [Hi | Hi].
  - rewrite app_nth1 by (rewrite length_firstn; lia).
    rewrite nth_firstn.
    destruct (Nat.ltb_spec i p); [reflexivity | lia].
  - rewrite app_nth2 by (rewrite length_firstn; lia).
    rewrite length_firstn, Nat.min_l by lia.
    rewrite app_nth2 by lia.
    rewrite nth_skipn. f_equal. lia.
Qed.

Lemma nth_splice_inside {A} (l w : list A) (p i : nat) (d : A) :
  (p <= List.length l)%nat -> (p <= i < p + List.length w)%nat ->
  nth i (firstn p l ++ w ++ skipn (p + List.length w) l) d = nth (i - p) w d.
Proof.
  intros Hfit Hi.
  rewrite app_nth2 by (rewrite length_firstn; lia).
  rewrite length_firstn, Nat.min_l by lia.
  rewrite app_nth1 by lia. reflexivity.
Qed.

Lemma pack16_spec (v : Z) :
  0 <= v <= 65535 ->
  exists b0 b1, pack16 v = Some [b0; b1]
                /\ byte_val b0 + 256 * byte_val b1 = v.
Proof.
  intros H. unfold pack16.
  destruct ((0 <=? v) && (v <=? 65535)) eqn:E; [|lia].
  eexists _, _. split; [reflexivity|].
  pose proof (Z.div_mod v 256 ltac:(lia)).
  pose proof (Z.mod_pos_bound v 256 ltac:(lia)).
  rewrite !byte_val_of; [lia | | lia].
  split; [apply Z.div_pos; lia | apply Z.div_lt_upper_bound; lia].
Qed.


(** [struct.pack_into("<H", data, o, v)] inside the buffer: the length is
    kept, the two bytes read back as [v] and every other byte is the old
    one. *)
Lemma pack_into16_spec (data : bytes) (o v : Z) :
  0 <= v <= 65535 -> 0 <= o -> o + 2 <= Py.len data ->
  exists data',
    pack_into16 data o v = Some data'
    /\ Py.len data' = Py.len data
    /\ le16 data' o = Some v
    /\ forall i, 0 <= i < o \/ o + 2 <= i -> byte_at data' i = byte_at data i.
Proof.
  intros Hv Ho Hfit. unfold pack_into16.
  destruct (pack16_spec v Hv) as (b0 & b1 & -> & Hval).
  rewrite (struct_offset_inside (Py.len data) o 2) by lia.
  eexists. split; [reflexivity|].
  assert (Hlen : Py.len (firstn (Z.to_nat o) data ++ [b0; b1]
                         ++ skipn (Z.to_nat (o + 2)) data) = Py.len data).
  { rewrite !len_app, len_firstn, len_skipn by lia.
    rewrite !len_cons. change (Py.len (@nil byte)) with 0. lia. }
  split; [exact Hlen|].
  assert (Hn : (Z.to_nat o + List.length [b0; b1] <= List.length data)%nat).
  { unfold Py.len in Hfit. cbn [List.length]. lia. }
  assert (Ho2 : Z.to_nat (o + 2) = (Z.to_nat o + List.length [b0; b1])%nat)
    by (cbn [List.length]; lia).
  split.
  - unfold le16. rewrite Hlen.
    rewrite (struct_offset_inside (Py.len data) o 2) by lia.
    unfold byte_at. rewrite Ho2.
    rewrite !nth_splice_inside by (cbn [List.length] in *; lia).
    replace (Z.to_nat o - Z.to_nat o)%nat with 0%nat by lia.
    replace (Z.to_nat (o + 1) - Z.to_nat o)%nat with 1%nat by lia.
    cbn [nth]. now rewrite Hval.
  - intros i Hi. unfold byte_at. rewrite Ho2.
    rewrite nth_splice_outside; [reflexivity | exact Hn |].
    cbn [List.length]. lia.
Qed.

(** ** The name importers *)

(** *** The D-3 NPC importer *)

(** Every branch of the name loop that does not write leaves the buffer
    and the change counter as they were. *)
Lemma npc_skip_unchanged (st : bytes * Z) (ta : Txt.TextArchive) (si : Z)
      (new_name reason : string) (fwd inv : list (string * string)) :
  ImportD3NpcNames.check_name ta si new_name fwd inv
  = Some (ImportD3NpcNames.Skipped reason) ->
  ImportD3NpcNames.patch_name st ta si new_name fwd inv = Some st.
Proof.
  intros H. unfold ImportD3NpcNames.patch_name. now rewrite H.
Qed.

(** What an accepted name of the D-3 NPC importer satisfies. *)
Lemma npc_written_spec (ta : Txt.TextArchive) (si : Z) (new_name : string)
      (fwd inv : list (string * string)) (pos : Z) (enc : bytes) :
  ImportD3NpcNames.check_name ta si new_name fwd inv
  = Some (ImportD3NpcNames.Written pos enc) ->
  si < Txt.n_strings ta
  /\ Str.any_in Str.FORBIDDEN_CHARS_D3_NPC new_name = false
  /\ exists old_name codes cap w,
       ImportD3NpcNames.decode_old_string ta si fwd = Some old_name
       /\ String.length new_name = String.length old_name
       /\ ImportD3NpcNames.encode_to_codes (Str.apply_rules new_name inv)
          = Some codes
       /\ ImportD3NpcNames.encode_bytes codes = Some enc
       /\ ImportD3NpcNames.string_capacity ta si = Some cap
       /\ Py.len enc <= cap
       /\ Py.index (Txt.offsets_word ta) si = Some w
       /\ pos = Txt.base_off ta + w * 2.
Proof.
  unfold ImportD3NpcNames.check_name.
  destruct (si >=? Txt.n_strings ta) eqn:E1; [discriminate|].
  destruct (Str.any_in _ new_name) eqn:E2; [discriminate|].
  destruct (ImportD3NpcNames.decode_old_string ta si fwd) as [old|] eqn:E3;
    [|discriminate].
  destruct (Nat.eqb_spec (String.length new_name) (String.length old))
    as [E4|E4]; cbn [negb]; [|discriminate].
  destruct (ImportD3NpcNames.encode_to_codes _) as [codes|] eqn:E5;
    [|discriminate].
  destruct (ImportD3NpcNames.encode_bytes codes) as [enc'|] eqn:E6;
    [|discriminate].
  destruct (ImportD3NpcNames.string_capacity ta si) as [cap|] eqn:E7;
    [|discriminate].
  destruct (Py.len enc' >? cap) eqn:E8; [discriminate|].
  destruct (Py.index (Txt.offsets_word ta) si) as [w|] eqn:E9;
    [|discriminate].
  intros H. apply Some_inj in H. injection H as <- <-.
  split; [lia|]. split; [reflexivity|].
  exists old, codes, cap, w. repeat split; try assumption; try reflexivity.
  lia.
Qed.

(** A name whose encoding is longer than the capacity of its slot is
    skipped by the D-3 NPC importer. *)
Lemma npc_over_capacity (ta : Txt.TextArchive) (si : Z) (new_name : string)
      (fwd inv : list (string * string)) (codes : list Z) (enc : bytes)
      (cap : Z) :
  ImportD3NpcNames.encode_to_codes (Str.apply_rules new_name inv) = Some codes ->
  ImportD3NpcNames.encode_bytes codes = Some enc ->
  ImportD3NpcNames.string_capacity ta si = Some cap ->
  Py.len enc > cap ->
  exists reason,
    ImportD3NpcNames.check_name ta si new_name fwd inv
    = Some (ImportD3NpcNames.Skipped reason).
Proof.
  intros Hc He Hcap Hgt. unfold ImportD3NpcNames.check_name.
  destruct (si >=? Txt.n_strings ta); [eauto|].
  destruct (Str.any_in _ new_name); [eauto|].
  unfold ImportD3NpcNames.decode_old_string.
  unfold ImportD3NpcNames.string_capacity in Hcap.
  destruct (Py.index (Txt.offsets_word ta) si) as [w|] eqn:Ew;
    [|discriminate].
  destruct (negb _); [eauto|].
  rewrite Hc, He.
  unfold ImportD3NpcNames.string_capacity. rewrite Ew.
  destruct (if si + 1 <? Txt.n_strings ta then _ else _) as [e|];
    [|discriminate].
  apply Some_inj in Hcap. subst cap.
  destruct (Py.len enc >? e - w * 2) eqn:E; [eauto | lia].
Qed.

(** *** The D-3 partner importer *)

(** A row whose encoded name is longer than the capacity of its slot is
    skipped under the reject policy. *)
Lemma d3_over_capacity (imap : list (Txt.TextArchive * Z)) (si : Z)
      (name : string) (inv : list (string * string))
      (ta : Txt.TextArchive) (slot : Z) (codes : list Z) (enc : bytes)
      (cap : Z) :
  Py.index imap si = Some (ta, slot) ->
  ImportD3Data.encode_from_tagstring (Str.apply_rules name inv) = Some codes ->
  ImportD3Data.encode_to_bytes codes = Some enc ->
  ImportD3Data.string_capacity_bytes ta slot = Some cap ->
  Py.len enc > cap ->
  ImportD3Data.check_row imap false si name inv = Some ImportD3Data.Skipped.
Proof.
  intros Hi Hc He Hcap Hgt. unfold ImportD3Data.check_row.
  destruct (Str.any_in _ name); [reflexivity|].
  destruct (negb _); [reflexivity|].
  rewrite Hi, Hc, He, Hcap.
  destruct (Py.len enc >? cap) eqn:E; [reflexivity | lia].
Qed.

(** *** The Digivice importers *)

(** What an accepted name of the Digivice importers satisfies. *)
Lemma digivice_written_spec (ta : Txt.TextArchive) (si : Z)
      (new_name : string) (rules : list (string * string)) (pos : Z)
      (enc : bytes) :
  ImportDigivice.check_name ta si new_name rules
  = Some (ImportDigivice.Written pos enc) ->
  Str.any_in Str.FORBIDDEN_CHARS new_name = false
  /\ ImportDigivice.encode_tagstring_to_bytes (Str.apply_rules new_name rules)
     = Some enc
  /\ exists old w,
       NameSpec.slot_bytes ta si = Some old
       /\ Py.len enc = Py.len old
       /\ Py.index (Txt.offsets_word ta) si = Some w
       /\ pos = Txt.base_off ta + w * 2.
Proof.
  unfold ImportDigivice.check_name, NameSpec.slot_bytes.
  destruct (Str.any_in _ new_name) eqn:E1; [discriminate|].
  destruct (Py.index (Txt.offsets_word ta) si) as [w|] eqn:E2;
    [|discriminate].
  destruct (if si + 1 <? Txt.n_strings ta then _ else _) as [e|] eqn:E3;
    [|discriminate].
  cbv zeta.
  destruct (ImportDigivice.encode_tagstring_to_bytes _) as [enc'|] eqn:E4;
    [|discriminate].
  destruct (Z.eqb_spec (Py.len enc') (Py.len (Py.slice (Txt.data ta) (w * 2) e)))
    as [E5|E5]; cbn [negb]; [|discriminate].
  intros H. apply Some_inj in H. injection H as <- <-.
  split; [reflexivity|]. split; [reflexivity|].
  exists (Py.slice (Txt.data ta) (w * 2) e), w. repeat split. exact E5.
Qed.


(** ** C2 and C9: which names the importers write *)

(** C2: under the reject policy a name whose encoded bytes (the 16-bit
    codes and the zero terminator) are longer than the byte capacity of
    its slot is not written: the D-3 NPC importer and the D-3 partner
    importer (overflow policy [reject]) both leave the whole buffer, and
    so the bytes of the slot, as they were. *)
Theorem over_capacity_rejected :
  (forall (st : bytes * Z) ta si new_name fwd inv codes enc cap,
      ImportD3NpcNames.encode_to_codes (Str.apply_rules new_name inv)
      = Some codes ->
      ImportD3NpcNames.encode_bytes codes = Some enc ->
      ImportD3NpcNames.string_capacity ta si = Some cap ->
      Py.len enc > cap ->
      ImportD3NpcNames.patch_name st ta si new_name fwd inv = Some st)
  /\ (forall (data : bytes) imap si name inv ta slot codes enc cap,
         Py.index imap si = Some (ta, slot) ->
         ImportD3Data.encode_from_tagstring (Str.apply_rules name inv)
         = Some codes ->
         ImportD3Data.encode_to_bytes codes = Some enc ->
         ImportD3Data.string_capacity_bytes ta slot = Some cap ->
         Py.len enc > cap ->
         ImportD3Data.patch_row data imap false si name inv = Some data).
Proof.
  split.
  - intros st ta si new_name fwd inv codes enc cap Hc He Hcap Hgt.
    destruct (npc_over_capacity ta si new_name fwd inv codes enc cap
                Hc He Hcap Hgt) as [reason H].
    exact (npc_skip_unchanged st ta si new_name reason fwd inv H).
  - intros data imap si name inv ta slot codes enc cap Hi Hc He Hcap Hgt.
    unfold ImportD3Data.patch_row.
    now rewrite (d3_over_capacity imap si name inv ta slot codes enc cap
                   Hi Hc He Hcap Hgt).
Qed.

Lemma over_capacity_rejected_witness :
  ImportD3NpcNames.patch_name (Inputs.padded_view, 0) Inputs.padded_ta 0
    "AAB"%string Inputs.letters_fwd Inputs.letters_inv
  = Some (Inputs.padded_view, 0)
  /\ ImportD3Data.patch_row Inputs.padded_view [(Inputs.padded_ta, 0)] false
       0 "AAB"%string Inputs.letters_inv
     = Some Inputs.padded_view.
Proof.
  split.
  - eapply (proj1 over_capacity_rejected).
    + vm_compute; reflexivity.
    + vm_compute; reflexivity.
    + vm_compute; reflexivity.
    + vm_compute; reflexivity.
  - eapply (proj2 over_capacity_rejected).
    + vm_compute; reflexivity.
    + vm_compute; reflexivity.
    + vm_compute; reflexivity.
    + vm_compute; reflexivity.
    + vm_compute; reflexivity.
Defined.




(** ** [import_device_sounds.py]: the slots and the writes *)

Lemma starts_with_len (m d : bytes) :
  ImportDeviceSounds.starts_with m d = true -> Py.len m <= Py.len d.
Proof.
  revert d. induction m as [|x m IH]; intros d H.
  - change (Py.len (@nil byte)) with 0. apply len_nonneg.
  - destruct d as [|y d]; [discriminate|].
    cbn [ImportDeviceSounds.starts_with] in H.
    apply andb_true_iff in H as [_ H]. apply IH in H.
    rewrite !len_cons. lia.
Qed.

(** Every position [find_all] reports has the whole magic inside the
    buffer. *)
Lemma find_all_bounds (d : bytes) (pos : Z) :
  Forall (fun p => pos <= p /\ p + 8 <= pos + Py.len d)
         (ImportDeviceSounds.find_all d pos).
Proof.
  revert pos. induction d as [|x t IH]; intros pos; [constructor|].
  cbn [ImportDeviceSounds.find_all].
  assert (Ht : Forall (fun p => pos <= p /\ p + 8 <= pos + Py.len (x :: t))
                      (ImportDeviceSounds.find_all t (pos + 1))).
  { eapply Forall_impl; [|apply IH]. cbv beta. intros p [H1 H2].
    rewrite len_cons. lia. }
  destruct (ImportDeviceSounds.starts_with _ (x :: t)) eqn:E; [|exact Ht].
  constructor; [|exact Ht].
  apply starts_with_len in E.
  change (Py.len ImportDeviceSounds.MAGIC_SPF2ALP) with 8 in E. lia.
Qed.

Lemma blocks_from_spec (buf : bytes) (idx : Z) (positions : list Z) :
  Forall (fun p => 0 <= p <= Py.len buf) positions ->
  exists blocks,
    ImportDeviceSounds.blocks_from buf (Py.len buf) idx positions = Some blocks
    /\ Forall (AudioSpec.slot_ok (Py.len buf)) blocks.
Proof.
  intros H. revert idx. induction H as [|st rest Hst Hrest IH]; intros idx.
  - exists []. split; [reflexivity | constructor].
  - cbn [ImportDeviceSounds.blocks_from].
    destruct (IH (idx + 1)) as (tl & -> & Htl).
    set (e := match rest with nxt :: _ => nxt | [] => Py.len buf end).
    assert (He : e <= Py.len buf).
    { subst e. destruct rest as [|nxt r]; [lia|].
      inversion Hrest; subst. lia. }
    unfold ImportDeviceSounds.SPF2_HEADER_SIZE in *.
    destruct (e <=? st + 64) eqn:E1; [now exists tl|].
    cbv zeta.
    destruct (e - (st + 64) <=? 0) eqn:E2; [now exists tl|].
    destruct (st + 64 - st >=? 20) eqn:E3; [|lia].
    destruct (le32_in_bounds buf (st + 16)) as [r Hr]; [lia | lia |].
    rewrite Hr. eexists. split; [reflexivity|].
    constructor; [|exact Htl].
    unfold AudioSpec.slot_ok, ImportDeviceSounds.SPF2_HEADER_SIZE,
      ImportDeviceSounds.MAX_SAMPLE_RATE.
    cbn [ImportDeviceSounds.start ImportDeviceSounds.adpcm_start
         ImportDeviceSounds.adpcm_end ImportDeviceSounds.end_
         ImportDeviceSounds.slot_bytes ImportDeviceSounds.sample_rate].
    apply le32_range in Hr.
    repeat split; try lia;
      destruct ((r =? 0) || (r >? 192000)) eqn:E4; try lia.
Qed.

(** The scan never raises, and every block it reports has its slot inside
    the file. *)
Lemma scan_spf2alp_blocks_spec (data : bytes) :
  exists blocks,
    ImportDeviceSounds.scan_spf2alp_blocks data = Some blocks
    /\ Forall (AudioSpec.slot_ok (Py.len data)) blocks.
Proof.
  unfold ImportDeviceSounds.scan_spf2alp_blocks.
  apply blocks_from_spec.
  eapply Forall_impl; [|apply find_all_bounds]. cbv beta. lia.
Qed.

Lemma len_fit (encoded : bytes) (slot : Z) :
  0 <= slot -> Py.len (ImportDeviceSounds.fit encoded slot) = slot.
Proof.
  intros Hs. unfold ImportDeviceSounds.fit.
  destruct (Py.len encoded >? slot) eqn:E1.
  - rewrite len_slice by lia. lia.
  - destruct (Py.len encoded <? slot) eqn:E2; [|lia].
    rewrite len_app, len_repeat by lia. lia.
Qed.

(** One block of the import keeps the length of the buffer. *)
Lemma len_import_block (dry_run : bool) (wavs : Z -> Z -> option (list Z))
      (data : bytes) (b : ImportDeviceSounds.block) :
  AudioSpec.slot_ok (Py.len data) b ->
  Py.len (ImportDeviceSounds.import_block dry_run wavs data b) = Py.len data.
Proof.
  intros (Hs & Ha & He & Hslot & Hpos & Hend & _).
  unfold ImportDeviceSounds.import_block.
  destruct (wavs _ _) as [pcm|]; [|reflexivity].
  destruct (Adpcm.gp_adpcm_encode pcm 0 0) as [enc|]; [|reflexivity].
  destruct (Py.len enc =? 0); [reflexivity|]. cbv zeta.
  destruct (negb _); [reflexivity|].
  destruct dry_run; [reflexivity|].
  pose proof (len_fit enc (ImportDeviceSounds.slot_bytes b) ltac:(lia)) as Hf.
  replace (ImportDeviceSounds.adpcm_end b)
    with (ImportDeviceSounds.adpcm_start b
          + Py.len (ImportDeviceSounds.fit enc (ImportDeviceSounds.slot_bytes b)))
    by lia.
  apply len_slice_assign_inside;
    unfold ImportDeviceSounds.SPF2_HEADER_SIZE in *; lia.
Qed.

Lemma len_import_blocks (dry_run : bool) (wavs : Z -> Z -> option (list Z))
      (blocks : list ImportDeviceSounds.block) (data : bytes) :
  Forall (AudioSpec.slot_ok (Py.len data)) blocks ->
  Py.len (fold_left (ImportDeviceSounds.import_block dry_run wavs) blocks data)
  = Py.len data.
Proof.
  revert data. induction blocks as [|b rest IH]; intros data H; [reflexivity|].
  inversion H as [|? ? Hb Hrest]; subst. cbn [fold_left].
  pose proof (len_import_block dry_run wavs data b Hb) as Hl.
  rewrite IH; [exact Hl|]. now rewrite Hl.
Qed.

(** The audio import never raises and writes a buffer of the length of
    its input. *)
Lemma import_spf2alp_sounds_len (data : bytes)
      (wavs : Z -> Z -> option (list Z)) :
  exists data',
    ImportDeviceSounds.import_spf2alp_sounds data wavs false = Some (Some data')
    /\ Py.len data' = Py.len data.
Proof.
  unfold ImportDeviceSounds.import_spf2alp_sounds.
  destruct (scan_spf2alp_blocks_spec data) as (blocks & -> & Hb).
  eexists. split; [reflexivity|]. now apply len_import_blocks.
Qed.

(** ** [import_d3_npc_names.py]: every write stays inside the archive *)

Lemma index_In {A} (l : list A) (i : Z) (x : A) :
  Py.index l i = Some x -> In x l.
Proof.
  unfold Py.index. destruct (_ && _); [|discriminate].
  apply nth_error_In.
Qed.

(** A parsed text archive keeps the view, and its offsets lie inside
    it. *)
Lemma parse_text_archive_spec (view : bytes) (abs_off : Z) (p : string)
      (ta : Txt.TextArchive) :
  Txt.parse_text_archive view abs_off p = Some (Some ta) ->
  Txt.base_off ta = abs_off /\ Txt.path ta = p /\ Txt.data ta = view
  /\ 4 <= Py.len view
  /\ Forall (fun w => 0 <= w /\ w * 2 < Py.len view) (Txt.offsets_word ta).
Proof.
  unfold Txt.parse_text_archive.
  destruct (Txt.is_probable_text_archive view) as [[ta0|]|] eqn:E;
    [|discriminate|discriminate].
  intros H. do 2 apply Some_inj in H. subst ta.
  cbn [Txt.base_off Txt.path Txt.data Txt.offsets_word].
  destruct (text_archive_header view ta0 E) as (Hd & Hn & Hl & _ & HF & _).
  repeat split; try assumption. lia.
Qed.

(** An accepted name is written inside the bytes of its archive. *)
Lemma npc_write_inside (ta : Txt.TextArchive) (si : Z) (new_name : string)
      (fwd inv : list (string * string)) (pos : Z) (enc : bytes) :
  Forall (fun w => 0 <= w /\ w * 2 < Py.len (Txt.data ta))
         (Txt.offsets_word ta) ->
  ImportD3NpcNames.check_name ta si new_name fwd inv
  = Some (ImportD3NpcNames.Written pos enc) ->
  Txt.base_off ta <= pos
  /\ pos + Py.len enc <= Txt.base_off ta + Py.len (Txt.data ta).
Proof.
  intros HF H.
  destruct (npc_written_spec ta si new_name fwd inv pos enc H)
    as (_ & _ & old & codes & cap & w & _ & _ & _ & _ & Hcap & Hle & Hw & ->).
  unfold ImportD3NpcNames.string_capacity in Hcap. rewrite Hw in Hcap.
  rewrite Forall_forall in HF.
  destruct (HF w (index_In _ _ _ Hw)) as [Hw0 Hw1].
  destruct (si + 1 <? Txt.n_strings ta).
  - destruct (Py.index (Txt.offsets_word ta) (si + 1)) as [w'|] eqn:Ew';
      [|discriminate].
    destruct (HF w' (index_In _ _ _ Ew')) as [_ Hw'].
    apply Some_inj in Hcap. lia.
  - apply Some_inj in Hcap. lia.
Qed.

Section NpcLength.
Variable L : Z.
Variables fwd inv : list (string * string).
Variable npc_map : list (Z * string).

Lemma patch_name_len (st st' : bytes * Z) (ta : Txt.TextArchive) (si : Z)
      (new_name : string) :
  Forall (fun w => 0 <= w /\ w * 2 < Py.len (Txt.data ta))
         (Txt.offsets_word ta) ->
  0 <= Txt.base_off ta -> Txt.base_off ta + Py.len (Txt.data ta) <= L ->
  Py.len (fst st) = L ->
  ImportD3NpcNames.patch_name st ta si new_name fwd inv = Some st' ->
  Py.len (fst st') = L.
Proof.
  intros HF Hb He Hst. unfold ImportD3NpcNames.patch_name.
  destruct (ImportD3NpcNames.check_name ta si new_name fwd inv)
    as [[reason | pos enc]|] eqn:E; [| |discriminate].
  - intros H. apply Some_inj in H. now subst st'.
  - intros H. apply Some_inj in H. subst st'.
    destruct (npc_write_inside ta si new_name fwd inv pos enc HF E)
      as [H1 H2].
    cbn [ImportD3NpcNames.apply_outcome fst].
    rewrite len_slice_assign_inside; lia.
Qed.

Lemma patch_names_len (names : list (Z * string)) (st st' : bytes * Z)
      (ta : Txt.TextArchive) :
  Forall (fun w => 0 <= w /\ w * 2 < Py.len (Txt.data ta))
         (Txt.offsets_word ta) ->
  0 <= Txt.base_off ta -> Txt.base_off ta + Py.len (Txt.data ta) <= L ->
  Py.len (fst st) = L ->
  ImportD3NpcNames.patch_names st ta names fwd inv = Some st' ->
  Py.len (fst st') = L.
Proof.
  intros HF Hb He. revert st.
  induction names as [|[si new_name] rest IH]; intros st Hst.
  - cbn [ImportD3NpcNames.patch_names]. intros H.
    apply Some_inj in H. now subst st'.
  - cbn [ImportD3NpcNames.patch_names].
    destruct (ImportD3NpcNames.patch_name st ta si new_name fwd inv)
      as [st1|] eqn:E; [|discriminate].
    apply IH. eapply patch_name_len; eassumption.
Qed.

(** A view of at least four bytes cut at a non-negative offset ends
    inside the buffer. *)
Lemma entry_view_inside (buf : bytes) (arc : Arc.Archive)
      (e : Arc.ArchEntry) (view : bytes) :
  Txt.entry_view buf arc e = Some view ->
  0 <= Arc.base_off arc + Arc.offset e -> 1 <= Py.len view ->
  Arc.base_off arc + Arc.offset e + Py.len view <= Py.len buf.
Proof.
  unfold Txt.entry_view.
  destruct (negb _); [discriminate|]. cbv zeta.
  set (len := if Arc.decomp_len e >? 0 then _ else _).
  destruct (len <=? 0) eqn:E; [discriminate|].
  intros H Ho Hv. apply Some_inj in H. subst view.
  rewrite len_slice in * by lia. lia.
Qed.

Lemma patch_entries_len (p : string) (arc : Arc.Archive)
      (ies : list (Z * Arc.ArchEntry)) (st st' : bytes * Z) :
  0 <= Arc.base_off arc ->
  Forall (fun ie => 0 <= Arc.offset (snd ie)) ies ->
  Py.len (fst st) = L ->
  ImportD3NpcNames.patch_entries st p arc ies npc_map fwd inv = Some st' ->
  Py.len (fst st') = L.
Proof.
  intros Hb HF. revert st.
  induction HF as [|[idx e] rest He _ IH]; intros st Hst.
  - cbn [ImportD3NpcNames.patch_entries]. intros H.
    apply Some_inj in H. now subst st'.
  - cbn [ImportD3NpcNames.patch_entries]. cbn [snd] in He.
    destruct (Txt.entry_view (fst st) arc e) as [view|] eqn:Ev;
      [|apply IH; exact Hst].
    destruct (Txt.parse_text_archive view _ _) as [[ta|]|] eqn:Ep;
      [| apply IH; exact Hst | discriminate].
    destruct (negb _); [apply IH; exact Hst|].
    destruct (ImportD3NpcNames.patch_names st ta npc_map fwd inv)
      as [st1|] eqn:En; [|discriminate].
    apply IH.
    destruct (parse_text_archive_spec _ _ _ _ Ep)
      as (Hbase & _ & Hdata & Hlen & Hoffs).
    pose proof (entry_view_inside _ _ _ _ Ev ltac:(lia) ltac:(lia)) as Hin.
    eapply patch_names_len; [| | | exact Hst | exact En].
    + now rewrite Hdata.
    + lia.
    + rewrite Hbase, Hdata. lia.
Qed.

Lemma enumerate_from_offsets (es : list Arc.ArchEntry) (i : Z) :
  Forall (fun e => 0 <= Arc.offset e) es ->
  Forall (fun ie : Z * Arc.ArchEntry => 0 <= Arc.offset (snd ie))
         (Py.enumerate_from i es).
Proof.
  intros H. revert i. induction H as [|e rest He _ IH]; intros i.
  - constructor.
  - cbn [Py.enumerate_from]. constructor; [exact He | apply IH].
Qed.

Lemma wf_arc_offsets (buf : bytes) (arc : Arc.Archive) :
  ArcSpec.wf_arc buf arc ->
  0 <= Arc.base_off arc
  /\ Forall (fun ie : Z * Arc.ArchEntry => 0 <= Arc.offset (snd ie))
            (Py.enumerate (Arc.entries arc)).
Proof.
  intros [Hb HF]. split; [exact Hb|].
  apply enumerate_from_offsets.
  eapply Forall_impl; [|exact HF]. cbv beta. tauto.
Qed.

(** The loop over the yielded archives keeps the length of the buffer. *)
Lemma main_loop_len (fuel : nat) (st st' : bytes * Z) (q : list Arc.item) :
  Forall (fun it : Arc.item =>
            0 <= Arc.base_off (snd (fst it))
            /\ Forall (fun ie : Z * Arc.ArchEntry => 0 <= Arc.offset (snd ie))
                      (Py.enumerate (Arc.entries (snd (fst it))))) q ->
  Py.len (fst st) = L ->
  ImportD3NpcNames.main_loop fuel st 3 q npc_map fwd inv = Some (Some st') ->
  Py.len (fst st') = L.
Proof.
  revert st q. induction fuel as [|f IH]; intros st q Hq Hst.
  - destruct q as [|[[p arc] depth] q']; cbn [ImportD3NpcNames.main_loop].
    + intros H. do 2 apply Some_inj in H. now subst st'.
    + discriminate.
  - destruct q as [|[[p arc] depth] q']; cbn [ImportD3NpcNames.main_loop].
    + intros H. do 2 apply Some_inj in H. now subst st'.
    + apply Forall_cons_iff in Hq as [[Hb Ho] Hq']. cbn [fst snd] in Hb, Ho.
      destruct (ImportD3NpcNames.patch_entries st p arc _ npc_map fwd inv)
        as [st1|] eqn:Ep; [|discriminate].
      pose proof (patch_entries_len _ _ _ _ _ Hb Ho Hst Ep) as Hst1.
      destruct (depth >=? 3).
      * apply IH; assumption.
      * destruct (sub_archives_spec (fst st1) p (Arc.base_off arc) depth
                    (Py.enumerate (Arc.entries arc)) Hb Ho)
          as (subs & Es & _ & Hwf).
        rewrite Es. apply IH; [|exact Hst1].
        apply Forall_app. split; [exact Hq'|].
        eapply Forall_impl; [|exact Hwf].
        intros it Hit. apply (wf_arc_offsets (fst st1)). exact Hit.
Qed.

End NpcLength.

(** The NPC name import writes a buffer of the length of its input. *)
Lemma npc_main_len (fuel : nat) (data data' : bytes)
      (npc_map : list (Z * string)) (fwd inv : list (string * string))
      (changes : Z) :
  ImportD3NpcNames.main fuel data npc_map fwd inv
  = Some (Some (data', changes)) ->
  Py.len data' = Py.len data.
Proof.
  unfold ImportD3NpcNames.main.
  destruct (scan_tops_spec data (Py.range 0 (Py.len data - 4) 2))
    as (tops & -> & _ & Hwf).
  { apply range_nonneg. lia. }
  intros H.
  apply (main_loop_len (Py.len data) fwd inv npc_map fuel (data, 0)
           (data', changes) _) in H; [exact H | | reflexivity].
  apply Forall_map. eapply Forall_impl; [|exact Hwf].
  intros [p a] Ha. cbn [fst snd] in *. apply (wf_arc_offsets data). exact Ha.
Qed.

(** ** C1: the length of the buffer the importers write *)

Lemma short_rom_len : Py.len Inputs.short_rom = 6040.
Proof. vm_compute; reflexivity. Qed.

Lemma short_rom_passes :
  ScanSpec.passes 1000 5000 0 Inputs.short_rom 0 (16, 6016, 6024, 6032).
Proof.
  unfold ScanSpec.passes. rewrite short_rom_len.
  split; [vm_compute; reflexivity|].
  split; [vm_compute; reflexivity|].
  split; [vm_compute; reflexivity|].
  split; [vm_compute; split; discriminate|].
  split; [vm_compute; discriminate|].
  exists 0; split; [vm_compute; reflexivity | vm_compute; reflexivity].
Qed.

Lemma short_rom_in0 :
  In 0 (Py.range 0 (Py.len Inputs.short_rom - 16) 4).
Proof.
  rewrite short_rom_len. rewrite range_cons by reflexivity. now left.
Qed.

(** The header at 0 is the only offset of [short_rom] that passes. *)
Lemma short_rom_only (lo hi mc off : Z) (o : Sprites.offsets) :
  In off (Py.range 0 (Py.len Inputs.short_rom - 16) 4) ->
  ScanSpec.passes lo hi mc Inputs.short_rom off o ->
  off = 0.
Proof.
  intros Hin Hp. pose proof (scan_range_bounds _ _ Hin) as [H0 H1].
  rewrite short_rom_len in H1.
  unfold Py.range in Hin. apply In_range_from in Hin as (k & Hk & ->).
  assert (Hcases : k = 0 \/ k = 1 \/ k = 2 \/ k = 3 \/ k = 4 \/ k = 5
                   \/ 6 <= k) by lia.
  destruct Hcases as [-> | [-> | [-> | [-> | [-> | [-> | Hk6]]]]]].
  1: reflexivity.
  1-5: destruct Hp as (Hh & Hinc & _); vm_compute in Hh;
       apply Some_inj in Hh; subst o; vm_compute in Hinc; discriminate Hinc.
  exfalso. revert Hp. apply zero_header_fails.
  unfold Inputs.short_rom.
  apply header_zero_tail.
  - change (Py.len (bytes_of _)) with 22. lia.
  - fold Inputs.short_rom. rewrite short_rom_len. lia.
Qed.

Lemma slice_whole {A} (l : list A) (b : Z) :
  Py.len l <= b -> Py.slice l 0 b = l.
Proof.
  intros H. pose proof (len_nonneg l). unfold Py.slice, Py.clamp_index.
  destruct (0 <? 0) eqn:E0; [lia|]. destruct (b <? 0) eqn:E1; [lia|].
  rewrite (Z.min_r b), (Z.min_l 0) by lia.
  change (Z.to_nat 0) with 0%nat. cbn [skipn].
  apply firstn_all2. unfold Py.len in *. lia.
Qed.

Lemma short_rom_scan :
  ReplaceSprites.robust_scan Inputs.short_rom
  = Some (0, Inputs.short_rom, (16, 6016, 6024, 6032)).
Proof.
  destruct (replace_robust_scan_spec Inputs.short_rom) as [Hmax Hex].
  destruct Hex as [[[off block] o] Hr].
  { exists 0, (16, 6016, 6024, 6032).
    split; [exact short_rom_in0 | exact short_rom_passes]. }
  rewrite Hr. destruct (Hmax _ _ _ Hr) as (Hin & Hp & _).
  pose proof (short_rom_only _ _ _ _ _ Hin Hp) as ->.
  apply replace_robust_scan_maximal in Hr as (_ & Hc & _).
  destruct Hp as (Hh & _). vm_compute in Hh. apply Some_inj in Hh. subst o.
  rewrite (replace_candidate_passes Inputs.short_rom 0 ltac:(lia) _
             short_rom_passes) in Hc.
  do 2 apply Some_inj in Hc. unfold Sprites.chars_of in Hc. cbn [snd] in Hc.
  assert (Hb : block = Py.slice Inputs.short_rom 0 (0 + 6032 + 1000000))
    by congruence.
  rewrite Hb, slice_whole by (rewrite short_rom_len; lia). reflexivity.
Qed.

Lemma le16_zero_tail (pre : bytes) (k : nat) (o : Z) :
  Py.len pre <= o -> o + 2 <= Py.len (pre ++ repeat x00 k) ->
  le16 (pre ++ repeat x00 k) o = Some 0.
Proof.
  intros H1 H2. unfold le16.
  rewrite struct_offset_inside by llia.
  rewrite !byte_at_zero_tail by lia. reflexivity.
Qed.

Lemma index_zero_tail (pre : bytes) (k : nat) (o : Z) :
  Py.len pre <= o -> o + 1 <= Py.len (pre ++ repeat x00 k) ->
  Py.index (pre ++ repeat x00 k) o = Some x00.
Proof.
  intros H1 H2. pose proof (len_nonneg pre) as Hp. unfold Py.index.
  destruct (o <? 0) eqn:E; [lia|].
  destruct ((0 <=? o) && (o <? Py.len (pre ++ repeat x00 k))) eqn:E2; [|lia].
  rewrite len_app in H2. unfold Py.len in *.
  rewrite nth_error_app2 by lia.
  rewrite repeat_length in H2.
  apply nth_error_repeat. lia.
Qed.

(** An image record in the zero bytes of a buffer is the zero record. *)
Lemma read_image_zero_tail (pre : bytes) (k : nat) (o : Z) :
  Py.len pre <= o -> o + 6 <= Py.len (pre ++ repeat x00 k) ->
  Sprites.read_image (pre ++ repeat x00 k) o = Some (Sprites.mkImage 0 0 0 0).
Proof.
  intros H1 H2. unfold Sprites.read_image.
  rewrite !le16_zero_tail by lia. rewrite !index_zero_tail by lia.
  reflexivity.
Qed.

Lemma mapM_const {A B} (f : A -> option B) (z : B) (l : list A) :
  (forall x, In x l -> f x = Some z) ->
  mapM f l = Some (repeat z (List.length l)).
Proof.
  induction l as [|x t IH]; intros H; [reflexivity|].
  cbn [mapM List.length repeat].
  rewrite (H x (or_introl eq_refl)), IH; [reflexivity|].
  intros y Hy. apply H. now right.
Qed.

Lemma short_rom_image_zero (i : Z) :
  In i (Py.range (0 + 1) 1000 1) ->
  Sprites.read_image Inputs.short_rom (16 + i * 6)
  = Some (Sprites.mkImage 0 0 0 0).
Proof.
  intros Hi. unfold Py.range in Hi.
  apply In_range_from in Hi as (j & Hj & ->).
  change (Z.of_nat (Z.to_nat ((1000 - (0 + 1) + 1 - 1) / 1))) with 999 in Hj.
  unfold Inputs.short_rom. apply read_image_zero_tail.
  - change (Py.len (bytes_of _)) with 22. lia.
  - fold Inputs.short_rom. rewrite short_rom_len. lia.
Qed.

Lemma short_rom_images_tail :
  mapM (fun i => Sprites.read_image Inputs.short_rom (16 + i * 6))
       (Py.range (0 + 1) 1000 1)
  = Some (repeat (Sprites.mkImage 0 0 0 0) 999).
Proof.
  rewrite (mapM_const (fun i => Sprites.read_image Inputs.short_rom (16 + i * 6))
             (Sprites.mkImage 0 0 0 0) (Py.range (0 + 1) 1000 1)
             short_rom_image_zero).
  unfold Py.range. rewrite length_range_from. reflexivity.
Qed.

Lemma short_rom_image0 :
  Sprites.read_image Inputs.short_rom (16 + 0 * 6)
  = Some (Sprites.mkImage 0 1 1 0).
Proof. vm_compute; reflexivity. Qed.

Lemma mapM_cons_eq {A B} (f : A -> option B) (x : A) (l : list A) (y : B)
      (ys : list B) :
  f x = Some y -> mapM f l = Some ys -> mapM f (x :: l) = Some (y :: ys).
Proof. intros H1 H2. cbn [mapM]. now rewrite H1, H2. Qed.

Lemma short_rom_images_all :
  mapM (fun i => Sprites.read_image Inputs.short_rom (16 + i * 6))
       (0 :: Py.range (0 + 1) 1000 1)
  = Some (Sprites.mkImage 0 1 1 0 :: repeat (Sprites.mkImage 0 0 0 0) 999).
Proof.
  apply mapM_cons_eq; [exact short_rom_image0 | exact short_rom_images_tail].
Qed.

Lemma range_1000 : Py.range 0 1000 1 = 0 :: Py.range (0 + 1) 1000 1.
Proof. apply range_cons; lia. Qed.

Lemma short_rom_images :
  Sprites.read_images Inputs.short_rom 16 1000
  = Some (Sprites.mkImage 0 1 1 0 :: repeat (Sprites.mkImage 0 0 0 0) 999).
Proof.
  unfold Sprites.read_images. rewrite range_1000. exact short_rom_images_all.
Qed.

Lemma short_rom_package :
  ReplaceSprites.parse_package Inputs.short_rom (16, 6016, 6024, 6032)
  = Some (Sprites.mkImage 0 1 1 0 :: repeat (Sprites.mkImage 0 0 0 0) 999,
          [Sprites.mkSprite 0 0 0 0], [0; 0; 0; 0], 6032).
Proof.
  unfold ReplaceSprites.parse_package.
  change (Sprites.aligned (16, 6016, 6024, 6032)) with true.
  cbn [negb]. cbv zeta.
  change ((6016 - 16) / 6) with 1000.
  rewrite short_rom_images.
  assert (Hs : Sprites.read_sprites Inputs.short_rom 6016 ((6024 - 6016) / 8)
               = Some [Sprites.mkSprite 0 0 0 0]) by (vm_compute; reflexivity).
  assert (Hp : Sprites.read_palette Inputs.short_rom 6024 ((6032 - 6024) / 2)
               = Some [0; 0; 0; 0]) by (vm_compute; reflexivity).
  rewrite Hs, Hp. reflexivity.
Qed.

(** The replacement of the only sprite of [short_rom] writes its sixteen
    bytes at 6032, eight of them past the end of the 6040-byte buffer. *)
Lemma short_rom_main :
  exists data',
    ReplaceSpritesMain.main Inputs.short_rom [Inputs.short_rom_job] false
    = Some (Some data')
    /\ Py.len data' = 6048.
Proof.
  unfold ReplaceSpritesMain.main. rewrite short_rom_scan.
  cbv beta iota. rewrite short_rom_package. cbv beta iota zeta.
  eexists. split; vm_compute; reflexivity.
Qed.

(** C1: the SPF2ALP audio import never raises and writes a buffer of the
    length of its input, and so does every run of the D-3 NPC name import
    that ends; the sprite replacement does not: on the 6040-byte buffer
    [short_rom] the character data of the only sprite are written at
    6032, and the buffer written out has 6048 bytes. *)
Theorem import_lengths :
  (forall data wavs,
      exists data',
        ImportDeviceSounds.import_spf2alp_sounds data wavs false
        = Some (Some data')
        /\ Py.len data' = Py.len data)
  /\ (forall fuel data npc_map fwd inv data' changes,
         ImportD3NpcNames.main fuel data npc_map fwd inv
         = Some (Some (data', changes)) ->
         Py.len data' = Py.len data)
  /\ Py.len Inputs.short_rom = 6040
  /\ exists data',
       ReplaceSpritesMain.main Inputs.short_rom [Inputs.short_rom_job] false
       = Some (Some data')
       /\ Py.len data' = 6048.
Proof.
  split; [exact import_spf2alp_sounds_len|].
  split; [|split; [exact short_rom_len | exact short_rom_main]].
  intros fuel data npc_map fwd inv data' changes H.
  exact (npc_main_len fuel data data' npc_map fwd inv changes H).
Qed.

Lemma import_lengths_witness :
  ImportD3NpcNames.main 3 Inputs.scenario1 [(0, "B"%string)]
    Inputs.letters_fwd Inputs.letters_inv
  = Some (Some (Inputs.scenario1, 0))
  /\ Py.len Inputs.scenario1 = Py.len Inputs.scenario1.
Proof.
  assert (H : ImportD3NpcNames.main 3 Inputs.scenario1 [(0, "B"%string)]
                Inputs.letters_fwd Inputs.letters_inv
              = Some (Some (Inputs.scenario1, 0)))
    by (vm_compute; reflexivity).
  split; [exact H|].
  exact (proj1 (proj2 import_lengths) 3%nat Inputs.scenario1
           [(0, "B"%string)] Inputs.letters_fwd Inputs.letters_inv
           Inputs.scenario1 0 H).
Defined.

(** ** Further properties: text archives *)

(** X1: the text-archive validator of the NPC and partner tools never
    raises; a view it accepts is kept as the data of the archive, holds
    between 1 and 20000 strings, has its offset table inside the view,
    and its offsets are non-decreasing words that point inside the view. *)
Theorem text_archive_validated (view : bytes) :
  match Txt.is_probable_text_archive view with
  | None => False
  | Some None => True
  | Some (Some ta) =>
      Txt.data ta = view
      /\ 1 <= Txt.n_strings ta <= 20000
      /\ 2 + 2 * Txt.n_strings ta <= Py.len view
      /\ Py.len (Txt.offsets_word ta) = Txt.n_strings ta
      /\ Forall (fun w => 0 <= w /\ w * 2 < Py.len view) (Txt.offsets_word ta)
      /\ StronglySorted Z.le (Txt.offsets_word ta)
  end.
Proof.
  destruct (text_archive_no_raise view) as [r E]. rewrite E.
  destruct r as [ta|]; [|exact I].
  exact (text_archive_header view ta E).
Qed.

Lemma find_terminator_spec (fuel : nat) (view : bytes) (w p : Z) :
  0 <= p ->
  exists b, ExportD3Data.find_terminator fuel view w p = Some b
            /\ (b = true ->
                exists k, 0 <= k /\ p + 2 * k - w * 2 <= 4096
                          /\ p + 2 * k + 2 <= Py.len view
                          /\ le16 view (p + 2 * k) = Some 0
                          /\ forall j, 0 <= j < k ->
                                       le16 view (p + 2 * j) <> Some 0).
Proof.
  revert p. induction fuel as [|f IH]; intros p Hp.
  - exists false. split; [reflexivity | discriminate].
  - cbn [ExportD3Data.find_terminator].
    destruct ((p + 2 <=? Py.len view) && (p - w * 2 <=? 4096)) eqn:E.
    + apply andb_true_iff in E as [E1 E2].
      destruct (le16_in_bounds view p) as [c Hc]; [lia | lia |].
      rewrite Hc. destruct (Z.eqb_spec c 0) as [-> | Hne].
      * exists true. split; [reflexivity|]. intros _. exists 0.
        rewrite Z.mul_0_r, Z.add_0_r.
        repeat split; try lia. exact Hc.
      * destruct (IH (p + 2) ltac:(lia)) as (b & Hb & Hq).
        exists b. split; [exact Hb|]. intros Ht.
        destruct (Hq Ht) as (k & H0 & H1 & H2 & H3 & H4).
        exists (k + 1).
        replace (p + 2 * (k + 1)) with (p + 2 + 2 * k) by lia.
        repeat split; try lia; [exact H3|].
        intros j Hj. destruct (Z.eq_dec j 0) as [-> | Hj0].
        -- rewrite Z.mul_0_r, Z.add_0_r, Hc. congruence.
        -- replace (p + 2 * j) with (p + 2 + 2 * (j - 1)) by lia.
           apply H4. lia.
    + exists false. split; [reflexivity | discriminate].
Qed.

Lemma all_terminated_spec (view : bytes) (offs : list Z) :
  Forall (fun w => 0 <= w) offs ->
  exists b, ExportD3Data.all_terminated view offs = Some b
            /\ (b = true ->
                Forall (fun w => exists k,
                            0 <= k <= 2048
                            /\ w * 2 + 2 * k + 2 <= Py.len view
                            /\ le16 view (w * 2 + 2 * k) = Some 0
                            /\ forall j, 0 <= j < k ->
                                 le16 view (w * 2 + 2 * j) <> Some 0) offs).
Proof.
  induction 1 as [|w rest Hw _ IH].
  - exists true. split; [reflexivity | constructor].
  - cbn [ExportD3Data.all_terminated].
    destruct (find_terminator_spec 2050 view w (w * 2) ltac:(lia))
      as (b & -> & Hb).
    destruct b.
    + destruct IH as (b' & Hb' & HF). exists b'. split; [exact Hb'|].
      intros Ht. constructor; [|exact (HF Ht)].
      destruct (Hb eq_refl) as (k & H0 & H1 & H2 & H3 & H4).
      exists k. repeat split; try lia; assumption.
    + exists false. split; [reflexivity | discriminate].
Qed.

(** X2: the validator of the partner exporters, which adds the terminator
    scan, never raises; a view it accepts is accepted with the same
    archive by the validator without the scan, and every string of it has
    a zero word inside the view at an even distance [2 * k] of at most
    4096 bytes after its start, the words at the even distances before it
    being other than zero. *)
Theorem terminated_archive_validated (view : bytes) :
  match ExportD3Data.is_probable_text_archive view with
  | None => False
  | Some None => True
  | Some (Some ta) =>
      Txt.is_probable_text_archive view = Some (Some ta)
      /\ Forall (fun w => exists k,
                     0 <= k <= 2048
                     /\ w * 2 + 2 * k + 2 <= Py.len view
                     /\ le16 view (w * 2 + 2 * k) = Some 0
                     /\ forall j, 0 <= j < k ->
                          le16 view (w * 2 + 2 * j) <> Some 0)
                (Txt.offsets_word ta)
  end.
Proof.
  pose proof (text_archive_no_raise view) as [r Hr].
  unfold ExportD3Data.is_probable_text_archive.
  unfold Txt.is_probable_text_archive in *.
  destruct (Py.len view <? 4); [exact I|].
  destruct (le16 view 0) as [n|]; [|discriminate].
  destruct (negb _); [exact I|].
  destruct (2 + 2 * n >? Py.len view); [exact I|].
  destruct (mapM _ _) as [offs|]; [|discriminate].
  destruct (Txt.offsets_ok (Py.len view) 0 offs) eqn:Eo; cbn [negb];
    [|exact I].
  destruct (offsets_ok_sound _ _ _ Eo) as [HF _].
  destruct (all_terminated_spec view offs) as (b & -> & Hb).
  { eapply Forall_impl; [|exact HF]. cbv beta. lia. }
  destruct b; [|exact I].
  split; [reflexivity|]. exact (Hb eq_refl).
Qed.

(** ** Further properties: the name codec *)

Lemma hex_val_digit (d : Z) :
  0 <= d < 16 -> Str.hex_val (Fmt.digit_char d) = Some d.
Proof.
  intros H.
  assert (Hc : d = 0 \/ d = 1 \/ d = 2 \/ d = 3 \/ d = 4 \/ d = 5 \/ d = 6
               \/ d = 7 \/ d = 8 \/ d = 9 \/ d = 10 \/ d = 11 \/ d = 12
               \/ d = 13 \/ d = 14 \/ d = 15) by lia.
  repeat (destruct Hc as [-> | Hc]; [reflexivity|]). subst d. reflexivity.
Qed.

Lemma log2_fuel (n k : Z) :
  0 <= k -> 2 ^ k <= n -> (Z.to_nat k <= Z.to_nat (Z.log2 n))%nat.
Proof.
  intros Hk Hn. apply Z2Nat.inj_le; [lia | apply Z.log2_nonneg |].
  rewrite <- (Z.log2_pow2 k) by lia. apply Z.log2_le_mono. exact Hn.
Qed.

(** [f"{n:04X}"] of a 16-bit value is its four hexadecimal digits. *)
Lemma hex04X_digits (n : Z) :
  0 <= n < 65536 ->
  Fmt.hex04X n
  = String (Fmt.digit_char (n / 4096))
      (String (Fmt.digit_char (n / 256 mod 16))
         (String (Fmt.digit_char (n / 16 mod 16))
            (String (Fmt.digit_char (n mod 16)) EmptyString))).
Proof.
  intros Hn. unfold Fmt.hex04X, Fmt.to_base.
  assert (Hcase : n < 16 \/ 16 <= n < 256 \/ 256 <= n < 4096 \/ 4096 <= n)
    by lia.
  destruct Hcase as [H | [H | [H | H]]].
  - cbn [Fmt.digits].
    rewrite (Z.div_small n 16) by lia. cbn [Z.eqb].
    rewrite (Z.div_small n 4096), (Z.div_small n 256) by lia.
    reflexivity.
  - pose proof (log2_fuel n 4 ltac:(lia) ltac:(change (2 ^ 4) with 16; lia)).
    destruct (Z.to_nat (Z.log2 n)) as [|f] eqn:E; [simpl in *; lia|].
    cbn [Fmt.digits].
    destruct (Z.eqb_spec (n / 16) 0) as [E0|_];
      [pose proof (Z.div_le_lower_bound n 16 1); lia|].
    rewrite (Z.div_small (n / 16) 16)
      by (split; [apply Z.div_pos; lia | apply Z.div_lt_upper_bound; lia]).
    cbn [Z.eqb].
    rewrite (Z.div_small n 4096), (Z.div_small n 256) by lia.
    rewrite (Z.mod_small (n / 16) 16)
      by (split; [apply Z.div_pos; lia | apply Z.div_lt_upper_bound; lia]).
    reflexivity.
  - pose proof (log2_fuel n 8 ltac:(lia) ltac:(change (2 ^ 8) with 256; lia)).
    destruct (Z.to_nat (Z.log2 n)) as [|[|f]] eqn:E; [simpl in *; lia ..|].
    cbn [Fmt.digits].
    destruct (Z.eqb_spec (n / 16) 0) as [E0|_];
      [pose proof (Z.div_le_lower_bound n 16 1); lia|].
    rewrite !Z.div_div by lia. change (16 * 16) with 256.
    destruct (Z.eqb_spec (n / 256) 0) as [E0|_];
      [pose proof (Z.div_le_lower_bound n 256 1); lia|].
    assert (Hq : 0 <= n / 256 < 16)
      by (split; [apply Z.div_pos; lia | apply Z.div_lt_upper_bound; lia]).
    change (256 * 16) with 4096.
    rewrite (Z.div_small n 4096) by lia. cbn [Z.eqb].
    rewrite (Z.mod_small (n / 256) 16) by exact Hq.
    reflexivity.
  - pose proof (log2_fuel n 12 ltac:(lia)
                  ltac:(change (2 ^ 12) with 4096; lia)).
    destruct (Z.to_nat (Z.log2 n)) as [|[|[|f]]] eqn:E; [simpl in *; lia ..|].
    cbn [Fmt.digits].
    destruct (Z.eqb_spec (n / 16) 0) as [E0|_];
      [pose proof (Z.div_le_lower_bound n 16 1); lia|].
    rewrite !Z.div_div by lia. change (16 * 16) with 256.
    destruct (Z.eqb_spec (n / 256) 0) as [E0|_];
      [pose proof (Z.div_le_lower_bound n 256 1); lia|].
    change (256 * 16) with 4096.
    destruct (Z.eqb_spec (n / 4096) 0) as [E0|_];
      [pose proof (Z.div_le_lower_bound n 4096 1); lia|].
    assert (Hq : 0 <= n / 4096 < 16)
      by (split; [apply Z.div_pos; lia | apply Z.div_lt_upper_bound; lia]).
    change (4096 * 16) with 65536.
    rewrite (Z.div_small n 65536) by lia. cbn [Z.eqb].
    rewrite (Z.mod_small (n / 4096) 16) by exact Hq.
    reflexivity.
Qed.

Lemma hex_digits_value (n : Z) :
  0 <= n < 65536 ->
  ((n / 4096 * 16 + n / 256 mod 16) * 16 + n / 16 mod 16) * 16 + n mod 16 = n.
Proof.
  intros H.
  assert (E1 : n / 16 / 16 = n / 256) by (rewrite Z.div_div by lia; reflexivity).
  assert (E2 : n / 256 / 16 = n / 4096)
    by (rewrite Z.div_div by lia; reflexivity).
  pose proof (Z.div_mod n 16 ltac:(lia)).
  pose proof (Z.div_mod (n / 16) 16 ltac:(lia)).
  pose proof (Z.div_mod (n / 256) 16 ltac:(lia)).
  rewrite E1 in *. rewrite E2 in *. lia.
Qed.

Lemma hex4_digits (n : Z) :
  0 <= n < 65536 ->
  Str.hex4 (Fmt.digit_char (n / 4096)) (Fmt.digit_char (n / 256 mod 16))
           (Fmt.digit_char (n / 16 mod 16)) (Fmt.digit_char (n mod 16))
  = Some n.
Proof.
  intros H. unfold Str.hex4.
  assert (0 <= n / 4096 < 16)
    by (split; [apply Z.div_pos; lia | apply Z.div_lt_upper_bound; lia]).
  pose proof (Z.mod_pos_bound (n / 256) 16 ltac:(lia)).
  pose proof (Z.mod_pos_bound (n / 16) 16 ltac:(lia)).
  pose proof (Z.mod_pos_bound n 16 ltac:(lia)).
  rewrite !hex_val_digit by assumption.
  now rewrite hex_digits_value.
Qed.

Lemma decode_words_code (b0 b1 : byte) (rest : bytes) :
  0 < byte_val b0 + 256 * byte_val b1 < 0xF000 ->
  Txt.decode_words (b0 :: b1 :: rest)
  = ("<" ++ Fmt.hex04X (byte_val b0 + 256 * byte_val b1) ++ ">"
     ++ Txt.decode_words rest)%string.
Proof.
  intros H. cbn [Txt.decode_words]. cbv zeta.
  destruct (Z.eqb_spec (byte_val b0 + 256 * byte_val b1) 0); [lia|].
  destruct (_ >=? 61440) eqn:E; [lia | reflexivity].
Qed.

Lemma encode_to_codes_tag (c : Z) (s : string) :
  0 < c < 65536 ->
  ImportD3NpcNames.encode_to_codes ("<" ++ Fmt.hex04X c ++ ">" ++ s)%string
  = match ImportD3NpcNames.encode_to_codes s with
    | Some out => Some (c :: out)
    | None => None
    end.
Proof.
  intros H. rewrite hex04X_digits by lia.
  cbn [append ImportD3NpcNames.encode_to_codes].
  rewrite hex4_digits by lia.
  destruct (ImportD3NpcNames.encode_to_codes s); [|reflexivity].
  destruct (Z.eqb_spec c 0); [lia | reflexivity].
Qed.

(** X3: for codes from 1 to 0xEFFF the encoder of the NPC importer gives
    two bytes per code and a two-byte terminator, and the decoder of the
    exporter, whatever bytes follow the terminator, reads back a tag
    string that the importer parses to the same codes. *)
Theorem npc_codes_roundtrip (codes : list Z) (tail : bytes) :
  Forall (fun c => 0 < c < 0xF000) codes ->
  exists enc,
    ImportD3NpcNames.encode_bytes codes = Some enc
    /\ Py.len enc = 2 * Py.len codes + 2
    /\ ImportD3NpcNames.encode_to_codes
         (Txt.decode_string (enc ++ tail) 0) = Some codes.
Proof.
  unfold Txt.decode_string. change (Z.to_nat 0) with 0%nat. cbn [skipn].
  induction 1 as [|c rest Hc _ IH].
  - exists [x00; x00]. repeat split.
  - destruct IH as (enc & He & Hl & Hd).
    destruct (pack16_spec c ltac:(lia)) as (b0 & b1 & Hp & Hv).
    exists (b0 :: b1 :: enc). cbn [ImportD3NpcNames.encode_bytes].
    rewrite Hp, He. split; [reflexivity|]. split.
    + rewrite !len_cons. lia.
    + cbn [app]. rewrite decode_words_code by lia.
      rewrite Hv, encode_to_codes_tag by lia. now rewrite Hd.
Qed.

Lemma npc_codes_roundtrip_witness :
  exists enc,
    ImportD3NpcNames.encode_bytes [0x41; 0x42] = Some enc
    /\ Py.len enc = 2 * Py.len [0x41; 0x42] + 2
    /\ ImportD3NpcNames.encode_to_codes
         (Txt.decode_string (enc ++ [x43; x00]) 0) = Some [0x41; 0x42].
Proof.
  apply (npc_codes_roundtrip [0x41; 0x42] [x43; x00]).
  repeat constructor; lia.
Defined.

(** ** Further properties: archive headers and package scans *)

(** X4: at a non-negative offset the archive-header test never raises; an
    archive it accepts is based at that offset, has between 1 and 65535
    entries, as many as its count word says, and every entry has a
    non-negative offset that points inside the buffer. *)
Theorem tama_archive_validated (buf : bytes) (abs_off : Z) :
  0 <= abs_off ->
  match Arc.is_probable_tama_archive buf abs_off with
  | None => False
  | Some None => True
  | Some (Some arc) =>
      Arc.base_off arc = abs_off
      /\ 1 <= Arc.count arc <= 65535
      /\ Py.len (Arc.entries arc) = Arc.count arc
      /\ Forall (fun e => 0 <= Arc.offset e
                          /\ abs_off + Arc.offset e <= Py.len buf)
                (Arc.entries arc)
  end.
Proof.
  intros Hoff. destruct (tama_archive_spec buf abs_off Hoff) as (r & -> & Hs).
  destruct r as [arc|]; [|exact I].
  destruct (Hs arc eq_refl) as (Hb & [_ Hwf] & Hc & Hl).
  rewrite Hb in Hwf. auto.
Qed.

Lemma tama_archive_validated_witness :
  match Arc.is_probable_tama_archive Inputs.scenario1 0 with
  | None => False
  | Some None => True
  | Some (Some arc) =>
      Arc.base_off arc = 0
      /\ 1 <= Arc.count arc <= 65535
      /\ Py.len (Arc.entries arc) = Arc.count arc
      /\ Forall (fun e => 0 <= Arc.offset e
                          /\ 0 + Arc.offset e <= Py.len Inputs.scenario1)
                (Arc.entries arc)
  end.
Proof. apply (tama_archive_validated Inputs.scenario1 0). lia. Defined.

Lemma range_from_sorted (n : nat) (a step : Z) :
  0 < step -> StronglySorted Z.lt (Py.range_from n a step).
Proof.
  intros Hs. revert a. induction n as [|n IH]; intros a; [constructor|].
  cbn [Py.range_from]. constructor; [apply IH|].
  apply Forall_forall. intros x Hx.
  apply In_range_from in Hx as (k & Hk & ->). nia.
Qed.

Lemma sorted_split_before (l before after : list Z) (x y : Z) :
  StronglySorted Z.lt l -> l = before ++ x :: after ->
  In y l -> y < x -> In y before.
Proof.
  intros Hs -> Hin Hlt. apply in_app_or in Hin as [Hin | [-> | Hin]].
  - exact Hin.
  - lia.
  - exfalso. revert Hs Hin Hlt. clear. induction before as [|b t IH].
    + cbn [app]. intros Hs Hin Hlt. inversion Hs as [|? ? _ HF]; subst.
      rewrite Forall_forall in HF. specialize (HF y Hin). lia.
    + cbn [app]. intros Hs. inversion Hs; subst. now apply IH.
Qed.

(** X5: [scan_for_package] returns the first offset, in steps of four,
    that passes the structural checks of the exporter: the offset it
    returns passes them with the header words it reports, and no smaller
    scanned offset passes; it fails exactly when no scanned offset
    passes. *)
Theorem scan_for_package_first (data : bytes) :
  match ExportSprites.scan_for_package data with
  | Some (off, (o, _, _, _)) =>
      In off (Py.range 0 (Py.len data - 16) 4)
      /\ ScanSpec.passes 500 10000 64 data off o
      /\ forall off' o', In off' (Py.range 0 (Py.len data - 16) 4) ->
                         off' < off ->
                         ~ ScanSpec.passes 500 10000 64 data off' o'
  | None =>
      forall off' o', In off' (Py.range 0 (Py.len data - 16) 4) ->
                      ~ ScanSpec.passes 500 10000 64 data off' o'
  end.
Proof.
  unfold ExportSprites.scan_for_package.
  destruct (ExportSprites.first_candidate data _) as [r|] eqn:E.
  - destruct (first_candidate_first _ _ _ E) as (before & after & Hsplit & Hc & Hb).
    assert (Hin0 : In (fst r) (Py.range 0 (Py.len data - 16) 4))
      by (rewrite Hsplit; apply in_elt).
    pose proof (scan_range_bounds _ _ Hin0) as [Hr0 _].
    destruct (export_candidate_sound data (fst r) Hr0 r Hc) as [_ Hp].
    destruct r as [off [[[o im] sp] pl]]. cbn [fst snd] in *.
    split; [exact Hin0|]. split; [exact Hp|].
    intros off' o' Hin Hlt Hp'.
    pose proof (scan_range_bounds _ _ Hin) as [H0 _].
    destruct (export_candidate_passes data off' H0 o' Hp')
      as (im' & sp' & pl' & Hc').
    rewrite (Hb off') in Hc'; [discriminate|].
    eapply sorted_split_before; [| exact Hsplit | exact Hin | exact Hlt].
    apply range_from_sorted. lia.
  - intros off' o' Hin Hp'.
    pose proof (scan_range_bounds _ _ Hin) as [H0 _].
    destruct (export_candidate_passes data off' H0 o' Hp')
      as (im' & sp' & pl' & Hc').
    revert E Hin Hc'. generalize (Py.range 0 (Py.len data - 16) 4).
    induction l as [|x t IH]; [intros _ []|].
    cbn [ExportSprites.first_candidate].
    destruct (ExportSprites.candidate data x) eqn:Ex; [discriminate|].
    intros E [-> | Hin] Hc'; [congruence | now apply IH].
Qed.

(** X6: [robust_scan] of [replace_sprites.py] returns an offset that
    passes its structural checks, with the bytes from that offset as the
    block, and no scanned offset that passes has a larger [chars] word;
    it fails exactly when no scanned offset passes. *)
Theorem replace_robust_scan_best (data : bytes) :
  match ReplaceSprites.robust_scan data with
  | Some (off, block, o) =>
      In off (Py.range 0 (Py.len data - 16) 4)
      /\ ScanSpec.passes 1000 5000 0 data off o
      /\ block = Py.slice data off (off + Sprites.chars_of o + 1000000)
      /\ forall off' o', In off' (Py.range 0 (Py.len data - 16) 4) ->
                         ScanSpec.passes 1000 5000 0 data off' o' ->
                         Sprites.chars_of o' <= Sprites.chars_of o
  | None =>
      forall off' o', In off' (Py.range 0 (Py.len data - 16) 4) ->
                      ~ ScanSpec.passes 1000 5000 0 data off' o'
  end.
Proof.
  destruct (replace_robust_scan_spec data) as [Hmax Hex].
  destruct (ReplaceSprites.robust_scan data) as [[[off block] o]|] eqn:E.
  - destruct (Hmax off block o eq_refl) as (Hin & Hp & Hall).
    split; [exact Hin|]. split; [exact Hp|]. split; [|exact Hall].
    apply replace_robust_scan_maximal in E as (_ & Hc & _).
    pose proof (scan_range_bounds _ _ Hin) as [H0 _].
    destruct (replace_candidate_sound data off H0 _ Hc) as (o1 & E1 & _).
    inversion E1; subst. reflexivity.
  - intros off' o' Hin Hp.
    destruct Hex as [r Hr]; [now exists off', o' | discriminate].
Qed.

(** X7: the same for [robust_scan] of [update_palette.py], which reads
    only the last image record instead of parsing the tables. *)
Theorem palette_robust_scan_best (data : bytes) :
  match UpdatePalette.robust_scan data with
  | Some (off, block, o) =>
      In off (Py.range 0 (Py.len data - 16) 4)
      /\ ScanSpec.passes 1000 5000 0 data off o
      /\ block = Py.slice data off (off + Sprites.chars_of o + 1000000)
      /\ forall off' o', In off' (Py.range 0 (Py.len data - 16) 4) ->
                         ScanSpec.passes 1000 5000 0 data off' o' ->
                         Sprites.chars_of o' <= Sprites.chars_of o
  | None =>
      forall off' o', In off' (Py.range 0 (Py.len data - 16) 4) ->
                      ~ ScanSpec.passes 1000 5000 0 data off' o'
  end.
Proof.
  destruct (palette_robust_scan_spec data) as [Hmax Hex].
  destruct (UpdatePalette.robust_scan data) as [[[off block] o]|] eqn:E.
  - destruct (Hmax off block o eq_refl) as (Hin & Hp & Hall).
    split; [exact Hin|]. split; [exact Hp|]. split; [|exact Hall].
    apply palette_robust_scan_maximal in E as (_ & Hc & _).
    pose proof (scan_range_bounds _ _ Hin) as [H0 _].
    destruct (palette_candidate_sound data off H0 _ Hc) as (o1 & E1 & _).
    inversion E1; subst. reflexivity.
  - intros off' o' Hin Hp.
    destruct Hex as [r Hr]; [now exists off', o' | discriminate].
Qed.

(** ** Further properties: sprite characters *)

Lemma land3_cases (a : Z) :
  Z.land a 3 = 0 \/ Z.land a 3 = 1 \/ Z.land a 3 = 2 \/ Z.land a 3 = 3.
Proof.
  assert (E : Z.land a 3 = a mod 4).
  { change 3 with (Z.shiftl 1 2 - 1). now rewrite land_mask by lia. }
  rewrite E. pose proof (Z.mod_pos_bound a 4 ltac:(lia)). lia.
Qed.

Lemma sprite_dims_cases (a : Z) :
  let '(w, h, bpp) := Sprites.sprite_dims a in
  In w [8; 16; 32; 64] /\ In h [8; 16; 32; 64] /\ In bpp [2; 4; 6; 8]
  /\ (w * h * bpp) mod 8 = 0
  /\ 16 <= (w * h * bpp + 7) / 8 <= 4096.
Proof.
  unfold Sprites.sprite_dims, Sprites.sp_hsize, Sprites.sp_vsize,
    Sprites.sp_color, Sprites.bits_pp.
  destruct (land3_cases (Z.shiftr a 4)) as [-> | [-> | [-> | ->]]];
    destruct (land3_cases (Z.shiftr a 6)) as [-> | [-> | [-> | ->]]];
    destruct (land3_cases a) as [-> | [-> | [-> | ->]]];
    vm_compute; intuition discriminate.
Qed.

(** X8: whatever the attribute word, a sprite is 8, 16, 32 or 64 pixels
    wide and high and has 2, 4, 6 or 8 bits per pixel; its character data
    are a whole number of bytes, between 16 and 4096. *)
Theorem sprite_dims_range (a : Z) :
  let '(w, h, bpp) := Sprites.sprite_dims a in
  In w [8; 16; 32; 64] /\ In h [8; 16; 32; 64] /\ In bpp [2; 4; 6; 8]
  /\ (w * h * bpp) mod 8 = 0
  /\ 16 <= (w * h * bpp + 7) / 8 <= 4096.
Proof. exact (sprite_dims_cases a). Qed.

Lemma pack_loop_mask (n : nat) (it : list Z) (bpp : Z) (out : bytes)
      (acc accbits : Z) :
  Pixels.pack_loop n it bpp (Z.shiftl 1 bpp - 1) out acc accbits
  = Pixels.pack_loop n (firstn n (map (fun x => Z.land x (Z.shiftl 1 bpp - 1)) it))
      bpp (Z.shiftl 1 bpp - 1) out acc accbits.
Proof.
  revert it out acc accbits.
  induction n as [|n IH]; intros it out acc accbits; [reflexivity|].
  destruct it as [|x it]; [reflexivity|].
  cbn [map firstn Pixels.pack_loop]. cbv zeta.
  rewrite <- Z.land_assoc, Z.land_diag.
  destruct (Pixels.flush _ _ _ _) as [[o1 a1] b1]. apply IH.
Qed.

Lemma pack_loop_short (n : nat) (it : list Z) (bpp mask : Z) (out : bytes)
      (acc accbits : Z) :
  (List.length it < n)%nat ->
  Pixels.pack_loop n it bpp mask out acc accbits = None.
Proof.
  revert it out acc accbits.
  induction n as [|n IH]; intros it out acc accbits H; [lia|].
  destruct it as [|x it]; [reflexivity|].
  cbn [Pixels.pack_loop]. cbv zeta.
  destruct (Pixels.flush _ _ _ _) as [[o1 a1] b1]. apply IH.
  cbn [List.length] in H. lia.
Qed.

Lemma land_mask_digit (bpp x : Z) :
  0 <= bpp -> 0 <= Z.land x (Z.shiftl 1 bpp - 1) < 2 ^ bpp.
Proof.
  intros H. rewrite land_mask by lia.
  apply Z.mod_pos_bound. apply pow2_pos. lia.
Qed.

(** The packer on any list of at least [w*h] indexes. *)
Lemma pack_any (w h bpp : Z) (idxs : list Z) :
  1 <= bpp -> 0 <= w * h <= Py.len idxs ->
  exists b,
    Pixels.pack_bits_msb idxs w h bpp = Some b
    /\ Py.len b = (w * h * bpp + 7) / 8
    /\ Pixels.unpack_bits b w h bpp
       = map (fun x => Z.land x (Z.shiftl 1 bpp - 1)) (Py.slice idxs 0 (w * h)).
Proof.
  intros Hbpp Hwh.
  set (v := map (fun x => Z.land x (Z.shiftl 1 bpp - 1))
                (Py.slice idxs 0 (w * h))).
  assert (Hv : v = firstn (Z.to_nat (w * h))
                     (map (fun x => Z.land x (Z.shiftl 1 bpp - 1)) idxs)).
  { unfold v, Py.slice. rewrite !clamp_index_id by lia.
    change (Z.to_nat 0) with 0%nat. cbn [skipn]. rewrite Z.sub_0_r.
    now rewrite firstn_map. }
  assert (Hlen : w * h = Py.len v).
  { unfold v. rewrite len_map, len_slice by lia. lia. }
  assert (Hd : Bits.digits (2 ^ bpp) v).
  { unfold v. apply Forall_map. apply Forall_forall. intros x _.
    apply land_mask_digit. lia. }
  assert (Hsame : Pixels.pack_bits_msb idxs w h bpp
                  = Pixels.pack_bits_msb v w h bpp).
  { unfold Pixels.pack_bits_msb. destruct (bpp <? 0); [reflexivity|].
    cbv zeta. rewrite (pack_loop_mask _ idxs), <- Hv.
    rewrite (pack_loop_mask _ v).
    replace (firstn (Z.to_nat (w * h))
               (map (fun x => Z.land x (Z.shiftl 1 bpp - 1)) v)) with v;
      [reflexivity|].
    rewrite firstn_all2 by (rewrite length_map; unfold Py.len in Hlen; lia).
    unfold v. rewrite map_map. apply map_ext. intros x.
    now rewrite <- Z.land_assoc, Z.land_diag. }
  destruct (pack_bits_msb_spec bpp ltac:(lia) v w h Hlen Hd)
    as (b & pad & Hp & Hpad & _ & Hl).
  destruct (pack_unpack w h bpp v Hbpp Hlen Hd) as (b' & Hp' & Hu).
  rewrite Hp in Hp'. apply Some_inj in Hp'. subst b'.
  exists b. rewrite Hsame. split; [exact Hp|]. split; [|exact Hu].
  rewrite Hlen. apply Z.div_unique with (r := 7 - pad); lia.
Qed.

(** X9: given at least [w*h] indexes and a depth of at least one bit,
    [pack_bits_msb] returns exactly [(w*h*bpp + 7) // 8] bytes, and the
    unpacker of the exporter reads back the first [w*h] indexes, each
    reduced to its low [bpp] bits; given fewer than [w*h] indexes it
    raises. *)
Theorem pack_bits_msb_total (w h bpp : Z) (idxs : list Z) :
  1 <= bpp -> 0 <= w * h ->
  if w * h <=? Py.len idxs
  then exists b,
      Pixels.pack_bits_msb idxs w h bpp = Some b
      /\ Py.len b = (w * h * bpp + 7) / 8
      /\ Pixels.unpack_bits b w h bpp
         = map (fun x => Z.land x (Z.shiftl 1 bpp - 1))
               (Py.slice idxs 0 (w * h))
  else Pixels.pack_bits_msb idxs w h bpp = None.
Proof.
  intros Hbpp Hwh. destruct (w * h <=? Py.len idxs) eqn:E.
  - apply pack_any; lia.
  - unfold Pixels.pack_bits_msb. destruct (bpp <? 0) eqn:Eb; [reflexivity|].
    cbv zeta. rewrite pack_loop_short; [reflexivity|].
    unfold Py.len in E. lia.
Qed.

Lemma pack_bits_msb_total_witness :
  if 1 * 3 <=? Py.len [5; 70; 9; 1]
  then exists b,
      Pixels.pack_bits_msb [5; 70; 9; 1] 1 3 6 = Some b
      /\ Py.len b = (1 * 3 * 6 + 7) / 8
      /\ Pixels.unpack_bits b 1 3 6
         = map (fun x => Z.land x (Z.shiftl 1 6 - 1))
               (Py.slice [5; 70; 9; 1] 0 (1 * 3))
  else Pixels.pack_bits_msb [5; 70; 9; 1] 1 3 6 = None.
Proof. apply (pack_bits_msb_total 1 3 6 [5; 70; 9; 1]); lia. Defined.

(** ** Further properties: what the sprite replacement writes *)

Lemma slice_inside {A} (l : list A) (a b : Z) :
  0 <= a <= b -> b <= Py.len l ->
  Py.slice l a b = firstn (Z.to_nat (b - a)) (skipn (Z.to_nat a) l).
Proof.
  intros H1 H2. unfold Py.slice. now rewrite !clamp_index_id by lia.
Qed.

Lemma slice_assign_inside {A} (l v : list A) (a : Z) :
  0 <= a -> a + Py.len v <= Py.len l ->
  Py.slice_assign l a (a + Py.len v) v
  = firstn (Z.to_nat a) l ++ v ++ skipn (Z.to_nat (a + Py.len v)) l.
Proof.
  intros H1 H2. pose proof (len_nonneg v). unfold Py.slice_assign.
  rewrite !clamp_index_id by lia. now rewrite Z.max_r by lia.
Qed.

(** A slice assignment inside the buffer is read back by the same
    slice. *)
Lemma slice_assign_read {A} (l v : list A) (a : Z) :
  0 <= a -> a + Py.len v <= Py.len l ->
  Py.slice (Py.slice_assign l a (a + Py.len v) v) a (a + Py.len v) = v.
Proof.
  intros H1 H2. pose proof (len_nonneg v) as Hv.
  rewrite slice_inside by (rewrite ?len_slice_assign_inside; lia).
  rewrite slice_assign_inside by lia.
  assert (Hp : List.length (firstn (Z.to_nat a) l) = Z.to_nat a)
    by (rewrite length_firstn; unfold Py.len in *; lia).
  rewrite skipn_app, Hp, Nat.sub_diag, (skipn_all2 (firstn (Z.to_nat a) l))
    by lia.
  cbn [skipn app].
  replace (Z.to_nat (a + Py.len v - a)) with (List.length v + 0)%nat
    by (unfold Py.len; lia).
  rewrite firstn_app_2. cbn [firstn]. apply app_nil_r.
Qed.

(** A slice assignment inside the buffer changes no byte outside the
    slice. *)
Lemma slice_assign_frame (l v : bytes) (a i : Z) :
  0 <= a -> a + Py.len v <= Py.len l ->
  0 <= i < a \/ a + Py.len v <= i ->
  byte_at (Py.slice_assign l a (a + Py.len v) v) i = byte_at l i.
Proof.
  intros H1 H2 Hi. pose proof (len_nonneg v) as Hv.
  rewrite slice_assign_inside by lia. unfold byte_at.
  replace (Z.to_nat (a + Py.len v)) with (Z.to_nat a + List.length v)%nat
    by (unfold Py.len; lia).
  f_equal. apply nth_splice_outside; unfold Py.len in *; lia.
Qed.

Lemma slice_slice {A} (l : list A) (a b c d : Z) :
  0 <= a -> 0 <= c <= d -> a + d <= b -> a + d <= Py.len l ->
  Py.slice (Py.slice l a b) c d = Py.slice l (a + c) (a + d).
Proof.
  intros Ha Hc Hb Hl.
  assert (Hin : Py.len (Py.slice l a b) = Z.min b (Py.len l) - a)
    by (rewrite len_slice by lia; lia).
  rewrite (slice_inside (Py.slice l a b)) by lia.
  rewrite (slice_inside l (a + c)) by lia.
  unfold Py.slice. rewrite (clamp_index_id _ a) by lia.
  assert (Eb : Py.clamp_index (Py.len l) b = Z.min b (Py.len l)).
  { unfold Py.clamp_index. destruct (b <? 0) eqn:E; lia. }
  rewrite Eb. rewrite skipn_firstn_comm, firstn_firstn, skipn_skipn.
  f_equal; [lia | f_equal; lia].
Qed.

(** X10: what the sprite replacement writes for one sprite, the exporter
    decodes back.  For a package at [pkg_off >= 0] with character data at
    [chars >= 0] and a sprite with [charnum >= 0], after the packed
    indexes of the sprite are written inside the buffer at
    [pkg_off + chars + charnum * nbytes], [decode_character] on the block
    [data[pkg_off:]], from which the exporter decodes, returns the size
    of the sprite and the written indexes, each reduced to its low [bpp]
    bits; and so it does on every block [data[pkg_off:e]] that holds the
    bytes of the sprite. *)
Theorem written_character_read_back (data : bytes)
        (pkg_off chars charnum attr : Z) (idxs : list Z) :
  let '(w, h, bpp) := Sprites.sprite_dims attr in
  let nbytes := (w * h * bpp + 7) / 8 in
  let char_off := pkg_off + chars + charnum * nbytes in
  0 <= pkg_off -> 0 <= chars -> 0 <= charnum ->
  char_off + nbytes <= Py.len data ->
  Py.len idxs = w * h ->
  exists packed,
    Pixels.pack_bits_msb idxs w h bpp = Some packed
    /\ let data' := Py.slice_assign data char_off (char_off + nbytes) packed in
       Pixels.decode_character (Py.slice data' pkg_off (Py.len data'))
         chars charnum attr
       = (w, h, map (fun x => Z.land x (Z.shiftl 1 bpp - 1)) idxs)
       /\ forall e, char_off + nbytes <= e ->
            Pixels.decode_character (Py.slice data' pkg_off e)
              chars charnum attr
            = (w, h, map (fun x => Z.land x (Z.shiftl 1 bpp - 1)) idxs).
Proof.
  pose proof (sprite_dims_cases attr) as Hr.
  unfold Pixels.decode_character.
  destruct (Sprites.sprite_dims attr) as [[w h] bpp].
  destruct Hr as (Hw & Hh & Hb & _ & Hn).
  cbv zeta. intros Hp Hc Hcn Hfit Hlen.
  assert (Hbpp : 1 <= bpp) by (cbn [In] in Hb; lia).
  assert (Hwh : 0 <= w * h) by (cbn [In] in Hw, Hh; nia).
  destruct (pack_any w h bpp idxs Hbpp ltac:(lia)) as (b & Hpack & Hbl & Hu).
  exists b. split; [exact Hpack|].
  set (nb := (w * h * bpp + 7) / 8) in *.
  assert (Hcn' : 0 <= charnum * nb) by nia.
  remember (pkg_off + chars + charnum * nb) as off eqn:Eoff.
  assert (Hlen' : Py.len (Py.slice_assign data off (off + nb) b)
                  = Py.len data).
  { rewrite <- Hbl. apply len_slice_assign_inside; lia. }
  assert (Hany : forall e, off + nb <= e ->
            (w, h,
             Pixels.unpack_bits
               (Py.slice (Py.slice (Py.slice_assign data off (off + nb) b)
                            pkg_off e)
                  (chars + charnum * nb) (chars + charnum * nb + nb))
               w h bpp)
            = (w, h, map (fun x => Z.land x (Z.shiftl 1 bpp - 1)) idxs)).
  { intros e He.
    rewrite slice_slice; [| lia | lia | lia | rewrite Hlen'; lia].
    replace (pkg_off + (chars + charnum * nb)) with off by lia.
    replace (pkg_off + (chars + charnum * nb + nb)) with (off + nb) by lia.
    rewrite <- Hbl. rewrite slice_assign_read by lia.
    rewrite Hu. do 2 f_equal.
    unfold Py.slice. rewrite !clamp_index_id by lia.
    change (Z.to_nat 0) with 0%nat. cbn [skipn].
    apply firstn_all2. unfold Py.len in Hlen. lia. }
  split; [apply Hany; rewrite Hlen'; lia | exact Hany].
Qed.

Lemma written_character_read_back_witness :
  exists packed,
    Pixels.pack_bits_msb (repeat 2 64) 8 8 2 = Some packed
    /\ let data' := Py.slice_assign (repeat x00 60) 36 (36 + 16) packed in
       Pixels.decode_character (Py.slice data' 4 (Py.len data')) 16 1 0
       = (8, 8, map (fun x => Z.land x (Z.shiftl 1 2 - 1)) (repeat 2 64))
       /\ forall e, 36 + 16 <= e ->
            Pixels.decode_character (Py.slice data' 4 e) 16 1 0
            = (8, 8, map (fun x => Z.land x (Z.shiftl 1 2 - 1))
                         (repeat 2 64)).
Proof.
  apply (written_character_read_back (repeat x00 60) 4 16 1 0 (repeat 2 64));
    vm_compute; congruence.
Defined.

(** X11: the sprite replacement keeps the length of the buffer whenever
    the character data of every sprite it writes lie inside the buffer:
    then no packing raises and every write replaces as many bytes as it
    writes. *)
Theorem write_tiles_inside (sprs : list Sprites.SpriteDef)
        (ds : list (Z * Z * Z)) (data : bytes) (bin_chars_base : Z)
        (tile : Z -> Z) (rest_tiles : Z -> Z -> Z) :
  Forall (fun sd : Sprites.SpriteDef * (Z * Z * Z) =>
            let '(s, (w, h, bpp)) := sd in
            let nbytes := (w * h * bpp + 7) / 8 in
            1 <= bpp /\ 0 <= w * h
            /\ 0 <= bin_chars_base + Sprites.charnum s * nbytes
            /\ bin_chars_base + Sprites.charnum s * nbytes + nbytes
               <= Py.len data)
         (combine sprs ds) ->
  exists data',
    ReplaceSpritesMain.write_tiles data bin_chars_base sprs ds tile rest_tiles
    = Some data'
    /\ Py.len data' = Py.len data.
Proof.
  revert ds data tile rest_tiles.
  induction sprs as [|s sprs IH]; intros ds data tile rest_tiles HF.
  - exists data. split; reflexivity.
  - destruct ds as [|[[w h] bpp] ds].
    + exists data. split; reflexivity.
    + cbn [combine] in HF. apply Forall_cons_iff in HF as [Hs HF].
      cbv zeta in Hs. destruct Hs as (Hbpp & Hwh & Hlo & Hhi).
      cbn [ReplaceSpritesMain.write_tiles]. cbv zeta.
      destruct (pack_any w h bpp (map tile (Py.range 0 (w * h) 1)) Hbpp)
        as (b & -> & Hbl & _).
      { rewrite len_map. unfold Py.len. rewrite length_range. lia. }
      set (off := bin_chars_base + Sprites.charnum s * ((w * h * bpp + 7) / 8))
        in *.
      assert (Hl : Py.len (Py.slice_assign data off
                             (off + (w * h * bpp + 7) / 8) b) = Py.len data).
      { rewrite <- Hbl. apply len_slice_assign_inside; lia. }
      destruct (IH ds (Py.slice_assign data off (off + (w * h * bpp + 7) / 8) b)
                  (rest_tiles 0) (fun n => rest_tiles (n + 1)))
        as (data' & Hw & Hl').
      { eapply Forall_impl; [|exact HF]. intros [s' [[w' h'] bpp']].
        cbv zeta. rewrite Hl. tauto. }
      exists data'. split; [exact Hw | lia].
Qed.

Lemma write_tiles_inside_witness :
  exists data',
    ReplaceSpritesMain.write_tiles (repeat x00 40) 8
      [Sprites.mkSprite 1 0 0 0] [(8, 8, 2)] (fun _ => 1) (fun _ _ => 0)
    = Some data'
    /\ Py.len data' = Py.len (repeat x00 40).
Proof.
  apply (write_tiles_inside [Sprites.mkSprite 1 0 0 0] [(8, 8, 2)]
           (repeat x00 40) 8 (fun _ => 1) (fun _ _ => 0)).
  repeat constructor; vm_compute; congruence.
Defined.

(** ** Further properties: the ADPCM codec and the audio import *)

Lemma decode_nibbles_multiples (nibs : list Z) (p si : Z) :
  0 <= si <= 15 ->
  exists pcm, Adpcm.decode_nibbles (p, si) nibs = Some pcm
              /\ List.length pcm = List.length nibs
              /\ Forall (fun s => -32752 <= s <= 32752 /\ s mod 16 = 0) pcm.
Proof.
  revert p si. induction nibs as [|nib rest IH]; intros p si Hsi.
  - exists []. repeat split. constructor.
  - cbn [Adpcm.decode_nibbles].
    destruct (decode_nibble_total p si nib Hsi) as (p' & si' & E & Hsi' & Hp').
    rewrite E. destruct (IH p' si' Hsi') as (pcm & E2 & Hl & Hf).
    rewrite E2. exists (p' * 16 :: pcm). split; [reflexivity|].
    split; [cbn [List.length]; now rewrite Hl|].
    constructor; [|exact Hf]. split; [lia | apply Z.mod_mul; lia].
Qed.

(** X12: the ADPCM decoder never raises; it returns two samples for every
    input byte, each a multiple of 16 between -32752 and 32752. *)
Theorem gp_adpcm_decode_total (adpcm_bytes : bytes) :
  exists pcm,
    Adpcm.gp_adpcm_decode adpcm_bytes = Some pcm
    /\ Py.len pcm = 2 * Py.len adpcm_bytes
    /\ Forall (fun s => -32752 <= s <= 32752 /\ s mod 16 = 0) pcm.
Proof.
  unfold Adpcm.gp_adpcm_decode.
  destruct (decode_nibbles_multiples (Adpcm.nibbles_of adpcm_bytes) 0 0
              ltac:(lia)) as (pcm & E & Hl & HF).
  exists pcm. split; [exact E|]. split; [|exact HF].
  unfold Py.len. rewrite Hl, length_nibbles_of. lia.
Qed.

Lemma encode_sample_total (p si sample : Z) :
  0 <= si <= 15 ->
  exists p' si' nib,
    Adpcm.encode_sample (p, si) sample = Some ((p', si'), nib)
    /\ 0 <= si' <= 15 /\ 0 <= nib <= 15.
Proof.
  intros Hsi. unfold Adpcm.encode_sample. cbv zeta.
  destruct (index_inside Adpcm.step_table si) as [step E].
  { change (Py.len Adpcm.step_table) with 16. lia. }
  destruct (sample - p <? 0); cbv iota beta; rewrite E;
    do 3 (destruct_if; cbv iota beta);
    eval_closed; rewrite !(if_clamp 0 15) by lia;
    eexists _, _, _; (split; [reflexivity|]);
    (split; [apply clamp_range; lia | lia]).
Qed.

Lemma encode_samples_total (qs : list Z) (p si : Z) :
  0 <= si <= 15 ->
  exists nibs, Adpcm.encode_samples (p, si) qs = Some nibs
               /\ List.length nibs = List.length qs.
Proof.
  revert p si. induction qs as [|q rest IH]; intros p si Hsi.
  - exists []. split; reflexivity.
  - cbn [Adpcm.encode_samples].
    destruct (encode_sample_total p si q Hsi) as (p' & si' & nib & -> & Hsi' & _).
    destruct (IH p' si' Hsi') as (nibs & -> & Hl).
    exists (nib :: nibs). split; [reflexivity|]. cbn [List.length]. lia.
Qed.

Lemma len_pack_nibbles (nibs : list Z) :
  Py.len (Adpcm.pack_nibbles nibs) = (Py.len nibs + 1) / 2.
Proof.
  enough (G : Py.len (Adpcm.pack_nibbles nibs) = (Py.len nibs + 1) / 2
              /\ forall x, Py.len (Adpcm.pack_nibbles (x :: nibs))
                           = (Py.len (x :: nibs) + 1) / 2) by apply G.
  induction nibs as [|y rest [IH1 IH2]].
  - split; [reflexivity|]. intros x. reflexivity.
  - split; [apply IH2|]. intros x.
    cbn [Adpcm.pack_nibbles]. rewrite !len_cons, IH1.
    pose proof (len_nonneg rest).
    apply Z.div_unique with (r := (Py.len rest + 1) mod 2).
    + left. apply Z.mod_pos_bound. lia.
    + pose proof (Z.div_mod (Py.len rest + 1) 2 ltac:(lia)). lia.
Qed.

(** X13: from any predictor and a step index inside the table the ADPCM
    encoder never raises, whatever the samples, and packs two samples per
    byte: it returns [(n + 1) // 2] bytes for [n] samples. *)
Theorem gp_adpcm_encode_total (pcm16 : list Z)
        (initial_predictor initial_step_index : Z) :
  0 <= initial_step_index <= 15 ->
  exists enc,
    Adpcm.gp_adpcm_encode pcm16 initial_predictor initial_step_index
    = Some enc
    /\ Py.len enc = (Py.len pcm16 + 1) / 2.
Proof.
  intros Hsi. unfold Adpcm.gp_adpcm_encode. cbv zeta.
  destruct (encode_samples_total (map Adpcm.quantize pcm16)
              initial_predictor initial_step_index Hsi) as (nibs & -> & Hl).
  eexists. split; [reflexivity|].
  rewrite len_pack_nibbles. unfold Py.len. rewrite Hl, length_map.
  reflexivity.
Qed.

Lemma gp_adpcm_encode_total_witness :
  exists enc,
    Adpcm.gp_adpcm_encode [32767; -32768; 5] 0 0 = Some enc
    /\ Py.len enc = (Py.len [32767; -32768; 5] + 1) / 2.
Proof. apply (gp_adpcm_encode_total [32767; -32768; 5] 0 0). lia. Defined.

(** X14: the block scan never raises; every block it reports starts at a
    non-negative offset, has its ADPCM slot right after the 64-byte
    header, non-empty and ending inside the file, and a sample rate
    between 1 and 192000. *)
Theorem scan_spf2alp_blocks_inside (data : bytes) :
  exists blocks,
    ImportDeviceSounds.scan_spf2alp_blocks data = Some blocks
    /\ Forall (AudioSpec.slot_ok (Py.len data)) blocks.
Proof. exact (scan_spf2alp_blocks_spec data). Qed.

(** X15: trimming or padding gives exactly [slot_bytes] bytes, the bytes
    of the encoding followed by zeros, so the final size check of the
    import never skips a block. *)
Theorem fit_exact (encoded : bytes) (slot : Z) :
  0 <= slot ->
  Py.len (ImportDeviceSounds.fit encoded slot) = slot
  /\ ImportDeviceSounds.fit encoded slot
     = (Py.slice encoded 0 slot
        ++ repeat x00 (Z.to_nat (slot - Py.len encoded)))%list.
Proof.
  intros Hs. split; [apply len_fit; exact Hs|].
  unfold ImportDeviceSounds.fit. pose proof (len_nonneg encoded) as Hl.
  destruct (Py.len encoded >? slot) eqn:E1.
  - replace (Z.to_nat (slot - Py.len encoded)) with 0%nat by lia.
    cbn [repeat]. now rewrite app_nil_r.
  - assert (Hall : Py.slice encoded 0 slot = encoded).
    { unfold Py.slice, Py.clamp_index.
      destruct (0 <? 0) eqn:E0; [lia|]. destruct (slot <? 0) eqn:E2; [lia|].
      rewrite (Z.min_r slot (Py.len encoded)), (Z.min_l 0) by lia.
      change (Z.to_nat 0) with 0%nat. cbn [skipn].
      apply firstn_all2. unfold Py.len in *. lia. }
    rewrite Hall. destruct (Py.len encoded <? slot) eqn:E2; [reflexivity|].
    replace (Z.to_nat (slot - Py.len encoded)) with 0%nat by lia.
    cbn [repeat]. now rewrite app_nil_r.
Qed.

Lemma fit_exact_witness :
  Py.len (ImportDeviceSounds.fit [x01; x02; x03] 2) = 2
  /\ ImportDeviceSounds.fit [x01; x02; x03] 2
     = (Py.slice [x01; x02; x03] 0 2
        ++ repeat x00 (Z.to_nat (2 - Py.len [x01; x02; x03])))%list.
Proof. apply (fit_exact [x01; x02; x03] 2). lia. Defined.

Lemma import_block_frame (dry_run : bool) (wavs : Z -> Z -> option (list Z))
      (data : bytes) (b : ImportDeviceSounds.block) (i : Z) :
  AudioSpec.slot_ok (Py.len data) b ->
  0 <= i ->
  i < ImportDeviceSounds.adpcm_start b \/ ImportDeviceSounds.adpcm_end b <= i ->
  byte_at (ImportDeviceSounds.import_block dry_run wavs data b) i
  = byte_at data i.
Proof.
  intros (Hs & Ha & He & Hslot & Hpos & Hend & _) Hi Hout.
  unfold ImportDeviceSounds.import_block.
  destruct (wavs _ _) as [pcm|]; [|reflexivity].
  destruct (Adpcm.gp_adpcm_encode pcm 0 0) as [enc|]; [|reflexivity].
  destruct (Py.len enc =? 0); [reflexivity|]. cbv zeta.
  destruct (negb _); [reflexivity|].
  destruct dry_run; [reflexivity|].
  pose proof (len_fit enc (ImportDeviceSounds.slot_bytes b) ltac:(lia)) as Hf.
  replace (ImportDeviceSounds.adpcm_end b)
    with (ImportDeviceSounds.adpcm_start b
          + Py.len (ImportDeviceSounds.fit enc (ImportDeviceSounds.slot_bytes b)))
    by lia.
  apply slice_assign_frame;
    unfold ImportDeviceSounds.SPF2_HEADER_SIZE in *; lia.
Qed.

Lemma import_blocks_frame (wavs : Z -> Z -> option (list Z))
      (blocks : list ImportDeviceSounds.block) (data : bytes) (i : Z) :
  Forall (AudioSpec.slot_ok (Py.len data)) blocks ->
  0 <= i ->
  Forall (fun b => i < ImportDeviceSounds.adpcm_start b
                   \/ ImportDeviceSounds.adpcm_end b <= i) blocks ->
  byte_at (fold_left (ImportDeviceSounds.import_block false wavs) blocks data) i
  = byte_at data i.
Proof.
  revert data. induction blocks as [|b rest IH]; intros data Hok Hi Hout;
    [reflexivity|].
  apply Forall_cons_iff in Hok as [Hb Hok].
  apply Forall_cons_iff in Hout as [Hob Hout].
  cbn [fold_left].
  rewrite IH; [now apply import_block_frame | | exact Hi | exact Hout].
  now rewrite len_import_block.
Qed.

(** X16: the audio import changes no byte outside the ADPCM slots of the
    blocks it found: a byte that lies in no slot, such as any byte of a
    block header, is the same in the buffer written out. *)
Theorem import_changes_only_slots (data : bytes)
        (wavs : Z -> Z -> option (list Z)) (i : Z) :
  0 <= i ->
  exists blocks data',
    ImportDeviceSounds.scan_spf2alp_blocks data = Some blocks
    /\ ImportDeviceSounds.import_spf2alp_sounds data wavs false
       = Some (Some data')
    /\ (Forall (fun b => i < ImportDeviceSounds.adpcm_start b
                         \/ ImportDeviceSounds.adpcm_end b <= i) blocks ->
        byte_at data' i = byte_at data i).
Proof.
  intros Hi. destruct (scan_spf2alp_blocks_spec data) as (blocks & Hs & Hok).
  unfold ImportDeviceSounds.import_spf2alp_sounds. rewrite Hs.
  eexists _, _. split; [reflexivity|]. split; [reflexivity|].
  intros Hout. now apply import_blocks_frame.
Qed.

Lemma import_changes_only_slots_witness :
  exists blocks data',
    ImportDeviceSounds.scan_spf2alp_blocks
      (ImportDeviceSounds.MAGIC_SPF2ALP ++ repeat x00 60)%list = Some blocks
    /\ ImportDeviceSounds.import_spf2alp_sounds
         (ImportDeviceSounds.MAGIC_SPF2ALP ++ repeat x00 60)%list
         (fun _ _ => Some [32767; 0; 0; 0; 0; 0; 0; 0; 0; 0]) false
       = Some (Some data')
    /\ (Forall (fun b => 3 < ImportDeviceSounds.adpcm_start b
                         \/ ImportDeviceSounds.adpcm_end b <= 3) blocks ->
        byte_at data' 3
        = byte_at (ImportDeviceSounds.MAGIC_SPF2ALP ++ repeat x00 60)%list 3).
Proof.
  apply (import_changes_only_slots
           (ImportDeviceSounds.MAGIC_SPF2ALP ++ repeat x00 60)%list
           (fun _ _ => Some [32767; 0; 0; 0; 0; 0; 0; 0; 0; 0]) 3).
  lia.
Defined.

(** ** Further properties: the writes of the name importers *)

(** X17: a name patch of the D-3 NPC importer, on an archive that lies
    inside the buffer, keeps the length of the buffer and changes no byte
    outside the slot of the string: the bytes from the string's offset up
    to its capacity. *)
Theorem npc_patch_frame (st st' : bytes * Z) (ta : Txt.TextArchive) (si : Z)
        (new_name : string) (fwd inv : list (string * string)) (i : Z) :
  Forall (fun w => 0 <= w /\ w * 2 < Py.len (Txt.data ta))
         (Txt.offsets_word ta) ->
  0 <= Txt.base_off ta ->
  Txt.base_off ta + Py.len (Txt.data ta) <= Py.len (fst st) ->
  ImportD3NpcNames.patch_name st ta si new_name fwd inv = Some st' ->
  0 <= i ->
  (forall w cap, Py.index (Txt.offsets_word ta) si = Some w ->
                 ImportD3NpcNames.string_capacity ta si = Some cap ->
                 i < Txt.base_off ta + w * 2
                 \/ Txt.base_off ta + w * 2 + cap <= i) ->
  Py.len (fst st') = Py.len (fst st)
  /\ byte_at (fst st') i = byte_at (fst st) i.
Proof.
  intros HF Hb He Hp Hi Hout.
  split; [exact (patch_name_len (Py.len (fst st)) fwd inv st st' ta si
                   new_name HF Hb He eq_refl Hp)|].
  unfold ImportD3NpcNames.patch_name in Hp.
  destruct (ImportD3NpcNames.check_name ta si new_name fwd inv)
    as [[reason | pos enc]|] eqn:E; [| |discriminate];
    apply Some_inj in Hp; subst st'; [reflexivity|].
  destruct (npc_write_inside ta si new_name fwd inv pos enc HF E) as [H1 H2].
  destruct (npc_written_spec ta si new_name fwd inv pos enc E)
    as (_ & _ & old & codes & cap & w & _ & _ & _ & _ & Hcap & Hle & Hw & ->).
  cbn [ImportD3NpcNames.apply_outcome fst].
  specialize (Hout w cap Hw Hcap).
  apply slice_assign_frame; lia.
Qed.

Lemma npc_patch_frame_witness :
  Py.len (fst (Py.slice_assign Inputs.local_rom 8 12 [x42; x00; x00; x00], 1))
  = Py.len (fst (Inputs.local_rom, 0))
  /\ byte_at (fst (Py.slice_assign Inputs.local_rom 8 12
                     [x42; x00; x00; x00], 1)) 14
     = byte_at (fst (Inputs.local_rom, 0)) 14.
Proof.
  apply (npc_patch_frame (Inputs.local_rom, 0) _ Inputs.local_ta 0
           "B"%string Inputs.letters_fwd Inputs.letters_inv 14).
  - vm_compute. repeat constructor; congruence.
  - vm_compute. congruence.
  - vm_compute. congruence.
  - vm_compute. reflexivity.
  - lia.
  - intros w cap Hw Hc. vm_compute in Hw, Hc.
    apply Some_inj in Hw, Hc. subst. right. vm_compute. congruence.
Defined.

Lemma len_pack_into16 (data data' : bytes) (o v : Z) :
  pack_into16 data o v = Some data' -> Py.len data' = Py.len data.
Proof.
  unfold pack_into16.
  destruct (pack16 v) as [w|] eqn:Ew; [|discriminate].
  destruct (struct_offset (Py.len data) o 2) as [p|] eqn:Ep; [|discriminate].
  intros H. apply Some_inj in H. subst data'.
  unfold pack16 in Ew. destruct (_ && _); [|discriminate].
  apply Some_inj in Ew. subst w.
  unfold struct_offset in Ep.
  destruct ((0 <=? _) && (_ <=? _)) eqn:E; [|discriminate].
  apply Some_inj in Ep. apply andb_true_iff in E as [E1 E2].
  assert (0 <= p /\ p + 2 <= Py.len data) as [H1 H2] by (subst p; lia).
  rewrite !len_app, len_firstn, len_skipn by lia.
  rewrite !len_cons. change (Py.len (@nil byte)) with 0. lia.
Qed.

Lemma digivice_write_inside (ta : Txt.TextArchive) (si : Z)
      (new_name : string) (rules : list (string * string)) (pos : Z)
      (enc : bytes) :
  Forall (fun w => 0 <= w) (Txt.offsets_word ta) ->
  ImportDigivice.check_name ta si new_name rules
  = Some (ImportDigivice.Written pos enc) ->
  exists w old,
    Py.index (Txt.offsets_word ta) si = Some w
    /\ NameSpec.slot_bytes ta si = Some old
    /\ Py.len enc = Py.len old
    /\ pos = Txt.base_off ta + w * 2
    /\ 0 <= w
    /\ (1 <= Py.len old -> w * 2 + Py.len old <= Py.len (Txt.data ta)).
Proof.
  intros HF H.
  destruct (digivice_written_spec ta si new_name rules pos enc H)
    as (_ & _ & old & w & Hold & Hlen & Hw & Hpos).
  exists w, old. repeat split; try assumption.
  - rewrite Forall_forall in HF. apply HF. eapply index_In, Hw.
  - intros Hpos1. unfold NameSpec.slot_bytes in Hold. rewrite Hw in Hold.
    assert (Hw0 : 0 <= w)
      by (rewrite Forall_forall in HF; apply HF; eapply index_In, Hw).
    destruct (if si + 1 <? Txt.n_strings ta then _ else _) as [e|] eqn:Ee;
      [|discriminate].
    apply Some_inj in Hold. subst old.
    assert (Hnn : 0 <= e).
    { destruct (si + 1 <? Txt.n_strings ta).
      - destruct (Py.index (Txt.offsets_word ta) (si + 1)) as [w'|] eqn:Ew';
          [|discriminate].
        apply Some_inj in Ee. subst e.
        rewrite Forall_forall in HF.
        pose proof (HF w' (index_In _ _ _ Ew')). lia.
      - apply Some_inj in Ee. subst e. apply len_nonneg. }
    rewrite len_slice in * by lia. lia.
Qed.

(** X18: a name update of the Digivice importers, on an archive that lies
    inside the buffer, keeps the length of the buffer and changes no byte
    outside the bytes the string occupies. *)
Theorem digivice_update_frame (data data' : bytes) (ta : Txt.TextArchive)
        (si : Z) (new_name : string) (rules : list (string * string))
        (i : Z) :
  Forall (fun w => 0 <= w) (Txt.offsets_word ta) ->
  0 <= Txt.base_off ta ->
  Txt.base_off ta + Py.len (Txt.data ta) <= Py.len data ->
  ImportDigivice.update_name data ta si new_name rules = Some data' ->
  0 <= i ->
  (forall w old, Py.index (Txt.offsets_word ta) si = Some w ->
                 NameSpec.slot_bytes ta si = Some old ->
                 i < Txt.base_off ta + w * 2
                 \/ Txt.base_off ta + w * 2 + Py.len old <= i) ->
  Py.len data' = Py.len data /\ byte_at data' i = byte_at data i.
Proof.
  intros HF Hb He Hu Hi Hout.
  unfold ImportDigivice.update_name in Hu.
  destruct (ImportDigivice.check_name ta si new_name rules)
    as [[|pos enc]|] eqn:E; [| |discriminate];
    apply Some_inj in Hu; subst data'; [split; reflexivity|].
  destruct (digivice_write_inside ta si new_name rules pos enc HF E)
    as (w & old & Hw & Hold & Hlen & -> & Hw0 & Hin).
  specialize (Hout w old Hw Hold).
  cbn [ImportDigivice.apply_outcome].
  pose proof (len_nonneg enc) as Hl.
  destruct (Z.eq_dec (Py.len enc) 0) as [Hz | Hnz].
  - destruct enc; [|rewrite len_cons in Hz; pose proof (len_nonneg enc); lia].
    change (Py.len (@nil byte)) with 0. rewrite Z.add_0_r.
    assert (Hsame : Py.slice_assign data (Txt.base_off ta + w * 2)
                      (Txt.base_off ta + w * 2) [] = data).
    { unfold Py.slice_assign. rewrite Z.max_id. cbn [app].
      apply firstn_skipn. }
    rewrite Hsame. split; reflexivity.
  - specialize (Hin ltac:(lia)).
    split; [apply len_slice_assign_inside; lia|].
    apply slice_assign_frame; lia.
Qed.

Lemma digivice_update_frame_witness :
  Py.len (Py.slice_assign Inputs.pair_rom 8 12 [x42; x00; x00; x00])
  = Py.len Inputs.pair_rom
  /\ byte_at (Py.slice_assign Inputs.pair_rom 8 12 [x42; x00; x00; x00]) 12
     = byte_at Inputs.pair_rom 12.
Proof.
  apply (digivice_update_frame Inputs.pair_rom _ Inputs.local_pair_ta 0
           "B"%string Inputs.letters_inv 12).
  - vm_compute. repeat constructor; congruence.
  - vm_compute. congruence.
  - vm_compute. congruence.
  - vm_compute. reflexivity.
  - lia.
  - intros w old Hw Ho. vm_compute in Hw, Ho.
    apply Some_inj in Hw, Ho. subst. right. vm_compute. congruence.
Defined.

Lemma len_encode_to_bytes (codes : list Z) (b : bytes) :
  ImportD3Data.encode_to_bytes codes = Some b ->
  Py.len b = 2 * Py.len codes + 2.
Proof.
  revert b. induction codes as [|c rest IH]; intros b.
  - cbn [ImportD3Data.encode_to_bytes]. unfold pack16.
    destruct (_ && _); [|discriminate].
    intros H. apply Some_inj in H. subst b. reflexivity.
  - cbn [ImportD3Data.encode_to_bytes]. unfold pack16.
    destruct (_ && _); [|discriminate].
    destruct (ImportD3Data.encode_to_bytes rest) as [b'|]; [|discriminate].
    intros H. apply Some_inj in H. subst b.
    rewrite len_app, !len_cons, (IH b' eq_refl).
    change (Py.len (@nil byte)) with 0. change (Py.len (@nil Z)) with 0. lia.
Qed.

(** X19: what the D-3 partner importer writes for a row: under the reject
    policy the written bytes never exceed the capacity of the slot; under
    the truncate policy they never exceed the capacity or two bytes,
    whichever is larger, the terminator being written even into a slot
    with no room for it. *)
Theorem d3_written_fits (imap : list (Txt.TextArchive * Z)) (truncate : bool)
        (si : Z) (name : string) (inv : list (string * string)) (pos : Z)
        (enc : bytes) :
  ImportD3Data.check_row imap truncate si name inv
  = Some (ImportD3Data.Written pos enc) ->
  Str.any_in Str.FORBIDDEN_CHARS name = false
  /\ exists ta slot cap w,
       Py.index imap si = Some (ta, slot)
       /\ ImportD3Data.string_capacity_bytes ta slot = Some cap
       /\ Py.index (Txt.offsets_word ta) slot = Some w
       /\ pos = Txt.base_off ta + w * 2
       /\ Py.len enc <= (if truncate then Z.max 2 cap else cap).
Proof.
  unfold ImportD3Data.check_row.
  destruct (Str.any_in _ name) eqn:E1; [discriminate|].
  destruct (negb _); [discriminate|].
  destruct (Py.index imap si) as [[ta slot]|] eqn:E2; [|discriminate].
  destruct (ImportD3Data.encode_from_tagstring _) as [codes|];
    [|discriminate].
  destruct (ImportD3Data.encode_to_bytes codes) as [enc0|] eqn:E3;
    [|discriminate].
  destruct (ImportD3Data.string_capacity_bytes ta slot) as [cap|] eqn:E4;
    [|discriminate].
  assert (Hcap : 0 <= cap).
  { unfold ImportD3Data.string_capacity_bytes in E4.
    destruct (Py.index (Txt.offsets_word ta) slot); [|discriminate].
    destruct (if slot + 1 <? _ then _ else _); [|discriminate].
    apply Some_inj in E4. lia. }
  split; [reflexivity|].
  destruct (Py.len enc0 >? cap) eqn:E5.
  - destruct truncate; [|discriminate].
    destruct (ImportD3Data.encode_to_bytes (Py.slice codes 0 _)) as [t|] eqn:E6;
      [|discriminate].
    destruct (Py.index (Txt.offsets_word ta) slot) as [w|] eqn:E7;
      [|discriminate].
    apply Some_inj in H. injection H as <- <-.
    exists ta, slot, cap, w. repeat split; try assumption.
    apply len_encode_to_bytes in E6.
    rewrite len_slice in E6 by lia.
    pose proof (len_nonneg codes).
    pose proof (Z.div_mod cap 2 ltac:(lia)).
    pose proof (Z.mod_pos_bound cap 2 ltac:(lia)). lia.
  - destruct (Py.index (Txt.offsets_word ta) slot) as [w|] eqn:E7;
      [|discriminate].
    apply Some_inj in H. injection H as <- <-.
    exists ta, slot, cap, w. repeat split; try assumption.
    destruct truncate; lia.
Qed.

Lemma d3_written_fits_witness :
  Str.any_in Str.FORBIDDEN_CHARS "AAB"%string = false
  /\ exists ta slot cap w,
       Py.index [(Inputs.padded_ta, 0)] 0 = Some (ta, slot)
       /\ ImportD3Data.string_capacity_bytes ta slot = Some cap
       /\ Py.index (Txt.offsets_word ta) slot = Some w
       /\ 0x1EC014 = Txt.base_off ta + w * 2
       /\ Py.len [x41; x00; x41; x00; x00; x00]
          <= (if true then Z.max 2 cap else cap).
Proof.
  apply (d3_written_fits [(Inputs.padded_ta, 0)] true 0 "AAB"%string
           Inputs.letters_inv 0x1EC014 [x41; x00; x41; x00; x00; x00]).
  vm_compute. reflexivity.
Defined.

Lemma digivice_update_len (data data' : bytes) (ta : Txt.TextArchive)
      (si : Z) (new_name : string) (rules : list (string * string)) :
  Forall (fun w => 0 <= w) (Txt.offsets_word ta) ->
  0 <= Txt.base_off ta ->
  Txt.base_off ta + Py.len (Txt.data ta) <= Py.len data ->
  ImportDigivice.update_name data ta si new_name rules = Some data' ->
  Py.len data' = Py.len data.
Proof.
  intros HF Hb He Hu.
  unfold ImportDigivice.update_name in Hu.
  destruct (ImportDigivice.check_name ta si new_name rules)
    as [[|pos enc]|] eqn:E; [| |discriminate];
    apply Some_inj in Hu; subst data'; [reflexivity|].
  destruct (digivice_write_inside ta si new_name rules pos enc HF E)
    as (w & old & Hw & Hold & Hlen & -> & Hw0 & Hin).
  cbn [ImportDigivice.apply_outcome].
  pose proof (len_nonneg enc) as Hl.
  destruct (Z.eq_dec (Py.len enc) 0) as [Hz | Hnz].
  - destruct enc; [|rewrite len_cons in Hz; pose proof (len_nonneg enc); lia].
    change (Py.len (@nil byte)) with 0. rewrite Z.add_0_r.
    unfold Py.slice_assign. rewrite Z.max_id. cbn [app].
    now rewrite firstn_skipn.
  - specialize (Hin ltac:(lia)). apply len_slice_assign_inside; lia.
Qed.

(** X20: the row loop of the Digivice partner importer, on a name archive
    that lies inside the buffer, keeps the length of the buffer over any
    list of rows, whatever is written or skipped. *)
Theorem digivice_rows_keep_length (rows : list ImportDigiviceData.row)
        (data data' : bytes) (ta : Txt.TextArchive)
        (rules : list (string * string)) :
  Forall (fun w => 0 <= w) (Txt.offsets_word ta) ->
  0 <= Txt.base_off ta ->
  Txt.base_off ta + Py.len (Txt.data ta) <= Py.len data ->
  ImportDigiviceData.process_rows data ta rules rows = Some data' ->
  Py.len data' = Py.len data.
Proof.
  intros HF Hb. revert data.
  induction rows as [|r rest IH]; intros data He H.
  - apply Some_inj in H. now subst data'.
  - cbn [ImportDigiviceData.process_rows] in H.
    destruct (ImportDigiviceData.process_row data ta rules r) as [d1|] eqn:E;
      [|discriminate].
    assert (Hl : Py.len d1 = Py.len data).
    { unfold ImportDigiviceData.process_row in E.
      destruct (_ >=? _); [apply Some_inj in E; now subst d1|].
      destruct (ImportDigiviceData.update_power data r) as [d0|] eqn:Ep;
        [|discriminate].
      assert (Hl0 : Py.len d0 = Py.len data).
      { unfold ImportDigiviceData.update_power in Ep.
        destruct (_ >? _); [apply Some_inj in Ep; now subst d0|].
        eapply len_pack_into16, Ep. }
      rewrite <- Hl0.
      eapply digivice_update_len; [exact HF | exact Hb | | exact E]. lia. }
    rewrite <- Hl. apply IH; [lia | exact H].
Qed.

Lemma digivice_rows_keep_length_witness :
  Py.len (Py.slice_assign Inputs.pair_rom 8 12 [x42; x00; x00; x00])
  = Py.len Inputs.pair_rom.
Proof.
  apply (digivice_rows_keep_length
           [ImportDigiviceData.mkRow 0 "B"%string 300 1;
            ImportDigiviceData.mkRow 5 "A"%string 10 1]
           Inputs.pair_rom _ Inputs.local_pair_ta Inputs.letters_inv).
  - vm_compute. repeat constructor; congruence.
  - vm_compute. congruence.
  - vm_compute. congruence.
  - vm_compute. reflexivity.
Defined.

(** ** Further properties: colour words and attribute words *)

Lemma channel_roundtrip (c : Z) :
  0 <= c < 32 ->
  Z.max 0 (Z.min 31 ((c * 255 / 31 * 31 + 127) / 255)) = c
  /\ 0 <= c * 255 / 31 <= 255.
Proof.
  intros H.
  assert (Hc : c = 0 \/ c = 1 \/ c = 2 \/ c = 3 \/ c = 4 \/ c = 5 \/ c = 6
               \/ c = 7 \/ c = 8 \/ c = 9 \/ c = 10 \/ c = 11 \/ c = 12
               \/ c = 13 \/ c = 14 \/ c = 15 \/ c = 16 \/ c = 17 \/ c = 18
               \/ c = 19 \/ c = 20 \/ c = 21 \/ c = 22 \/ c = 23 \/ c = 24
               \/ c = 25 \/ c = 26 \/ c = 27 \/ c = 28 \/ c = 29 \/ c = 30
               \/ c = 31) by lia.
  repeat (destruct Hc as [-> | Hc];
          [split; [reflexivity | split; discriminate]|]).
  subst c. split; [reflexivity | split; discriminate].
Qed.

Lemma land_31 (a : Z) : Z.land a 31 = a mod 32.
Proof. change 31 with (Z.shiftl 1 5 - 1). now rewrite land_mask by lia. Qed.

Lemma land_bit15 (w : Z) :
  0 <= w < 65536 -> Z.land w 32768 = if w <? 32768 then 0 else 32768.
Proof.
  intros Hw. destruct (w <? 32768) eqn:E.
  - apply Z.bits_inj'. intros n Hn.
    rewrite Z.land_spec, Z.bits_0. change 32768 with (2 ^ 15).
    rewrite Z.pow2_bits_eqb by lia.
    destruct (Z.eqb_spec 15 n) as [<- | Hne]; [|apply andb_false_r].
    rewrite andb_true_r. apply Z.testbit_false; [lia|].
    change (2 ^ 15) with 32768. rewrite Z.div_small by lia. reflexivity.
  - apply Z.bits_inj'. intros n Hn.
    rewrite Z.land_spec. change 32768 with (2 ^ 15).
    rewrite Z.pow2_bits_eqb by lia.
    destruct (Z.eqb_spec 15 n) as [<- | Hne]; [|apply andb_false_r].
    rewrite andb_true_r. apply Z.testbit_true; [lia|].
    change (2 ^ 15) with 32768.
    assert (Hq : w / 32768 = 1)
      by (symmetry; apply Z.div_unique with (r := w - 32768); lia).
    now rewrite Hq.
Qed.

Lemma word_fields (w : Z) :
  0 <= w < 65536 ->
  w = (if w <? 32768 then 0 else 1) * 32768 + (w / 1024) mod 32 * 1024
      + (w / 32) mod 32 * 32 + w mod 32.
Proof.
  intros H.
  assert (E1 : w / 32 / 32 = w / 1024) by (rewrite Z.div_div by lia; reflexivity).
  assert (E2 : w / 1024 / 32 = w / 32768)
    by (rewrite Z.div_div by lia; reflexivity).
  pose proof (Z.div_mod w 32 ltac:(lia)).
  pose proof (Z.div_mod (w / 32) 32 ltac:(lia)).
  pose proof (Z.div_mod (w / 1024) 32 ltac:(lia)).
  rewrite E1 in *. rewrite E2 in *.
  assert (w / 32768 = if w <? 32768 then 0 else 1).
  { destruct (w <? 32768) eqn:E.
    - apply Z.div_small. lia.
    - symmetry. apply Z.div_unique with (r := w - 32768); lia. }
  destruct (w <? 32768); lia.
Qed.

Lemma lor_fields (a r g b : Z) :
  0 <= a <= 1 -> 0 <= r < 32 -> 0 <= g < 32 -> 0 <= b < 32 ->
  Z.lor (Z.lor (Z.lor (Z.shiftl a 15) (Z.shiftl r 10)) (Z.shiftl g 5)) b
  = a * 32768 + r * 1024 + g * 32 + b.
Proof.
  intros Ha Hr Hg Hb. rewrite !shiftl_pow by lia.
  rewrite (lor_shifted a (r * 2 ^ 10) 15)
    by (change (2 ^ 15) with 32768; change (2 ^ 10) with 1024; lia).
  replace (a * 2 ^ 15 + r * 2 ^ 10) with ((a * 32 + r) * 2 ^ 10)
    by (change (2 ^ 15) with 32768; change (2 ^ 10) with 1024; lia).
  rewrite (lor_shifted (a * 32 + r) (g * 2 ^ 5) 10)
    by (change (2 ^ 10) with 1024; change (2 ^ 5) with 32; lia).
  replace ((a * 32 + r) * 2 ^ 10 + g * 2 ^ 5)
    with (((a * 32 + r) * 32 + g) * 2 ^ 5)
    by (change (2 ^ 10) with 1024; change (2 ^ 5) with 32; lia).
  rewrite (lor_shifted _ b 5) by (change (2 ^ 5) with 32; lia).
  change (2 ^ 5) with 32. lia.
Qed.

(** X21: converting a 16-bit colour word to RGBA as the exporter does and
    back as the palette updater does gives the word again, for the
    inverted alpha convention and for the normal one; every channel of
    the RGBA value lies between 0 and 255. *)
Theorem palette_word_roundtrip (w : Z) :
  0 <= w < 65536 ->
  (let '(r, g, b, a) := Colors.argb1555_inverted w in
   Colors.argb_to_1555 r g b a true = w
   /\ 0 <= r <= 255 /\ 0 <= g <= 255 /\ 0 <= b <= 255 /\ In a [0; 255])
  /\ (let '(r, g, b, a) := Colors.argb1555_normal w in
      Colors.argb_to_1555 r g b a false = w).
Proof.
  intros Hw.
  unfold Colors.argb1555_inverted, Colors.argb1555_normal,
    Colors.argb_to_1555. cbv zeta.
  rewrite !land_31, !shiftr_pow by lia.
  change (2 ^ 10) with 1024. change (2 ^ 5) with 32.
  pose proof (Z.mod_pos_bound (w / 1024) 32 ltac:(lia)) as Hr.
  pose proof (Z.mod_pos_bound (w / 32) 32 ltac:(lia)) as Hg.
  pose proof (Z.mod_pos_bound w 32 ltac:(lia)) as Hb.
  destruct (channel_roundtrip _ Hr) as [Er Rr].
  destruct (channel_roundtrip _ Hg) as [Eg Rg].
  destruct (channel_roundtrip _ Hb) as [Eb Rb].
  rewrite Er, Eg, Eb. rewrite land_bit15 by lia.
  pose proof (word_fields w Hw) as Hf.
  destruct (w <? 32768) eqn:E; cbn [Z.eqb negb andb];
    change (255 >=? 128) with true; change (0 >=? 128) with false;
    cbv iota; rewrite !lor_fields by lia.
  - repeat split; try lia. cbn [In]. auto.
  - repeat split; try lia. cbn [In]. auto.
Qed.

Lemma palette_word_roundtrip_witness :
  (let '(r, g, b, a) := Colors.argb1555_inverted 0x83E0 in
   Colors.argb_to_1555 r g b a true = 0x83E0
   /\ 0 <= r <= 255 /\ 0 <= g <= 255 /\ 0 <= b <= 255 /\ In a [0; 255])
  /\ (let '(r, g, b, a) := Colors.argb1555_normal 0x83E0 in
      Colors.argb_to_1555 r g b a false = 0x83E0).
Proof. apply (palette_word_roundtrip 0x83E0). lia. Defined.

Lemma testbit_small (a k n : Z) :
  0 <= a < 2 ^ k -> 0 <= k <= n -> Z.testbit a n = false.
Proof.
  intros Ha Hk. destruct (Z.eq_dec a 0) as [-> | Hne]; [apply Z.bits_0|].
  apply Z.bits_above_log2; [lia|].
  assert (Z.log2 a < k) by (apply Z.log2_lt_pow2; lia). lia.
Qed.

Lemma testbit_3 (k : Z) : Z.testbit 3 k = (0 <=? k) && (k <? 2).
Proof.
  destruct (Z.lt_ge_cases k 0) as [Hneg | Hnn].
  - rewrite Z.testbit_neg_r by lia. destruct (0 <=? k) eqn:E; [lia|reflexivity].
  - assert (Hc : k = 0 \/ k = 1 \/ 2 <= k) by lia.
    destruct Hc as [-> | [-> | Hge]]; [reflexivity | reflexivity |].
    rewrite (testbit_small 3 2 k) by (change (2 ^ 2) with 4; lia).
    destruct (k <? 2) eqn:E; [lia|]. now rewrite andb_false_r.
Qed.

Lemma testbit_15 (k : Z) : Z.testbit 15 k = (0 <=? k) && (k <? 4).
Proof.
  destruct (Z.lt_ge_cases k 0) as [Hneg | Hnn].
  - rewrite Z.testbit_neg_r by lia. destruct (0 <=? k) eqn:E; [lia|reflexivity].
  - assert (Hc : k = 0 \/ k = 1 \/ k = 2 \/ k = 3 \/ 4 <= k) by lia.
    destruct Hc as [-> | [-> | [-> | [-> | Hge]]]]; try reflexivity.
    rewrite (testbit_small 15 4 k) by (change (2 ^ 4) with 16; lia).
    destruct (k <? 4) eqn:E; [lia|]. now rewrite andb_false_r.
Qed.

(** The bits of the attribute word with a new bank nibble. *)
Lemma testbit_set_sprite_bank (attr bank n : Z) :
  0 <= n ->
  Z.testbit (Colors.set_sprite_bank attr bank) n
  = if (8 <=? n) && (n <? 12) then Z.testbit bank (n - 8)
    else Z.testbit attr n.
Proof.
  intros Hn. unfold Colors.set_sprite_bank.
  rewrite Z.lor_spec, Z.land_spec, Z.lnot_spec, !Z.shiftl_spec by lia.
  rewrite Z.land_spec, !testbit_15.
  destruct (8 <=? n) eqn:E1; destruct (n <? 12) eqn:E2; cbn [andb];
    destruct (0 <=? n - 8) eqn:E3; destruct (n - 8 <? 4) eqn:E4;
    cbn [andb negb]; try lia;
    rewrite ?andb_true_r, ?andb_false_r, ?orb_false_r, ?orb_false_l;
    reflexivity.
Qed.

(** X22: writing a bank into the attribute word of a sprite changes its
    palette field and nothing else.  For an attribute word read from the
    buffer (16 bits) the palette field of the new word is the low four
    bits of the bank, the bank itself when it is from 0 to 15 as
    [update_one] requires; every bit outside the palette field (bits 8 to
    11) is kept, so the low byte and bits 12 to 15 (depth, blend,
    quadruple) are the old ones, and with them the size, the depth and
    the flip bits of the sprite; the word stays a 16-bit value. *)
Theorem set_sprite_bank_fields (attr bank : Z) :
  0 <= attr < 65536 ->
  Sprites.sp_palette (Colors.set_sprite_bank attr bank) = Z.land bank 0xF
  /\ (0 <= bank <= 15 ->
      Sprites.sp_palette (Colors.set_sprite_bank attr bank) = bank)
  /\ (forall n, 0 <= n -> n < 8 \/ 12 <= n ->
        Z.testbit (Colors.set_sprite_bank attr bank) n = Z.testbit attr n)
  /\ Z.land (Colors.set_sprite_bank attr bank) 0xFF = Z.land attr 0xFF
  /\ Z.shiftr (Colors.set_sprite_bank attr bank) 12 = Z.shiftr attr 12
  /\ Sprites.sprite_dims (Colors.set_sprite_bank attr bank)
     = Sprites.sprite_dims attr
  /\ Sprites.sp_flip (Colors.set_sprite_bank attr bank) = Sprites.sp_flip attr
  /\ 0 <= Colors.set_sprite_bank attr bank < 65536.
Proof.
  intros Ha.
  assert (Hpal : Sprites.sp_palette (Colors.set_sprite_bank attr bank)
                 = Z.land bank 0xF).
  { unfold Sprites.sp_palette. apply Z.bits_inj'. intros n Hn.
    rewrite !Z.land_spec, Z.shiftr_spec, testbit_set_sprite_bank by lia.
    rewrite testbit_15.
    destruct (0 <=? n) eqn:E0; [|lia]. cbn [andb].
    destruct (n <? 4) eqn:E1; [|now rewrite !andb_false_r].
    destruct (8 <=? n + 8) eqn:E2; [|lia].
    destruct (n + 8 <? 12) eqn:E3; [|lia]. cbn [andb].
    now replace (n + 8 - 8) with n by lia. }
  assert (Hbits : forall n, 0 <= n -> n < 8 \/ 12 <= n ->
            Z.testbit (Colors.set_sprite_bank attr bank) n
            = Z.testbit attr n).
  { intros n Hn Hout. rewrite testbit_set_sprite_bank by lia.
    destruct (8 <=? n) eqn:E1; destruct (n <? 12) eqn:E2; cbn [andb];
      try reflexivity; lia. }
  assert (Hlow : forall s, 0 <= s <= 6 ->
            Z.land (Z.shiftr (Colors.set_sprite_bank attr bank) s) 3
            = Z.land (Z.shiftr attr s) 3).
  { intros s Hs. apply Z.bits_inj'. intros n Hn.
    rewrite !Z.land_spec, !Z.shiftr_spec by lia.
    rewrite testbit_3.
    destruct (0 <=? n) eqn:E0; [|lia]. cbn [andb].
    destruct (n <? 2) eqn:E1; [|now rewrite !andb_false_r].
    rewrite Hbits by lia. reflexivity. }
  split; [exact Hpal|]. split; [|split; [exact Hbits|]].
  { intros Hb. rewrite Hpal. change 0xF with (Z.ones 4).
    rewrite Z.land_ones by lia. apply Z.mod_small.
    change (2 ^ 4) with 16. lia. }
  split; [|split; [|split; [|split]]].
  - apply Z.bits_inj'. intros n Hn.
    rewrite !Z.land_spec.
    destruct (Z.lt_ge_cases n 8) as [Hlt | Hge].
    + now rewrite Hbits by lia.
    + change 0xFF with (Z.ones 8).
      rewrite Z.ones_spec_high by lia. now rewrite !andb_false_r.
  - apply Z.bits_inj'. intros n Hn.
    rewrite !Z.shiftr_spec by lia. apply Hbits; lia.
  - unfold Sprites.sprite_dims, Sprites.sp_hsize, Sprites.sp_vsize,
      Sprites.sp_color.
    rewrite (Hlow 4), (Hlow 6) by lia.
    pose proof (Hlow 0 ltac:(lia)) as H0. rewrite !Z.shiftr_0_r in H0.
    now rewrite H0.
  - unfold Sprites.sp_flip. apply Hlow. lia.
  - assert (Hnn : 0 <= Colors.set_sprite_bank attr bank).
    { unfold Colors.set_sprite_bank. apply Z.lor_nonneg. split.
      - apply Z.land_nonneg. left. lia.
      - apply Z.shiftl_nonneg. apply Z.land_nonneg. right. lia. }
    split; [exact Hnn|].
    destruct (Z.lt_ge_cases (Colors.set_sprite_bank attr bank) 65536)
      as [Hlt | Hge]; [exact Hlt | exfalso].
    remember (Colors.set_sprite_bank attr bank) as X eqn:EX.
    assert (Hlog : 16 <= Z.log2 X)
      by (apply Z.log2_le_pow2; [lia | change (2 ^ 16) with 65536; lia]).
    pose proof (Z.bit_log2 X ltac:(lia)) as Hbit.
    rewrite EX in Hbit at 1.
    rewrite testbit_set_sprite_bank in Hbit by lia.
    destruct ((8 <=? Z.log2 X) && (Z.log2 X <? 12)) eqn:E; [lia|].
    rewrite (testbit_small attr 16) in Hbit
      by (change (2 ^ 16) with 65536; lia).
    discriminate.
Qed.

Lemma set_sprite_bank_fields_witness :
  Sprites.sp_palette (Colors.set_sprite_bank 0xD234 11) = 11
  /\ (forall n, 0 <= n -> n < 8 \/ 12 <= n ->
        Z.testbit (Colors.set_sprite_bank 0xD234 11) n
        = Z.testbit 0xD234 n)
  /\ Z.land (Colors.set_sprite_bank 0xD234 11) 0xFF = Z.land 0xD234 0xFF
  /\ Z.shiftr (Colors.set_sprite_bank 0xD234 11) 12 = Z.shiftr 0xD234 12
  /\ Sprites.sprite_dims (Colors.set_sprite_bank 0xD234 11)
     = Sprites.sprite_dims 0xD234
  /\ Sprites.sp_flip (Colors.set_sprite_bank 0xD234 11)
     = Sprites.sp_flip 0xD234
  /\ 0 <= Colors.set_sprite_bank 0xD234 11 < 65536.
Proof.
  destruct (set_sprite_bank_fields 0xD234 11) as (_ & Hb & Hrest); [lia|].
  split; [apply Hb; lia | exact Hrest].
Defined.

(** ** Further properties: the partner table of the D-3 importer *)

Lemma table_offset (k : Z) :
  ImportD3Table.BASE_PARTNER + k / 4 * ImportD3Table.RECORD_SIZE + k mod 4 * 2
  = ImportD3Table.BASE_PARTNER + 2 * k.
Proof.
  unfold ImportD3Table.RECORD_SIZE.
  pose proof (Z.div_mod k 4 ltac:(lia)). lia.
Qed.

Lemma le16_same (b1 b2 : bytes) (o : Z) :
  0 <= o -> Py.len b1 = Py.len b2 ->
  byte_at b1 o = byte_at b2 o -> byte_at b1 (o + 1) = byte_at b2 (o + 1) ->
  le16 b1 o = le16 b2 o.
Proof.
  intros Ho Hl H0 H1. unfold le16. rewrite Hl.
  unfold struct_offset. destruct (o <? 0) eqn:E; [lia|].
  destruct (_ && _); [|reflexivity]. now rewrite H0, H1.
Qed.

(** The write-back loop on consecutive word indexes from [k]. *)
Lemma write_words_spec (ws : list Z) (k : Z) (data : bytes) :
  0 <= k -> Forall (fun w => 0 <= w <= 65535) ws ->
  ImportD3Table.BASE_PARTNER + 2 * (k + Py.len ws) <= Py.len data ->
  exists data',
    ImportD3Table.write_words data (Py.enumerate_from k ws) = Some data'
    /\ Py.len data' = Py.len data
    /\ (forall j, (j < List.length ws)%nat ->
          le16 data' (ImportD3Table.BASE_PARTNER + 2 * (k + Z.of_nat j))
          = Some (nth j ws 0))
    /\ (forall i, 0 <= i ->
          i < ImportD3Table.BASE_PARTNER + 2 * k
          \/ ImportD3Table.BASE_PARTNER + 2 * (k + Py.len ws) <= i ->
          byte_at data' i = byte_at data i).
Proof.
  intros Hk HF. revert k data Hk.
  induction HF as [|w rest Hw _ IH]; intros k data Hk Hfit.
  - exists data. cbn [Py.enumerate_from ImportD3Table.write_words].
    repeat split. intros j Hj. cbn [List.length] in Hj. lia.
  - cbn [Py.enumerate_from ImportD3Table.write_words]. cbv zeta.
    rewrite table_offset. rewrite len_cons in Hfit.
    pose proof (len_nonneg rest) as Hr.
    assert (HB : 0 <= ImportD3Table.BASE_PARTNER) by (vm_compute; discriminate).
    destruct (pack_into16_spec data (ImportD3Table.BASE_PARTNER + 2 * k) w
                Hw ltac:(lia) ltac:(lia)) as (d1 & -> & Hl1 & Hr1 & Hf1).
    destruct (IH (k + 1) d1 ltac:(lia) ltac:(lia))
      as (d2 & Hw2 & Hl2 & Hr2 & Hf2).
    exists d2. split; [exact Hw2|]. split; [lia|]. split.
    + intros [|j] Hj.
      * cbn [nth]. rewrite Z.add_0_r. rewrite <- Hr1.
        apply le16_same; [lia | lia | apply Hf2; lia | apply Hf2; lia].
      * cbn [nth]. cbn [List.length] in Hj.
        rewrite <- (Hr2 j ltac:(lia)). f_equal. lia.
    + intros i Hi Hout. rewrite len_cons in Hout.
      rewrite Hf2 by lia. apply Hf1. lia.
Qed.

Lemma len_normalize (words : list Z) :
  Py.len (ImportD3Table.normalize words) = 620.
Proof.
  unfold ImportD3Table.normalize. cbv zeta.
  change (ImportD3Table.NUM_RECORDS * 4) with 620.
  pose proof (len_nonneg words).
  destruct (Py.len words <? 620) eqn:E1.
  - rewrite len_app, len_repeat by lia. lia.
  - destruct (Py.len words >? 620) eqn:E2; [|lia].
    rewrite len_slice by lia. lia.
Qed.

Lemma nth_normalize (words : list Z) (k : nat) :
  (k < List.length words)%nat -> (k < 620)%nat ->
  nth k (ImportD3Table.normalize words) 0 = nth k words 0.
Proof.
  intros H1 H2. unfold ImportD3Table.normalize. cbv zeta.
  change (ImportD3Table.NUM_RECORDS * 4) with 620.
  destruct (Py.len words <? 620) eqn:E1.
  - now rewrite app_nth1 by lia.
  - destruct (Py.len words >? 620) eqn:E2; [|reflexivity].
    unfold Py.slice. unfold Py.len in *.
    rewrite !clamp_index_id by lia. change (Z.to_nat 0) with 0%nat.
    cbn [skipn]. rewrite nth_firstn.
    destruct (Nat.ltb_spec k (Z.to_nat (620 - 0))); [reflexivity | lia].
Qed.

Lemma length_row_words (r : ImportD3Table.row) :
  List.length (ImportD3Table.row_words r) = 5%nat.
Proof. unfold ImportD3Table.row_words. cbv zeta. now destruct (_ >? _). Qed.

Lemma nth_flat_rows (rest : list ImportD3Table.row) (j t : nat)
      (r : ImportD3Table.row) :
  nth_error rest j = Some r -> (t < 5)%nat ->
  (5 * j + t < List.length (flat_map ImportD3Table.row_words rest))%nat
  /\ nth (5 * j + t) (flat_map ImportD3Table.row_words rest) 0
     = nth t (ImportD3Table.row_words r) 0.
Proof.
  revert j. induction rest as [|x rest IH]; intros j Hj Ht.
  - destruct j; discriminate.
  - cbn [flat_map]. rewrite length_app, length_row_words.
    destruct j as [|j].
    + cbn [nth_error] in Hj. apply Some_inj in Hj. subst x.
      replace (5 * 0 + t)%nat with t by lia. split; [lia|].
      apply app_nth1. rewrite length_row_words. exact Ht.
    + cbn [nth_error] in Hj. destruct (IH j Hj Ht) as [Hlt Hn].
      split; [lia|].
      rewrite app_nth2 by (rewrite length_row_words; lia).
      rewrite length_row_words.
      replace (5 * S j + t - 5)%nat with (5 * j + t)%nat by lia.
      exact Hn.
Qed.

Lemma table_written (data : bytes) (rows : list ImportD3Table.row)
      (words : list Z) :
  ImportD3Table.rebuild_words rows = Some words ->
  Forall (fun w => 0 <= w <= 65535) (ImportD3Table.normalize words) ->
  ImportD3Table.BASE_PARTNER + 1240 <= Py.len data ->
  exists data',
    ImportD3Table.write_table data rows = Some data'
    /\ Py.len data' = Py.len data
    /\ (forall k, 0 <= k < 620 ->
          le16 data' (ImportD3Table.BASE_PARTNER + 2 * k)
          = Some (nth (Z.to_nat k) (ImportD3Table.normalize words) 0))
    /\ (forall i, 0 <= i ->
          i < ImportD3Table.BASE_PARTNER
          \/ ImportD3Table.BASE_PARTNER + 1240 <= i ->
          byte_at data' i = byte_at data i).
Proof.
  intros Hw HF Hfit. unfold ImportD3Table.write_table. rewrite Hw.
  pose proof (len_normalize words) as Hl.
  destruct (write_words_spec (ImportD3Table.normalize words) 0 data
              ltac:(lia) HF ltac:(lia)) as (data' & Hwr & Hlen & Hrd & Hfr).
  exists data'. split; [exact Hwr|]. split; [exact Hlen|]. split.
  - intros k Hk.
    specialize (Hrd (Z.to_nat k) ltac:(unfold Py.len in Hl; lia)).
    rewrite <- Hrd. f_equal. lia.
  - intros i Hi Hout. apply Hfr; [exact Hi | lia].
Qed.

(** X23: when the CSV has a complete first row, every word to write is a
    16-bit value and the table lies inside the buffer, the partner table
    write-back succeeds, keeps the length of the buffer, leaves every
    byte outside the 1240 bytes of the table as it was, and stores the
    620 words of the normalised word stream, in order, as little-endian
    words from [BASE_PARTNER] on. *)
Theorem partner_table_written (data : bytes) (rows : list ImportD3Table.row)
        (words : list Z) :
  ImportD3Table.rebuild_words rows = Some words ->
  Forall (fun w => 0 <= w <= 65535) (ImportD3Table.normalize words) ->
  ImportD3Table.BASE_PARTNER + 1240 <= Py.len data ->
  exists data',
    ImportD3Table.write_table data rows = Some data'
    /\ Py.len data' = Py.len data
    /\ (forall k, 0 <= k < 620 ->
          le16 data' (ImportD3Table.BASE_PARTNER + 2 * k)
          = Some (nth (Z.to_nat k) (ImportD3Table.normalize words) 0))
    /\ (forall i, 0 <= i ->
          i < ImportD3Table.BASE_PARTNER
          \/ ImportD3Table.BASE_PARTNER + 1240 <= i ->
          byte_at data' i = byte_at data i).
Proof. exact (table_written data rows words). Qed.

(** X24: a row after the first whose Power is above 225 has the value 0
    written into its power word: the word of index [5*j + 7] of the
    table, for the row of index [j] after the first, reads 0 after the
    write-back, whatever it held before. *)
Theorem partner_power_zeroed (data : bytes) (r0 r : ImportD3Table.row)
        (rest : list ImportD3Table.row) (words : list Z) (j : nat) :
  ImportD3Table.rebuild_words (r0 :: rest) = Some words ->
  Forall (fun w => 0 <= w <= 65535) (ImportD3Table.normalize words) ->
  ImportD3Table.BASE_PARTNER + 1240 <= Py.len data ->
  nth_error rest j = Some r ->
  ImportD3Table.field (ImportD3Table.Power r) > ImportD3Table.MAX_POWER ->
  5 * Z.of_nat j + 7 < 620 ->
  exists data',
    ImportD3Table.write_table data (r0 :: rest) = Some data'
    /\ le16 data' (ImportD3Table.BASE_PARTNER + 2 * (5 * Z.of_nat j + 7))
       = Some 0.
Proof.
  intros Hw HF Hfit Hj Hp Hk.
  destruct (table_written data (r0 :: rest) words Hw HF Hfit)
    as (data' & Hwr & _ & Hrd & _).
  exists data'. split; [exact Hwr|].
  rewrite Hrd by lia. f_equal.
  cbn [ImportD3Table.rebuild_words] in Hw.
  destruct (ImportD3Table.first_words r0) as [w0|] eqn:E0; [|discriminate].
  apply Some_inj in Hw. subst words.
  assert (Hl0 : List.length w0 = 4%nat).
  { unfold ImportD3Table.first_words in E0.
    destruct (ImportD3Table.Stage r0); [|discriminate].
    destruct (ImportD3Table.Unknown1 r0); [|discriminate].
    destruct (ImportD3Table.Power r0); [|discriminate].
    destruct (ImportD3Table.Unknown2 r0); [|discriminate].
    apply Some_inj in E0. now subst w0. }
  destruct (nth_flat_rows rest j 3 r Hj ltac:(lia)) as [Hlt Hn].
  replace (Z.to_nat (5 * Z.of_nat j + 7)) with (4 + (5 * j + 3))%nat by lia.
  rewrite nth_normalize by (rewrite ?length_app; lia).
  rewrite app_nth2 by lia. rewrite Hl0.
  replace (4 + (5 * j + 3) - 4)%nat with (5 * j + 3)%nat by lia.
  rewrite Hn. unfold ImportD3Table.row_words. cbv zeta.
  destruct (_ >? _) eqn:E; [reflexivity | lia].
Qed.

Lemma In_firstn_l {A} (n : nat) (l : list A) (x : A) :
  In x (firstn n l) -> In x l.
Proof.
  revert l. induction n as [|n IH]; intros [|y l] H; try contradiction.
  cbn [firstn] in H. destruct H as [-> | H]; [now left | right; now apply IH].
Qed.

Lemma In_skipn_l {A} (n : nat) (l : list A) (x : A) :
  In x (skipn n l) -> In x l.
Proof.
  revert l. induction n as [|n IH]; intros l H; [exact H|].
  destruct l as [|y l]; [contradiction|]. right. now apply IH.
Qed.

Lemma normalize_Forall (P : Z -> Prop) (words : list Z) :
  Forall P words -> P 0 -> Forall P (ImportD3Table.normalize words).
Proof.
  intros HF H0. unfold ImportD3Table.normalize. cbv zeta.
  destruct (_ <? _).
  - apply Forall_app. split; [exact HF|].
    apply Forall_forall. intros x Hx. apply repeat_spec in Hx. now subst x.
  - destruct (_ >? _); [|exact HF].
    apply Forall_forall. intros x Hx. unfold Py.slice in Hx.
    apply In_firstn_l, In_skipn_l in Hx.
    rewrite Forall_forall in HF. now apply HF.
Qed.

Lemma partner_table_written_witness :
  exists data',
    ImportD3Table.write_table (repeat x00 (Z.to_nat 700000))
      [ImportD3Table.mkRow 2 (Some 1) (Some 0) (Some 40) (Some 0);
       ImportD3Table.mkRow 7 (Some 2) None (Some 120) None] = Some data'
    /\ Py.len data' = Py.len (repeat x00 (Z.to_nat 700000))
    /\ (forall k, 0 <= k < 620 ->
          le16 data' (ImportD3Table.BASE_PARTNER + 2 * k)
          = Some (nth (Z.to_nat k)
                      (ImportD3Table.normalize [1; 0; 40; 0; 7; 2; 0; 120; 0])
                      0))
    /\ (forall i, 0 <= i ->
          i < ImportD3Table.BASE_PARTNER
          \/ ImportD3Table.BASE_PARTNER + 1240 <= i ->
          byte_at data' i = byte_at (repeat x00 (Z.to_nat 700000)) i).
Proof.
  apply (partner_table_written (repeat x00 (Z.to_nat 700000))).
  - reflexivity.
  - apply normalize_Forall; [repeat constructor; lia | lia].
  - rewrite len_repeat by lia. vm_compute. discriminate.
Defined.

Lemma partner_power_zeroed_witness :
  exists data',
    ImportD3Table.write_table (repeat x00 (Z.to_nat 700000))
      [ImportD3Table.mkRow 2 (Some 1) (Some 0) (Some 40) (Some 0);
       ImportD3Table.mkRow 7 (Some 2) None (Some 300) None] = Some data'
    /\ le16 data' (ImportD3Table.BASE_PARTNER + 2 * (5 * Z.of_nat 0 + 7))
       = Some 0.
Proof.
  apply (partner_power_zeroed (repeat x00 (Z.to_nat 700000))
           (ImportD3Table.mkRow 2 (Some 1) (Some 0) (Some 40) (Some 0))
           (ImportD3Table.mkRow 7 (Some 2) None (Some 300) None)
           [ImportD3Table.mkRow 7 (Some 2) None (Some 300) None]
           [1; 0; 40; 0; 7; 2; 0; 0; 0] 0).
  - reflexivity.
  - apply normalize_Forall; [repeat constructor; lia | lia].
  - rewrite len_repeat by lia. vm_compute. discriminate.
  - reflexivity.
  - vm_compute. reflexivity.
  - vm_compute. reflexivity.
Defined.

(** ** Further properties: the exporter reads what the importer wrote *)

Lemma mapM_map {A B} (g : A -> option B) (f : A -> B) (l : list A) :
  (forall x, In x l -> g x = Some (f x)) -> mapM g l = Some (map f l).
Proof.
  induction l as [|x t IH]; intros H; [reflexivity|].
  cbn [mapM map]. rewrite (H x (or_introl eq_refl)), IH; [reflexivity|].
  intros y Hy. apply H. now right.
Qed.

Lemma nth_flat_uniform {A} (f : A -> list Z) (c : nat) (l : list A)
      (j t : nat) (x : A) :
  (forall y, List.length (f y) = c) ->
  nth_error l j = Some x -> (t < c)%nat ->
  nth (c * j + t) (flat_map f l) 0 = nth t (f x) 0.
Proof.
  intros Hc. revert j. induction l as [|y l IH]; intros j Hj Ht.
  - destruct j; discriminate.
  - cbn [flat_map]. destruct j as [|j].
    + cbn [nth_error] in Hj. apply Some_inj in Hj. subst y.
      replace (c * 0 + t)%nat with t by lia.
      apply app_nth1. rewrite Hc. exact Ht.
    + cbn [nth_error] in Hj.
      rewrite app_nth2 by (rewrite Hc; nia). rewrite Hc.
      replace (c * S j + t - c)%nat with (c * j + t)%nat by nia.
      now apply IH.
Qed.

Lemma length_flat_uniform {A} (f : A -> list Z) (c : nat) (l : list A) :
  (forall y, List.length (f y) = c) ->
  List.length (flat_map f l) = (c * List.length l)%nat.
Proof.
  intros Hc. induction l as [|y l IH]; [cbn; lia|].
  cbn [flat_map List.length]. rewrite length_app, Hc, IH. nia.
Qed.

(** The words of a list taken four at a time are the list. *)
Lemma chunks4 (ws : list Z) (n : nat) :
  List.length ws = (4 * n)%nat ->
  flat_map (fun i => [nth (Z.to_nat (4 * i)) ws 0;
                      nth (Z.to_nat (4 * i + 1)) ws 0;
                      nth (Z.to_nat (4 * i + 2)) ws 0;
                      nth (Z.to_nat (4 * i + 3)) ws 0])
           (Py.range_from n 0 1)
  = ws.
Proof.
  intros Hl.
  set (f := fun i => [nth (Z.to_nat (4 * i)) ws 0;
                      nth (Z.to_nat (4 * i + 1)) ws 0;
                      nth (Z.to_nat (4 * i + 2)) ws 0;
                      nth (Z.to_nat (4 * i + 3)) ws 0]).
  assert (Hc : forall y, List.length (f y) = 4%nat) by reflexivity.
  apply (nth_ext _ _ 0 0).
  - rewrite (length_flat_uniform f 4 _ Hc), length_range_from. lia.
  - intros k Hk.
    rewrite (length_flat_uniform f 4 _ Hc), length_range_from in Hk.
    pose proof (Nat.div_mod_eq k 4) as Hdm.
    pose proof (Nat.mod_upper_bound k 4 ltac:(lia)) as Hm.
    assert (Hj : nth_error (Py.range_from n 0 1) (k / 4)
                 = Some (Z.of_nat (k / 4))).
    { rewrite nth_error_range_from by lia. f_equal. lia. }
    rewrite Hdm at 1.
    rewrite (nth_flat_uniform f 4 _ (k / 4) (k mod 4) _ Hc Hj Hm).
    unfold f.
    assert (Ht : (k mod 4 = 0 \/ k mod 4 = 1 \/ k mod 4 = 2 \/ k mod 4 = 3)%nat)
      by lia.
    destruct Ht as [E | [E | [E | E]]]; rewrite E; cbn [nth]; f_equal; lia.
Qed.

(** X25: the partner table round trip between the two tools: after the
    write-back of the D-3 importer, [extract_partner_words] of the
    exporter returns exactly the 620 words of the normalised word stream
    that the importer rebuilt from the CSV rows. *)
Theorem partner_words_read_back (data : bytes)
        (rows : list ImportD3Table.row) (words : list Z) :
  ImportD3Table.rebuild_words rows = Some words ->
  Forall (fun w => 0 <= w <= 65535) (ImportD3Table.normalize words) ->
  ImportD3Table.BASE_PARTNER + 1240 <= Py.len data ->
  exists data',
    ImportD3Table.write_table data rows = Some data'
    /\ ExportD3Table.extract_partner_words data'
       = Some (ImportD3Table.normalize words).
Proof.
  intros Hw HF Hfit.
  destruct (table_written data rows words Hw HF Hfit)
    as (data' & Hwr & _ & Hrd & _).
  exists data'. split; [exact Hwr|].
  set (ws := ImportD3Table.normalize words) in *.
  pose proof (len_normalize words) as Hl. fold ws in Hl.
  unfold ExportD3Table.extract_partner_words.
  rewrite (mapM_map _ (fun i => [nth (Z.to_nat (4 * i)) ws 0;
                                 nth (Z.to_nat (4 * i + 1)) ws 0;
                                 nth (Z.to_nat (4 * i + 2)) ws 0;
                                 nth (Z.to_nat (4 * i + 3)) ws 0])).
  - rewrite <- flat_map_concat_map. f_equal.
    unfold Py.range.
    change (Z.to_nat ((ExportD3Table.NUM_RECORDS - 0 + 1 - 1) / 1))
      with 155%nat.
    apply chunks4. unfold Py.len in Hl. lia.
  - intros i Hi. apply In_range in Hi.
    change ExportD3Table.NUM_RECORDS with 155 in Hi.
    unfold ExportD3Table.record_words. cbv zeta.
    change (Py.range 0 ExportD3Table.RECORD_SIZE 2) with [0; 2; 4; 6].
    cbn [mapM].
    change ExportD3Table.BASE_PARTNER with ImportD3Table.BASE_PARTNER.
    change ExportD3Table.RECORD_SIZE with 8.
    replace (ImportD3Table.BASE_PARTNER + i * 8 + 0)
      with (ImportD3Table.BASE_PARTNER + 2 * (4 * i)) by lia.
    replace (ImportD3Table.BASE_PARTNER + i * 8 + 2)
      with (ImportD3Table.BASE_PARTNER + 2 * (4 * i + 1)) by lia.
    replace (ImportD3Table.BASE_PARTNER + i * 8 + 4)
      with (ImportD3Table.BASE_PARTNER + 2 * (4 * i + 2)) by lia.
    replace (ImportD3Table.BASE_PARTNER + i * 8 + 6)
      with (ImportD3Table.BASE_PARTNER + 2 * (4 * i + 3)) by lia.
    rewrite !Hrd by lia. reflexivity.
Qed.

Lemma partner_words_read_back_witness :
  exists data',
    ImportD3Table.write_table (repeat x00 (Z.to_nat 700000))
      [ImportD3Table.mkRow 2 (Some 1) (Some 0) (Some 40) (Some 0);
       ImportD3Table.mkRow 7 (Some 2) None (Some 120) None] = Some data'
    /\ ExportD3Table.extract_partner_words data'
       = Some (ImportD3Table.normalize [1; 0; 40; 0; 7; 2; 0; 120; 0]).
Proof.
  apply (partner_words_read_back (repeat x00 (Z.to_nat 700000))).
  - reflexivity.
  - apply normalize_Forall; [repeat constructor; lia | lia].
  - rewrite len_repeat by lia. vm_compute. discriminate.
Defined.

(** X26: the two copies of the package parser agree: on a block whose
    header words increase and stay inside the block, [parse_package] of
    the exporter, which reads the header itself, returns the tables that
    [parse_package] of the sprite replacement returns for these header
    words, and fails when it fails. *)
Theorem parse_package_agree (block : bytes) (o : Sprites.offsets) :
  Sprites.header block 0 = Some o ->
  Sprites.increasing_within o (Py.len block) = true ->
  ExportSprites.parse_package block
  = match ReplaceSprites.parse_package block o with
    | Some (images, sprites, palette_words, _) =>
        Some (o, images, sprites, palette_words)
    | None => None
    end.
Proof.
  intros Hh Hinc. unfold ExportSprites.parse_package,
    ReplaceSprites.parse_package.
  rewrite Hh. destruct o as [[[i s] p] c]. rewrite Hinc. cbn [negb].
  destruct (Sprites.aligned (i, s, p, c)); cbn [negb]; [|reflexivity].
  cbv zeta.
  destruct (Sprites.read_images block i _); [|reflexivity].
  destruct (Sprites.read_sprites block s _); [|reflexivity].
  destruct (Sprites.read_palette block p _); reflexivity.
Qed.

Lemma parse_package_agree_witness :
  ExportSprites.parse_package
    (bytes_of [16; 0; 0; 0; 22; 0; 0; 0; 30; 0; 0; 0; 32; 0; 0; 0;
               0; 0; 1; 1; 0; 0; 5; 0; 0; 0; 0; 0; 0; 0; 0xE0; 0x83])
  = match ReplaceSprites.parse_package
            (bytes_of [16; 0; 0; 0; 22; 0; 0; 0; 30; 0; 0; 0; 32; 0; 0; 0;
                       0; 0; 1; 1; 0; 0; 5; 0; 0; 0; 0; 0; 0; 0; 0xE0; 0x83])
            (16, 22, 30, 32) with
    | Some (images, sprites, palette_words, _) =>
        Some ((16, 22, 30, 32), images, sprites, palette_words)
    | None => None
    end.
Proof.
  apply (parse_package_agree _ (16, 22, 30, 32)); vm_compute; reflexivity.
Defined.

Lemma sorted_nth_error (l : list Z) (i j : nat) (x y : Z) :
  StronglySorted Z.le l -> (i < j)%nat ->
  nth_error l i = Some x -> nth_error l j = Some y -> x <= y.
Proof.
  intros Hs. revert i j. induction Hs as [|a l Hs IH HF]; intros i j Hij Hi Hj.
  - destruct i; discriminate.
  - destruct j as [|j]; [lia|]. cbn [nth_error] in Hj.
    destruct i as [|i].
    + cbn [nth_error] in Hi. apply Some_inj in Hi. subst a.
      rewrite Forall_forall in HF. apply HF. eapply nth_error_In, Hj.
    + cbn [nth_error] in Hi. apply (IH i j); [lia | exact Hi | exact Hj].
Qed.

Lemma index_nth_error {A} (l : list A) (i : Z) :
  0 <= i < Py.len l -> Py.index l i = nth_error l (Z.to_nat i).
Proof.
  intros H. unfold Py.index. destruct (i <? 0) eqn:E; [lia|].
  destruct ((0 <=? i) && (i <? Py.len l)) eqn:E2; [reflexivity | lia].
Qed.

(** X27: in a text archive that the validator accepted, the slots of the
    strings are laid out in order: every string of index [si] has a
    non-negative capacity, its slot ends inside the view, and it ends at
    or before the start of every later string, so that a write inside one
    slot touches no other string. *)
Theorem slots_in_order (view : bytes) (ta : Txt.TextArchive) (si sj : Z) :
  Txt.is_probable_text_archive view = Some (Some ta) ->
  0 <= si < sj -> sj < Txt.n_strings ta ->
  exists wi cap wj,
    Py.index (Txt.offsets_word ta) si = Some wi
    /\ ImportD3NpcNames.string_capacity ta si = Some cap
    /\ Py.index (Txt.offsets_word ta) sj = Some wj
    /\ 0 <= cap
    /\ wi * 2 + cap <= wj * 2
    /\ wj * 2 < Py.len view.
Proof.
  intros Hta Hsi Hsj.
  destruct (text_archive_header view ta Hta)
    as (Hd & Hn & Hl & Hlen & HF & Hs).
  rewrite Forall_forall in HF.
  destruct (index_inside (Txt.offsets_word ta) si ltac:(lia)) as [wi Hwi].
  destruct (index_inside (Txt.offsets_word ta) sj ltac:(lia)) as [wj Hwj].
  destruct (index_inside (Txt.offsets_word ta) (si + 1) ltac:(lia))
    as [wn Hwn].
  unfold ImportD3NpcNames.string_capacity. rewrite Hwi.
  destruct (si + 1 <? Txt.n_strings ta) eqn:E; [|lia]. rewrite Hwn.
  exists wi, (wn * 2 - wi * 2), wj.
  pose proof Hwi as Hwi'. pose proof Hwj as Hwj'. pose proof Hwn as Hwn'.
  rewrite index_nth_error in Hwi', Hwj', Hwn' by lia.
  assert (H1 : wi <= wn)
    by (apply (sorted_nth_error _ (Z.to_nat si) (Z.to_nat (si + 1)) _ _ Hs);
        [lia | exact Hwi' | exact Hwn']).
  assert (H2 : wn <= wj).
  { destruct (Z.eq_dec (si + 1) sj) as [Heq | Hne];
      [rewrite Heq in Hwn; assert (wn = wj) by congruence; lia|].
    apply (sorted_nth_error _ (Z.to_nat (si + 1)) (Z.to_nat sj) _ _ Hs);
      [lia | exact Hwn' | exact Hwj']. }
  destruct (HF wj (index_In _ _ _ Hwj)) as [_ Hb].
  repeat split; try assumption; try reflexivity; lia.
Qed.

Lemma slots_in_order_witness :
  exists wi cap wj,
    Py.index (Txt.offsets_word (Txt.mkTA 0 "" 2 [3; 5] Inputs.pair_view)) 0
    = Some wi
    /\ ImportD3NpcNames.string_capacity
         (Txt.mkTA 0 "" 2 [3; 5] Inputs.pair_view) 0 = Some cap
    /\ Py.index (Txt.offsets_word (Txt.mkTA 0 "" 2 [3; 5] Inputs.pair_view)) 1
       = Some wj
    /\ 0 <= cap
    /\ wi * 2 + cap <= wj * 2
    /\ wj * 2 < Py.len Inputs.pair_view.
Proof.
  apply (slots_in_order Inputs.pair_view
           (Txt.mkTA 0 "" 2 [3; 5] Inputs.pair_view) 0 1).
  - vm_compute. reflexivity.
  - lia.
  - vm_compute. reflexivity.
Defined.

(** ** C10: the power field of the Digivice partner importer *)





